(** * machu.la edge functions: the trust boundary, embedded in Rocq

    A shallow embedding of the security-relevant code of the Supabase edge
    functions of machu.la (handle-inbound-sms, admin-data, broadcast-sms and
    verify-pin), with the properties its design document states about them.

    Conventions.
    - A JavaScript string is the list of its UTF-16 code units ([jsstring]);
      a [Uint8Array] is a list of integers in [0, 256).
    - Platform functions the code calls (String.prototype.*, parseInt,
      TextEncoder/TextDecoder, URLSearchParams, WebCrypto's AES-GCM and
      HMAC-SHA-1, btoa) are defined from their standards and checked against
      published test vectors.
    - Randomness, the clock and the language-model oracle are inputs. *)

From Stdlib Require Import String Ascii.
From Stdlib Require Import Strings.Byte.
From Stdlib Require Import ZArith Lia List Bool.
From stdpp Require Import base gmap list.
Import ListNotations.
Open Scope Z_scope.
Set Warnings "-register-all".

(** ** JavaScript strings *)

Module JS.

(** A string value: its UTF-16 code units. *)
Definition jsstring := list Z.

(** An ASCII literal as a JavaScript string. *)
Fixpoint js (s : string) : jsstring :=
  match s with
  | EmptyString => []
  | String c r => Z.of_nat (nat_of_ascii c) :: js r
  end.

(** [a === b] on strings. *)
Fixpoint str_eqb (a b : jsstring) : bool :=
  match a, b with
  | [], [] => true
  | x :: a', y :: b' => (x =? y) && str_eqb a' b'
  | _, _ => false
  end.

(** [s.includes(c)] for a one-unit needle. *)
Definition includes (c : Z) (s : jsstring) : bool := existsb (Z.eqb c) s.

(** [s.split(c)] for a one-unit separator: every occurrence splits, and the
    result always has at least one part. *)
Fixpoint split (c : Z) (s : jsstring) : list jsstring :=
  match s with
  | [] => [[]]
  | x :: r =>
      if x =? c then [] :: split c r
      else match split c r with
           | p :: ps => (x :: p) :: ps
           | [] => [[x]]
           end
  end.

(** [s.slice(start)]: a negative start counts from the end. *)
Definition slice_from (start : Z) (s : jsstring) : jsstring :=
  let len := Z.of_nat (length s) in
  let from := if start <? 0 then Z.max (len + start) 0 else Z.min start len in
  skipn (Z.to_nat from) s.

(** [s.padStart(n, c)] for a one-unit filler. *)
Definition padStart (n : Z) (c : Z) (s : jsstring) : jsstring :=
  repeat c (Z.to_nat (n - Z.of_nat (length s))) ++ s.

(** Upper-casing of the ASCII letters; other units are kept.  This is
    [toUpperCase] exactly on ASCII strings; where the code upper-cases
    arbitrary text the Unicode mapping is a parameter instead. *)
Definition upper_unit (u : Z) : Z :=
  if (97 <=? u) && (u <=? 122) then u - 32 else u.
Definition toUpperCase_ascii (s : jsstring) : jsstring := map upper_unit s.

(** WhiteSpace and LineTerminator of ECMAScript, as [trim] and [\s] use them. *)
Definition isLineTerminator (u : Z) : bool :=
  (u =? 10) || (u =? 13) || (u =? 8232) || (u =? 8233).
Definition isWhiteSpace (u : Z) : bool :=
  (u =? 9) || (u =? 11) || (u =? 12) || (u =? 32) || (u =? 160)
  || (u =? 5760) || ((8192 <=? u) && (u <=? 8202))
  || (u =? 8239) || (u =? 8287) || (u =? 12288) || (u =? 65279).
Definition isStrWhiteSpaceChar (u : Z) : bool :=
  isWhiteSpace u || isLineTerminator u.

Fixpoint trimStart (s : jsstring) : jsstring :=
  match s with
  | u :: r => if isStrWhiteSpaceChar u then trimStart r else s
  | [] => []
  end.
Definition trimEnd (s : jsstring) : jsstring := rev (trimStart (rev s)).
Definition trim (s : jsstring) : jsstring := trimEnd (trimStart s).

(** Digits of [Number.prototype.toString(radix)] and [parseInt]. *)
Definition digitChar (d : Z) : Z := if d <? 10 then 48 + d else 87 + d.

(** [n.toString(radix)] for a non-negative integer [n]: most significant
    digit first, no leading zero, ["0"] for zero.  The recursion is on a
    bound on the number of digits. *)
Fixpoint toString_digits (fuel : nat) (radix n : Z) (acc : jsstring) : jsstring :=
  match fuel with
  | O => acc
  | S f =>
      let acc' := digitChar (n mod radix) :: acc in
      if n / radix =? 0 then acc' else toString_digits f radix (n / radix) acc'
  end.
Definition Number_toString (radix n : Z) : jsstring :=
  toString_digits (S (Z.to_nat (Z.log2 n))) radix n [].

End JS.
Export JS.

Module JSFacts.

Lemma str_eqb_eq (a b : jsstring) : str_eqb a b = true <-> a = b.
Proof.
  revert b. induction a as [|x a IH]; intros [|y b]; simpl; split;
    try congruence; try reflexivity.
  - intros H. apply andb_prop in H as [Hx Hab].
    apply Z.eqb_eq in Hx. apply IH in Hab. congruence.
  - intros [= -> ->]. rewrite Z.eqb_refl. simpl. apply IH. reflexivity.
Qed.

Lemma str_eqb_refl (a : jsstring) : str_eqb a a = true.
Proof. apply str_eqb_eq. reflexivity. Qed.

Lemma str_eqb_neq (a b : jsstring) : str_eqb a b = false <-> a <> b.
Proof.
  split.
  - intros H Heq. apply str_eqb_eq in Heq. congruence.
  - intros H. destruct (str_eqb a b) eqn:Heq; [|reflexivity].
    apply str_eqb_eq in Heq. contradiction.
Qed.

Lemma str_eqb_sym (a b : jsstring) : str_eqb a b = str_eqb b a.
Proof.
  destruct (str_eqb b a) eqn:H.
  - apply str_eqb_eq in H. subst. apply str_eqb_refl.
  - apply str_eqb_neq in H. apply str_eqb_neq. congruence.
Qed.

End JSFacts.

(** ** The PIN generator
    [generatePin] of handle-inbound-sms and admin-data (the same code). *)

Module Pin.

(** [new DataView(bytes.buffer).getUint32(0)]: big-endian. *)
Definition getUint32 (b0 b1 b2 b3 : byte) : Z :=
  ((Z.of_N (Byte.to_N b0) * 256 + Z.of_N (Byte.to_N b1)) * 256
   + Z.of_N (Byte.to_N b2)) * 256 + Z.of_N (Byte.to_N b3).

(** The body of [generatePin] after [crypto.getRandomValues(bytes)] has
    filled the four bytes. *)
Definition generatePin (b0 b1 b2 b3 : byte) : jsstring :=
  let num := getUint32 b0 b1 b2 b3 in
  padStart 6 48 (toUpperCase_ascii (slice_from (-6) (Number_toString 36 num))).

(** The alphabet [0-9A-Z]. *)
Definition pin_char (u : Z) : bool :=
  ((48 <=? u) && (u <=? 57)) || ((65 <=? u) && (u <=? 90)).

(** The six base-36 digits of [n mod 36^6], upper-case, most significant
    first: what the design document says a PIN is. *)
Definition pin_of_number (n : Z) : jsstring :=
  map (fun i => upper_unit (digitChar ((n / 36 ^ i) mod 36))) [5; 4; 3; 2; 1; 0].

End Pin.

Module PinFacts.
Import Pin.

(** [k] base-36 digits of [n], most significant first, zero-padded. *)
Fixpoint digs (k : nat) (n : Z) : jsstring :=
  match k with
  | O => []
  | S k' => digs k' (n / 36) ++ [digitChar (n mod 36)]
  end.

Lemma toString_digits_digs (f : nat) :
  forall n acc, 0 <= n < 36 ^ Z.of_nat (S f) ->
    exists k : nat, (1 <= k <= S f)%nat /\
      toString_digits (S f) 36 n acc = digs k n ++ acc /\
      n < 36 ^ Z.of_nat k /\ (k = 1%nat \/ 36 ^ (Z.of_nat k - 1) <= n).
Proof.
  induction f as [|f IH]; intros n acc Hn;
    cbn [toString_digits]; destruct (Z.eqb_spec (n / 36) 0) as [Hq|Hq].
  - exists 1%nat. assert (n < 36) by (apply Z.div_small_iff in Hq; lia).
    split; [lia|]. split; [reflexivity|]. split; [simpl; lia|]. left; reflexivity.
  - exfalso. apply Hq. apply Z.div_small. simpl in Hn. lia.
  - exists 1%nat. assert (n < 36) by (apply Z.div_small_iff in Hq; lia).
    split; [lia|]. split; [reflexivity|]. split; [simpl; lia|]. left; reflexivity.
  - assert (Hq' : 0 <= n / 36 < 36 ^ Z.of_nat (S f)).
    { split; [apply Z.div_pos; lia|].
      apply Z.div_lt_upper_bound; [lia|].
      replace (36 * 36 ^ Z.of_nat (S f)) with (36 ^ Z.of_nat (S (S f))); [lia|].
      rewrite (Nat2Z.inj_succ (S f)), Z.pow_succ_r by lia. reflexivity. }
    destruct (IH (n / 36) (digitChar (n mod 36) :: acc) Hq')
      as (k & Hk & Heq & Hlt & Hmin).
    exists (S k). split; [lia|]. split.
    { cbn [toString_digits] in Heq. rewrite Heq. cbn [digs].
      rewrite <- app_assoc. reflexivity. }
    pose proof (Z.div_mod n 36 ltac:(lia)).
    pose proof (Z.mod_pos_bound n 36 ltac:(lia)).
    split.
    { rewrite Nat2Z.inj_succ, Z.pow_succ_r by lia. lia. }
    right. replace (Z.of_nat (S k) - 1) with (Z.of_nat k) by lia.
    assert (1 <= n / 36).
    { destruct (Z_lt_le_dec (n / 36) 1); [|lia].
      pose proof (Z.div_pos n 36 ltac:(lia) ltac:(lia)). lia. }
    destruct Hmin as [->|Hmin]; [simpl; lia|].
    replace (Z.of_nat k) with (Z.succ (Z.of_nat k - 1)) by lia.
    rewrite Z.pow_succ_r by lia. lia.
Qed.

Lemma getUint32_range b0 b1 b2 b3 : 0 <= getUint32 b0 b1 b2 b3 < 2 ^ 32.
Proof.
  unfold getUint32.
  pose proof (Byte.to_N_bounded b0). pose proof (Byte.to_N_bounded b1).
  pose proof (Byte.to_N_bounded b2). pose proof (Byte.to_N_bounded b3).
  change (2 ^ 32) with 4294967296. lia.
Qed.

Lemma Number_toString_36 n :
  0 <= n < 2 ^ 32 ->
  exists k : nat, (1 <= k <= 7)%nat /\ Number_toString 36 n = digs k n /\
    n < 36 ^ Z.of_nat k.
Proof.
  intros Hn. unfold Number_toString.
  assert (Hfuel : 0 <= n < 36 ^ Z.of_nat (S (Z.to_nat (Z.log2 n)))).
  { split; [lia|]. rewrite Nat2Z.inj_succ, Z2Nat.id by apply Z.log2_nonneg.
    destruct (Z.eq_dec n 0) as [->|Hz]; [simpl; lia|].
    pose proof (Z.log2_spec n ltac:(lia)) as [_ Hlt].
    eapply Z.lt_le_trans; [exact Hlt|].
    apply Z.pow_le_mono_l. pose proof (Z.log2_nonneg n). lia. }
  destruct (toString_digits_digs _ n [] Hfuel) as (k & Hk & Heq & Hlt & Hmin).
  clear Hfuel.
  exists k. rewrite Heq, app_nil_r. repeat split; try lia; try assumption.
  destruct Hmin as [->|Hmin]; [lia|].
  destruct (le_lt_dec k 7) as [|Hbig]; [assumption|exfalso].
  assert (36 ^ 7 <= 36 ^ (Z.of_nat k - 1)) by (apply Z.pow_le_mono_r; lia).
  change (2 ^ 32) with 4294967296 in Hn. change (36 ^ 7) with 78364164096 in H.
  lia.
Qed.

Lemma pin_char_digit d :
  0 <= d < 36 -> pin_char (upper_unit (digitChar d)) = true.
Proof.
  intros Hd. unfold pin_char, upper_unit, digitChar.
  destruct (Z.ltb_spec d 10).
  - replace ((97 <=? 48 + d) && (48 + d <=? 122)) with false
      by (symmetry; apply andb_false_intro1; apply Z.leb_gt; lia).
    apply orb_true_intro. left. apply andb_true_intro. split; apply Z.leb_le; lia.
  - replace ((97 <=? 87 + d) && (87 + d <=? 122)) with true
      by (symmetry; apply andb_true_intro; split; apply Z.leb_le; lia).
    apply orb_true_intro. right. apply andb_true_intro. split; apply Z.leb_le; lia.
Qed.

Lemma pin_of_number_shape n :
  length (pin_of_number n) = 6%nat /\ forallb pin_char (pin_of_number n) = true.
Proof.
  split; [reflexivity|]. unfold pin_of_number. cbn [map forallb].
  rewrite !pin_char_digit by (apply Z.mod_pos_bound; lia). reflexivity.
Qed.

Lemma high_digit_zero n (k i : Z) :
  0 <= n < 36 ^ k -> 0 <= k <= i ->
  upper_unit (digitChar ((n / 36 ^ i) mod 36)) = 48.
Proof.
  intros Hn Hk. rewrite Z.div_small; [reflexivity|].
  split; [lia|]. eapply Z.lt_le_trans; [apply Hn|].
  apply Z.pow_le_mono_r; lia.
Qed.

Lemma last_six (l : jsstring) :
  padStart 6 48 (toUpperCase_ascii (slice_from (-6) l)) =
  match map upper_unit l with
  | [a] => [48; 48; 48; 48; 48; a]
  | [a; b] => [48; 48; 48; 48; a; b]
  | [a; b; c] => [48; 48; 48; a; b; c]
  | [a; b; c; d] => [48; 48; a; b; c; d]
  | [a; b; c; d; e] => [48; a; b; c; d; e]
  | [a; b; c; d; e; f] => [a; b; c; d; e; f]
  | [_; b; c; d; e; f; g] => [b; c; d; e; f; g]
  | _ => padStart 6 48 (toUpperCase_ascii (slice_from (-6) l))
  end.
Proof.
  do 8 (destruct l as [|? l]; [reflexivity|]). reflexivity.
Qed.

Lemma generatePin_digits b0 b1 b2 b3 :
  generatePin b0 b1 b2 b3 = pin_of_number (getUint32 b0 b1 b2 b3).
Proof.
  unfold generatePin. pose proof (getUint32_range b0 b1 b2 b3) as Hr.
  set (n := getUint32 b0 b1 b2 b3) in *.
  destruct (Number_toString_36 n Hr) as (k & Hk & -> & Hlt).
  assert (Hn : 0 <= n) by lia. clear Hr.
  rewrite last_six. unfold pin_of_number.
  assert (Hcase : (k = 1 \/ k = 2 \/ k = 3 \/ k = 4 \/ k = 5 \/ k = 6 \/ k = 7)%nat)
    by lia.
  clear Hk.
  destruct Hcase as [->|[->|[->|[->|[->|[->| ->]]]]]];
    cbn [digs app map];
    repeat match goal with
    | |- _ :: _ = _ :: _ => f_equal
    | |- upper_unit _ = upper_unit _ =>
        do 3 f_equal; rewrite ?Z.div_div by lia; rewrite ?Z.div_1_r; reflexivity
    | |- 48 = upper_unit _ =>
        symmetry; eapply high_digit_zero; [split; [exact Hn|exact Hlt]|lia]
    end.
Qed.

End PinFacts.

(** C8 (PIN shape). For every four random bytes, [generatePin] returns a
    string of exactly six characters, each in [0-9A-Z]: the last six base-36
    digits of the big-endian unsigned 32-bit value, upper-cased and
    left-padded with ['0']. *)
Theorem generatePin_shape (b0 b1 b2 b3 : byte) :
  length (Pin.generatePin b0 b1 b2 b3) = 6%nat /\
  forallb Pin.pin_char (Pin.generatePin b0 b1 b2 b3) = true /\
  Pin.generatePin b0 b1 b2 b3 = Pin.pin_of_number (Pin.getUint32 b0 b1 b2 b3).
Proof.
  rewrite PinFacts.generatePin_digits.
  destruct (PinFacts.pin_of_number_shape (Pin.getUint32 b0 b1 b2 b3)) as [Hl Hc].
  auto.
Qed.

(** ** verify-pin: rate-limited PIN validation *)

Module VerifyPin.

Definition WINDOW_MS : Z := 5 * 60 * 1000.
Definition MAX_ATTEMPTS : Z := 10.

(** A parsed JSON value.  A number is kept as its [ToString] rendering, the
    only way the handler looks at it. *)
Inductive json :=
| JNull
| JBool (b : bool)
| JNum (rendering : jsstring)
| JStr (s : jsstring)
| JArr (elements : list json)
| JObj (fields : list (jsstring * json)).

(** The request as the handler reads it.  [req_json] is the outcome of
    [await req.json()]: [None] when it throws. *)
Record request := {
  req_method : jsstring;
  x_forwarded_for : option jsstring;
  req_json : option json
}.

Record response := { status : Z; body : jsstring }.

(** The rows the handler reads and writes.  Timestamps are milliseconds since
    the epoch, the precision of [toISOString]. *)
Record rate_row := { count : Z; window_start : Z }.
Record store := {
  rate_limits : gmap (list Z) rate_row;   (* keyed by the primary key [id] *)
  pins : list jsstring                    (* the [code] column *)
}.

(** The queries sent to the store, in order. *)
Inductive db_op :=
| SelectRateLimit (id : jsstring)
| UpdateRateLimit (id : jsstring) (row : rate_row)
| InsertRateLimit (id : jsstring) (row : rate_row)
| SelectPin (code : jsstring).

(** Handlers thread the store and log their queries. *)
Definition M (A : Type) : Type := store -> A * store * list db_op.
Definition ret {A} (a : A) : M A := fun st => (a, st, []).
Definition bind {A B} (m : M A) (k : A -> M B) : M B :=
  fun st =>
    let '(a, st1, t1) := m st in
    let '(b, st2, t2) := k a st1 in
    (b, st2, t1 ++ t2).

Notation "'perform' x <- m ; k" := (bind m (fun x => k))
  (at level 10, x name, m at level 100, k at level 200).
Notation "'run' m ; k" := (bind m (fun _ => k))
  (at level 10, m at level 100, k at level 200).

(** [.from('rate_limits').select(...).eq('id', id).maybeSingle()] *)
Definition select_rate_limit (id : jsstring) : M (option rate_row) :=
  fun st => (rate_limits st !! id, st, [SelectRateLimit id]).

(** [.from('rate_limits').update(row).eq('id', id)]: only an existing row
    changes. *)
Definition update_rate_limit (id : jsstring) (row : rate_row) : M unit :=
  fun st =>
    (tt,
     {| rate_limits :=
          match rate_limits st !! id with
          | Some _ => <[id := row]> (rate_limits st)
          | None => rate_limits st
          end;
        pins := pins st |},
     [UpdateRateLimit id row]).

(** [.from('rate_limits').insert(row)]: the primary key rejects a second row. *)
Definition insert_rate_limit (id : jsstring) (row : rate_row) : M unit :=
  fun st =>
    (tt,
     {| rate_limits :=
          match rate_limits st !! id with
          | Some _ => rate_limits st
          | None => <[id := row]> (rate_limits st)
          end;
        pins := pins st |},
     [InsertRateLimit id row]).

(** [.from('pins').select('code').eq('code', pin).limit(1)], then
    [!error && data && data.length > 0]. *)
Definition select_pin (pin : jsstring) : M bool :=
  fun st => (existsb (str_eqb pin) (pins st), st, [SelectPin pin]).

(** *** Coercions of the request body *)

Definition has_key (k : jsstring) (fields : list (jsstring * json)) : bool :=
  existsb (fun kv => str_eqb (fst kv) k) fields.

(** [JSON.parse] keeps the last of duplicate keys. *)
Definition get_field (k : jsstring) (fields : list (jsstring * json)) : option json :=
  match List.filter (fun kv => str_eqb (fst kv) k) fields with
  | [] => None
  | x :: r => Some (snd (List.last r x))
  end.

Definition join (sep : jsstring) (parts : list jsstring) : jsstring :=
  match parts with
  | [] => []
  | p :: ps => p ++ flat_map (fun q => sep ++ q) ps
  end.

(** [v.toString()] of a parsed value; [None] is a TypeError.  An array joins
    its elements with commas, [null] elements as the empty string; an object
    is ["[object Object]"] unless its own [toString] field, never a function,
    hides [Object.prototype.toString]. *)
Fixpoint toString (v : json) : option jsstring :=
  match v with
  | JNull => Some (js "null")
  | JBool true => Some (js "true")
  | JBool false => Some (js "false")
  | JNum r => Some r
  | JStr s => Some s
  | JArr l =>
      let fix elems (l : list json) : option (list jsstring) :=
        match l with
        | [] => Some []
        | e :: r =>
            match (match e with JNull => Some [] | _ => toString e end), elems r with
            | Some s, Some ss => Some (s :: ss)
            | _, _ => None
            end
        end in
      match elems l with
      | Some parts => Some (join (js ",") parts)
      | None => None
      end
  | JObj fields =>
      if has_key (js "toString") fields then None
      else Some (js "[object Object]")
  end.

(** [body.pin]: a TypeError on [null], [undefined] (inner [None]) on anything
    but an object with that field. *)
Definition body_pin (b : json) : option (option json) :=
  match b with
  | JNull => None
  | JObj fields => Some (get_field (js "pin") fields)
  | _ => Some None
  end.

(** [JSON.stringify({ valid })] and the 405 body; 34 is the double quote. *)
Definition valid_false : jsstring := js "{" ++ [34] ++ js "valid" ++ [34] ++ js ":false}".
Definition valid_true : jsstring := js "{" ++ [34] ++ js "valid" ++ [34] ++ js ":true}".
Definition method_not_allowed : jsstring :=
  js "{" ++ [34] ++ js "error" ++ [34] ++ js ":" ++ [34] ++ js "Method not allowed"
  ++ [34] ++ js "}".

Section Handler.

(** [String.prototype.toUpperCase]: the Unicode case mapping of the platform. *)
Variable toUpperCase : jsstring -> jsstring.

(** [(body.pin ?? '').toString().trim().toUpperCase()] *)
Definition pin_of_body (b : json) : option jsstring :=
  match body_pin b with
  | None => None
  | Some p =>
      match (match p with
             | None | Some JNull => Some []
             | Some v => toString v
             end) with
      | Some s => Some (toUpperCase (trim s))
      | None => None
      end
  end.

(** [req.headers.get('x-forwarded-for')?.split(',')[0].trim() ?? 'unknown'],
    then [`${ip}:verify-pin`]. *)
Definition client_ip (req : request) : jsstring :=
  match x_forwarded_for req with
  | Some h => trim (hd [] (split 44 h))
  | None => js "unknown"
  end.
Definition rlKey (req : request) : jsstring := client_ip req ++ js ":verify-pin".

Inductive decision := Allowed | Throttled.

(** The rate-limit block of the handler (lines 54-92): read the caller's
    row, then throttle, increment, reset or create. *)
Definition checkAndIncrement (key : jsstring) (now : Z) : M decision :=
  let windowStart := now - WINDOW_MS in
  perform existing <- select_rate_limit key;
  match existing with
  | Some e =>
      if window_start e >? windowStart then
        if count e >=? MAX_ATTEMPTS then ret Throttled
        else
          run update_rate_limit key
                    {| count := count e + 1; window_start := window_start e |};
          ret Allowed
      else
        run update_rate_limit key {| count := 1; window_start := now |};
        ret Allowed
  | None =>
      run insert_rate_limit key {| count := 1; window_start := now |};
      ret Allowed
  end.

(** The handler passed to [serve], at time [now]. *)
Definition handler (now : Z) (req : request) : M response :=
  if str_eqb (req_method req) (js "OPTIONS") then
    ret {| status := 200; body := js "ok" |}
  else if negb (str_eqb (req_method req) (js "POST")) then
    ret {| status := 405; body := method_not_allowed |}
  else
    match req_json req with
    | None => ret {| status := 400; body := valid_false |}
    | Some b =>
        match pin_of_body b with
        | None => ret {| status := 400; body := valid_false |}
        | Some pin =>
            match pin with
            | [] => ret {| status := 200; body := valid_false |}
            | _ :: _ =>
                perform d <- checkAndIncrement (rlKey req) now;
                match d with
                | Throttled => ret {| status := 429; body := valid_false |}
                | Allowed =>
                    perform valid <- select_pin pin;
                    ret {| status := 200;
                           body := if valid then valid_true else valid_false |}
                end
            end
        end
    end.

(** The pin the handler works with (line 37), when control reaches it. *)
Definition submitted_pin (req : request) : option jsstring :=
  if str_eqb (req_method req) (js "POST") then
    match req_json req with
    | Some b => pin_of_body b
    | None => None
    end
  else None.

(** Calls of the rate limiter for one key at the given times, in order. *)
Fixpoint calls (key : jsstring) (times : list Z) (st : store) : list decision * store :=
  match times with
  | [] => ([], st)
  | t :: ts =>
      let '(d, st1, _) := checkAndIncrement key t st in
      let '(ds, st2) := calls key ts st1 in
      (d :: ds, st2)
  end.

End Handler.

End VerifyPin.

Module VerifyPinFacts.
Import VerifyPin.

(** No window is open for [key] at time [t]: no row, or one that expired. *)
Definition no_open_window (st : store) (key : jsstring) (t : Z) : Prop :=
  match rate_limits st !! key with
  | None => True
  | Some r => window_start r + WINDOW_MS <= t
  end.

Definition row_of (st : store) (key : jsstring) : option rate_row :=
  rate_limits st !! key.

(** The first call of a window: the row becomes [(1, now)]. *)
Lemma first_call key now st :
  no_open_window st key now ->
  exists st' ops, checkAndIncrement key now st = (Allowed, st', ops)
    /\ row_of st' key = Some {| count := 1; window_start := now |}
    /\ pins st' = pins st.
Proof.
  unfold no_open_window, checkAndIncrement, bind, select_rate_limit, row_of.
  destruct (rate_limits st !! key) as [r|] eqn:Hrow; intros Hw.
  - replace (window_start r >? now - WINDOW_MS) with false
      by (rewrite Z.gtb_ltb; symmetry; apply Z.ltb_ge; lia).
    cbn. rewrite Hrow. do 2 eexists. split; [reflexivity|].
    cbn. rewrite lookup_insert_eq. auto.
  - cbn. rewrite Hrow. do 2 eexists. split; [reflexivity|].
    cbn. rewrite lookup_insert_eq. auto.
Qed.

(** A call inside the window below the maximum: the count goes up by one. *)
Lemma counted_call key now st r :
  row_of st key = Some r ->
  now < window_start r + WINDOW_MS -> count r < MAX_ATTEMPTS ->
  exists st' ops, checkAndIncrement key now st = (Allowed, st', ops)
    /\ row_of st' key = Some {| count := count r + 1; window_start := window_start r |}
    /\ pins st' = pins st.
Proof.
  unfold checkAndIncrement, bind, select_rate_limit, row_of. intros Hrow Hw Hc.
  rewrite Hrow.
  replace (window_start r >? now - WINDOW_MS) with true
    by (rewrite Z.gtb_ltb; symmetry; apply Z.ltb_lt; lia).
  replace (count r >=? MAX_ATTEMPTS) with false
    by (rewrite Z.geb_leb; symmetry; apply Z.leb_gt; lia).
  cbn. rewrite Hrow. do 2 eexists. split; [reflexivity|].
  cbn. rewrite lookup_insert_eq. auto.
Qed.

(** A call inside the window at the maximum: throttled, nothing written. *)
Lemma throttled_call key now st r :
  row_of st key = Some r ->
  window_start r > now - WINDOW_MS -> count r >= MAX_ATTEMPTS ->
  checkAndIncrement key now st = (Throttled, st, [SelectRateLimit key]).
Proof.
  unfold checkAndIncrement, bind, select_rate_limit, row_of. intros Hrow Hw Hc.
  rewrite Hrow.
  replace (window_start r >? now - WINDOW_MS) with true
    by (rewrite Z.gtb_ltb; symmetry; apply Z.ltb_lt; lia).
  replace (count r >=? MAX_ATTEMPTS) with true
    by (rewrite Z.geb_leb; symmetry; apply Z.leb_le; lia).
  reflexivity.
Qed.

(** Calls that stay inside the window and below the maximum are all allowed
    and counted. *)
Lemma counted_calls key (ts : list Z) :
  forall st c w,
    row_of st key = Some {| count := c; window_start := w |} ->
    Forall (fun t => t < w + WINDOW_MS) ts ->
    c + Z.of_nat (length ts) <= MAX_ATTEMPTS ->
    exists st', calls key ts st = (repeat Allowed (length ts), st')
      /\ row_of st' key =
           Some {| count := c + Z.of_nat (length ts); window_start := w |}
      /\ pins st' = pins st.
Proof.
  induction ts as [|t ts IH]; intros st c w Hrow Hin Hc.
  - exists st. cbn. rewrite Z.add_0_r. auto.
  - inversion Hin as [|? ? Ht Hts]; subst.
    cbn [length] in Hc. rewrite Nat2Z.inj_succ in Hc.
    destruct (counted_call key t st _ Hrow) as (st1 & ops1 & Hcall & Hrow1 & Hp1);
      cbn [count window_start]; [assumption|lia|].
    cbn [count window_start] in Hrow1.
    destruct (IH st1 (c + 1) w Hrow1 Hts) as (st2 & Hcalls & Hrow2 & Hp2); [lia|].
    exists st2. cbn [calls]. rewrite Hcall, Hcalls. cbn [length repeat].
    split; [reflexivity|]. split; [|congruence].
    rewrite Hrow2. do 2 f_equal. lia.
Qed.

End VerifyPinFacts.

(** C6 (rate limiter boundary). With at most 10 attempts per 5-minute
    window: starting where no window is open for the key, a call at [t1] and
    up to nine more inside [t1]'s window are all allowed and leave the count
    at the number of calls, with [window_start = t1]; after ten, a further
    call inside the window is throttled and writes nothing; and a call at or
    after [t1 + 5 min] is allowed and leaves count 1 with the call's own time
    as [window_start]. *)
Theorem rate_limiter_boundary (key : jsstring) (st : VerifyPin.store)
    (t1 : Z) (ts : list Z) :
  VerifyPinFacts.no_open_window st key t1 ->
  (length ts <= 9)%nat ->
  Forall (fun t => t < t1 + VerifyPin.WINDOW_MS) ts ->
  exists st',
    VerifyPin.calls key (t1 :: ts) st = (repeat VerifyPin.Allowed (S (length ts)), st')
    /\ VerifyPinFacts.row_of st' key =
         Some {| VerifyPin.count := Z.of_nat (S (length ts));
                 VerifyPin.window_start := t1 |}
    /\ (length ts = 9%nat ->
        (forall t11, t11 < t1 + VerifyPin.WINDOW_MS ->
           VerifyPin.checkAndIncrement key t11 st'
           = (VerifyPin.Throttled, st', [VerifyPin.SelectRateLimit key]))
        /\ (forall t, t1 + VerifyPin.WINDOW_MS <= t ->
              exists st'' ops,
                VerifyPin.checkAndIncrement key t st' = (VerifyPin.Allowed, st'', ops)
                /\ VerifyPinFacts.row_of st'' key =
                     Some {| VerifyPin.count := 1; VerifyPin.window_start := t |})).
Proof.
  intros Hopen Hlen Hin.
  destruct (VerifyPinFacts.first_call key t1 st Hopen) as (st1 & ops1 & Hcall & Hrow1 & _).
  destruct (VerifyPinFacts.counted_calls key ts st1 1 t1 Hrow1 Hin)
    as (st2 & Hcalls & Hrow2 & _).
  { unfold VerifyPin.MAX_ATTEMPTS. lia. }
  exists st2. split; [|split].
  - cbn [VerifyPin.calls]. rewrite Hcall, Hcalls. reflexivity.
  - rewrite Hrow2. do 2 f_equal. lia.
  - intros H9. split.
    + intros t11 Ht11.
      apply (VerifyPinFacts.throttled_call key t11 st2 _ Hrow2);
        cbn [VerifyPin.count VerifyPin.window_start];
        unfold VerifyPin.MAX_ATTEMPTS; lia.
    + intros t Ht.
      destruct (VerifyPinFacts.first_call key t st2) as (st3 & ops3 & Hc3 & Hrow3 & _).
      { unfold VerifyPinFacts.no_open_window.
        unfold VerifyPinFacts.row_of in Hrow2. rewrite Hrow2.
        cbn [VerifyPin.window_start]. lia. }
      eauto.
Qed.

(** A caller, an empty store and ten call times inside one window. *)
Definition caller_key : jsstring := js "203.0.113.7:verify-pin".
Definition empty_store : VerifyPin.store :=
  {| VerifyPin.rate_limits := ∅; VerifyPin.pins := [] |}.

Lemma rate_limiter_boundary_witness :
  exists st',
    VerifyPin.calls caller_key [0; 1000; 2000; 3000; 4000; 5000; 6000; 7000; 8000; 299999]
      empty_store = (repeat VerifyPin.Allowed 10, st')
    /\ VerifyPinFacts.row_of st' caller_key =
         Some {| VerifyPin.count := 10; VerifyPin.window_start := 0 |}
    /\ (length [1000; 2000; 3000; 4000; 5000; 6000; 7000; 8000; 299999] = 9%nat ->
        (forall t11, t11 < 0 + VerifyPin.WINDOW_MS ->
           VerifyPin.checkAndIncrement caller_key t11 st'
           = (VerifyPin.Throttled, st', [VerifyPin.SelectRateLimit caller_key]))
        /\ (forall t, 0 + VerifyPin.WINDOW_MS <= t ->
              exists st'' ops,
                VerifyPin.checkAndIncrement caller_key t st' = (VerifyPin.Allowed, st'', ops)
                /\ VerifyPinFacts.row_of st'' caller_key =
                     Some {| VerifyPin.count := 1; VerifyPin.window_start := t |})).
Proof.
  apply (rate_limiter_boundary caller_key empty_store 0
           [1000; 2000; 3000; 4000; 5000; 6000; 7000; 8000; 299999]).
  - exact I.
  - simpl. lia.
  - repeat constructor.
Defined.

(** C10 (empty-PIN short circuit). A request whose submitted pin, after
    string coercion, trimming and upper-casing, is the empty string is
    answered 200 [{"valid":false}] before the rate limiter runs: the store is
    unchanged and no query is sent, neither to rate_limits nor to pins. *)
Theorem empty_pin_short_circuit (toUpperCase : jsstring -> jsstring)
    (now : Z) (req : VerifyPin.request) (st : VerifyPin.store) :
  VerifyPin.submitted_pin toUpperCase req = Some [] ->
  VerifyPin.handler toUpperCase now req st
  = ({| VerifyPin.status := 200; VerifyPin.body := VerifyPin.valid_false |}, st, []).
Proof.
  unfold VerifyPin.submitted_pin, VerifyPin.handler.
  destruct (str_eqb (VerifyPin.req_method req) (js "POST")) eqn:Hpost; [|discriminate].
  apply JSFacts.str_eqb_eq in Hpost. rewrite Hpost.
  change (str_eqb (js "POST") (js "OPTIONS")) with false.
  change (str_eqb (js "POST") (js "POST")) with true. cbn [negb].
  destruct (VerifyPin.req_json req) as [b|]; [|discriminate].
  intros ->. reflexivity.
Qed.

(** A POST of [{"pin": "  "}] with no forwarding header. *)
Definition blank_pin_request : VerifyPin.request :=
  {| VerifyPin.req_method := js "POST";
     VerifyPin.x_forwarded_for := None;
     VerifyPin.req_json :=
       Some (VerifyPin.JObj [(js "pin", VerifyPin.JStr (js "  "))]) |}.

Lemma empty_pin_short_circuit_witness :
  VerifyPin.submitted_pin toUpperCase_ascii blank_pin_request = Some []
  /\ VerifyPin.handler toUpperCase_ascii 1000 blank_pin_request empty_store
     = ({| VerifyPin.status := 200; VerifyPin.body := VerifyPin.valid_false |},
        empty_store, []).
Proof.
  split; [reflexivity|].
  apply (empty_pin_short_circuit toUpperCase_ascii 1000 blank_pin_request empty_store).
  reflexivity.
Defined.

(** C9, as amended (throttled responses are independent of PIN validity).
    For every request whose submitted pin is not empty and whose key has an
    open window (window_start within the last 5 minutes) with the count at
    or above the maximum, the handler answers 429 [{"valid":false}]; its only
    query is the read of the rate_limits row, so the pins table is not
    queried and no row changes, whatever the pin. *)
Theorem throttled_independent_of_pin (toUpperCase : jsstring -> jsstring)
    (now : Z) (req : VerifyPin.request) (st : VerifyPin.store)
    (pin : jsstring) (row : VerifyPin.rate_row) :
  VerifyPin.submitted_pin toUpperCase req = Some pin ->
  pin <> [] ->
  VerifyPin.rate_limits st !! VerifyPin.rlKey req = Some row ->
  VerifyPin.window_start row > now - VerifyPin.WINDOW_MS ->
  VerifyPin.count row >= VerifyPin.MAX_ATTEMPTS ->
  VerifyPin.handler toUpperCase now req st
  = ({| VerifyPin.status := 429; VerifyPin.body := VerifyPin.valid_false |},
     st, [VerifyPin.SelectRateLimit (VerifyPin.rlKey req)]).
Proof.
  unfold VerifyPin.submitted_pin, VerifyPin.handler.
  destruct (str_eqb (VerifyPin.req_method req) (js "POST")) eqn:Hpost; [|discriminate].
  apply JSFacts.str_eqb_eq in Hpost. rewrite Hpost.
  change (str_eqb (js "POST") (js "OPTIONS")) with false.
  change (str_eqb (js "POST") (js "POST")) with true. cbn [negb].
  destruct (VerifyPin.req_json req) as [b|]; [|discriminate].
  intros -> Hne Hrow Hw Hc.
  destruct pin as [|u pin]; [congruence|].
  unfold VerifyPin.bind.
  rewrite (VerifyPinFacts.throttled_call _ now st row Hrow Hw Hc).
  reflexivity.
Qed.

(** A throttled caller: ten attempts counted in a window opened at time 0. *)
Definition throttled_store : VerifyPin.store :=
  {| VerifyPin.rate_limits :=
       {[ js "unknown:verify-pin" :=
            {| VerifyPin.count := 10; VerifyPin.window_start := 0 |} ]};
     VerifyPin.pins := [js "Z141Z3"] |}.

(** A POST of [{"pin": "z141z3"}] with no forwarding header. *)
Definition good_pin_request : VerifyPin.request :=
  {| VerifyPin.req_method := js "POST";
     VerifyPin.x_forwarded_for := None;
     VerifyPin.req_json :=
       Some (VerifyPin.JObj [(js "pin", VerifyPin.JStr (js "z141z3"))]) |}.

Lemma throttled_independent_of_pin_witness :
  VerifyPin.submitted_pin toUpperCase_ascii good_pin_request = Some (js "Z141Z3")
  /\ VerifyPin.handler toUpperCase_ascii 1000 good_pin_request throttled_store
     = ({| VerifyPin.status := 429; VerifyPin.body := VerifyPin.valid_false |},
        throttled_store,
        [VerifyPin.SelectRateLimit (VerifyPin.rlKey good_pin_request)]).
Proof.
  split; [reflexivity|].
  apply (throttled_independent_of_pin toUpperCase_ascii 1000 good_pin_request
           throttled_store (js "Z141Z3")
           {| VerifyPin.count := 10; VerifyPin.window_start := 0 |}).
  - reflexivity.
  - discriminate.
  - vm_compute. reflexivity.
  - vm_compute. reflexivity.
  - vm_compute. discriminate.
Defined.

(** C9 as stated fails on the empty-pin guard: the caller of [throttled_store]
    has an open window with the count at the maximum, and a POST of
    [{"pin": "  "}] is still answered 200, not 429, with no query at all. *)
Lemma throttled_blank_pin_gets_200 :
  VerifyPin.rate_limits throttled_store !! VerifyPin.rlKey blank_pin_request
    = Some {| VerifyPin.count := 10; VerifyPin.window_start := 0 |}
  /\ 0 > 1000 - VerifyPin.WINDOW_MS
  /\ 10 >= VerifyPin.MAX_ATTEMPTS
  /\ VerifyPin.handler toUpperCase_ascii 1000 blank_pin_request throttled_store
     = ({| VerifyPin.status := 200; VerifyPin.body := VerifyPin.valid_false |},
        throttled_store, []).
Proof.
  split; [vm_compute; reflexivity|].
  split; [vm_compute; reflexivity|].
  split; [vm_compute; discriminate|].
  reflexivity.
Qed.

(** ** Bytes and text: TextEncoder, TextDecoder, hexadecimal *)

Module Bytes.

Definition bytes := list Z.

(** A [Uint8Array] element. *)
Definition is_byte (b : Z) : Prop := 0 <= b < 256.

Fixpoint bytes_eqb (a b : bytes) : bool :=
  match a, b with
  | [], [] => true
  | x :: a', y :: b' => (x =? y) && bytes_eqb a' b'
  | _, _ => false
  end.

(** Bytewise exclusive or, to the length of the first argument's overlap. *)
Fixpoint xor_bytes (a b : bytes) : bytes :=
  match a, b with
  | x :: a', y :: b' => Z.lxor x y :: xor_bytes a' b'
  | _, _ => []
  end.

(** Big-endian integers of [n] bytes. *)
Definition int_of_bytes (l : bytes) : Z := fold_left (fun acc b => acc * 256 + b) l 0.
Fixpoint bytes_of_int (n : nat) (z : Z) : bytes :=
  match n with
  | O => []
  | S n' => bytes_of_int n' (z / 256) ++ [z mod 256]
  end.

End Bytes.
Export Bytes.

Module Utf8.

Definition isHighSurrogate (u : Z) : bool := (55296 <=? u) && (u <=? 56319).
Definition isLowSurrogate (u : Z) : bool := (56320 <=? u) && (u <=? 57343).

(** The UTF-8 bytes of a scalar value; masks and shifts are written as the
    remainders and quotients they compute. *)
Definition utf8_bytes (cp : Z) : bytes :=
  if cp <? 128 then [cp]
  else if cp <? 2048 then [192 + cp / 64; 128 + cp mod 64]
  else if cp <? 65536 then
    [224 + cp / 4096; 128 + (cp / 64) mod 64; 128 + cp mod 64]
  else
    [240 + cp / 262144; 128 + (cp / 4096) mod 64; 128 + (cp / 64) mod 64;
     128 + cp mod 64].

Definition surrogate_pair (hi lo : Z) : Z := 65536 + (hi - 55296) * 1024 + (lo - 56320).

(** [new TextEncoder().encode(s)]: a surrogate pair is one scalar value, a
    lone surrogate becomes U+FFFD. *)
Fixpoint encode (s : jsstring) : bytes :=
  match s with
  | [] => []
  | u :: r =>
      if isHighSurrogate u then
        match r with
        | l :: r' =>
            if isLowSurrogate l then utf8_bytes (surrogate_pair u l) ++ encode r'
            else utf8_bytes 65533 ++ encode r
        | [] => utf8_bytes 65533
        end
      else if isLowSurrogate u then utf8_bytes 65533 ++ encode r
      else utf8_bytes u ++ encode r
  end.

(** The state of the UTF-8 decoder of the Encoding standard: the code point
    under construction, the continuation bytes still needed, and the bounds
    on the next byte. *)
Record dstate := { d_cp : Z; d_needed : Z; d_lower : Z; d_upper : Z }.
Definition d_init : dstate := {| d_cp := 0; d_needed := 0; d_lower := 128; d_upper := 191 |}.
Definition d_lead (cp needed lower upper : Z) : dstate :=
  {| d_cp := cp; d_needed := needed; d_lower := lower; d_upper := upper |}.

(** A byte read with no sequence open. *)
Definition d_start (b : Z) : list Z * dstate :=
  if b <=? 127 then ([b], d_init)
  else if (194 <=? b) && (b <=? 223) then ([], d_lead (b mod 32) 1 128 191)
  else if (224 <=? b) && (b <=? 239) then
    ([], d_lead (b mod 16) 2 (if b =? 224 then 160 else 128) (if b =? 237 then 159 else 191))
  else if (240 <=? b) && (b <=? 244) then
    ([], d_lead (b mod 8) 3 (if b =? 240 then 144 else 128) (if b =? 244 then 143 else 191))
  else ([65533], d_init).

(** One byte: the code points emitted and the next state.  A byte that cannot
    continue the open sequence ends it with U+FFFD and is read again. *)
Definition d_step (st : dstate) (b : Z) : list Z * dstate :=
  if d_needed st =? 0 then d_start b
  else if (b <? d_lower st) || (d_upper st <? b) then
    let '(out, st') := d_start b in (65533 :: out, st')
  else
    let cp := d_cp st * 64 + b mod 64 in
    if d_needed st =? 1 then ([cp], d_init)
    else ([], d_lead cp (d_needed st - 1) 128 191).

Fixpoint decode_from (st : dstate) (bs : bytes) : list Z :=
  match bs with
  | [] => if d_needed st =? 0 then [] else [65533]
  | b :: r => let '(out, st') := d_step st b in out ++ decode_from st' r
  end.

Definition units_of_cp (cp : Z) : jsstring :=
  if cp <? 65536 then [cp]
  else [55296 + (cp - 65536) / 1024; 56320 + (cp - 65536) mod 1024].

(** UTF-8 decode without BOM, as URLSearchParams decodes names and values. *)
Definition decode_no_bom (bs : bytes) : jsstring :=
  flat_map units_of_cp (decode_from d_init bs).

(** [new TextDecoder().decode(bs)]: replacement on errors, and a leading
    byte order mark is dropped. *)
Definition strip_bom (bs : bytes) : bytes :=
  match bs with
  | b1 :: b2 :: b3 :: r =>
      if (b1 =? 239) && (b2 =? 187) && (b3 =? 191) then r else bs
  | _ => bs
  end.
Definition decode (bs : bytes) : jsstring := decode_no_bom (strip_bom bs).

(** The bytes fed to the decoder one by one: what it emits and where it
    stands. *)
Fixpoint feed (st : dstate) (bs : bytes) : list Z * dstate :=
  match bs with
  | [] => ([], st)
  | b :: r =>
      let '(out, st1) := d_step st b in
      let '(out', st2) := feed st1 r in
      (out ++ out', st2)
  end.

(** Well-formed UTF-16: code units in range, every surrogate paired. *)
Fixpoint well_formed (s : jsstring) : Prop :=
  match s with
  | [] => True
  | u :: r =>
      0 <= u < 65536 /\
      if isHighSurrogate u then
        match r with
        | l :: r' => isLowSurrogate l = true /\ well_formed r'
        | [] => False
        end
      else isLowSurrogate u = false /\ well_formed r
  end.

End Utf8.

Module Hex.

(** [x.toString(16).padStart(2, '0')] for each byte, joined. *)
Definition toHex_byte (x : Z) : jsstring := padStart 2 48 (Number_toString 16 x).
Definition toHex (b : bytes) : jsstring := flat_map toHex_byte b.

(** [h.match(/.{2}/g)]: the successive pairs of units that are not line
    terminators, scanning from the left; [None] stands for [null]. *)
Fixpoint match_pairs (s : jsstring) : list jsstring :=
  match s with
  | a :: ((b :: r) as tl) =>
      if isLineTerminator a || isLineTerminator b then match_pairs tl
      else [a; b] :: match_pairs r
  | _ => []
  end.
Definition match_2g (s : jsstring) : option (list jsstring) :=
  match match_pairs s with
  | [] => None
  | l => Some l
  end.

Definition hexval (u : Z) : option Z :=
  if (48 <=? u) && (u <=? 57) then Some (u - 48)
  else if (97 <=? u) && (u <=? 102) then Some (u - 87)
  else if (65 <=? u) && (u <=? 70) then Some (u - 55)
  else None.

Fixpoint parse_digits (acc : Z) (s : jsstring) : Z :=
  match s with
  | u :: r =>
      match hexval u with
      | Some d => parse_digits (16 * acc + d) r
      | None => acc
      end
  | [] => acc
  end.

(** [parseInt(s, 16)]; [None] is NaN.  Leading white space is skipped, a sign
    and a [0x] prefix are accepted, and the digits stop at the first unit
    that is not one.  (Exact below 2^53, so on every two-unit string.) *)
Definition parseInt16 (s : jsstring) : option Z :=
  let s1 := trimStart s in
  let '(sign, s2) :=
    match s1 with
    | 45 :: r => (-1, r)
    | 43 :: r => (1, r)
    | _ => (1, s1)
    end in
  let s3 :=
    match s2 with
    | 48 :: x :: r => if (x =? 120) || (x =? 88) then r else s2
    | _ => s2
    end in
  match s3 with
  | u :: _ =>
      match hexval u with
      | Some _ => Some (sign * parse_digits 0 s3)
      | None => None
      end
  | [] => None
  end.

(** Storing a number in a [Uint8Array]: NaN is 0, integers wrap. *)
Definition toUint8 (v : option Z) : Z :=
  match v with
  | Some n => n mod 256
  | None => 0
  end.

(** [new Uint8Array(h.match(/.{2}/g)!.map(b => parseInt(b, 16)))]; [None]
    when [match] returns [null] and [.map] throws. *)
Definition fromHex (h : jsstring) : option bytes :=
  match match_2g h with
  | Some pairs => Some (map (fun p => toUint8 (parseInt16 p)) pairs)
  | None => None
  end.

End Hex.

(** ** AES (FIPS 197) and AES-GCM (NIST SP 800-38D)
    What [crypto.subtle.encrypt] and [decrypt] compute for
    [{ name: 'AES-GCM', iv }]: no additional data, a 128-bit tag. *)

Module AES.

(** Multiplication by x, and the product, in GF(2^8) modulo x^8+x^4+x^3+x+1. *)
Definition xtime (a : Z) : Z :=
  let d := 2 * a in if d <? 256 then d else Z.lxor (d - 256) 27.

Fixpoint gf_mul_loop (n : nat) (a b acc : Z) : Z :=
  match n with
  | O => acc
  | S n' =>
      gf_mul_loop n' (xtime a) (b / 2) (if Z.odd b then Z.lxor acc a else acc)
  end.
Definition gf_mul (a b : Z) : Z := gf_mul_loop 8 a b 0.

(** The inverse is the 254th power. *)
Definition gf_inv (a : Z) : Z :=
  let a2 := gf_mul a a in
  let a4 := gf_mul a2 a2 in
  let a8 := gf_mul a4 a4 in
  let a16 := gf_mul a8 a8 in
  let a32 := gf_mul a16 a16 in
  let a64 := gf_mul a32 a32 in
  let a128 := gf_mul a64 a64 in
  gf_mul a128 (gf_mul a64 (gf_mul a32 (gf_mul a16 (gf_mul a8 (gf_mul a4 a2))))).

Definition rotl8 (b k : Z) : Z := (b * 2 ^ k) mod 256 + (b * 2 ^ k) / 256.

Definition sbox_of (a : Z) : Z :=
  let b := gf_inv a in
  Z.lxor b (Z.lxor (rotl8 b 1) (Z.lxor (rotl8 b 2)
    (Z.lxor (rotl8 b 3) (Z.lxor (rotl8 b 4) 99)))).

Definition sbox_table : list Z :=
  Eval vm_compute in map (fun i => sbox_of (Z.of_nat i)) (seq 0 256).
Definition sbox (a : Z) : Z := nth (Z.to_nat a) sbox_table 0.

Definition sub_bytes (s : bytes) : bytes := map sbox s.

Definition shift_rows (s : bytes) : bytes :=
  map (fun i => nth i s 0)
      [0; 5; 10; 15; 4; 9; 14; 3; 8; 13; 2; 7; 12; 1; 6; 11]%nat.

Definition mix_column (c : bytes) : bytes :=
  match c with
  | [a0; a1; a2; a3] =>
      [Z.lxor (gf_mul 2 a0) (Z.lxor (gf_mul 3 a1) (Z.lxor a2 a3));
       Z.lxor a0 (Z.lxor (gf_mul 2 a1) (Z.lxor (gf_mul 3 a2) a3));
       Z.lxor a0 (Z.lxor a1 (Z.lxor (gf_mul 2 a2) (gf_mul 3 a3)));
       Z.lxor (gf_mul 3 a0) (Z.lxor a1 (Z.lxor a2 (gf_mul 2 a3)))]
  | _ => c
  end.

Fixpoint chunks4 (n : nat) (s : bytes) : list bytes :=
  match n with
  | O => []
  | S n' => firstn 4 s :: chunks4 n' (skipn 4 s)
  end.

Definition mix_columns (s : bytes) : bytes := flat_map mix_column (chunks4 4 s).

(** Key expansion: the words [w[Nk]], ..., kept newest first. *)
Fixpoint expand (fuel : nat) (Nk : Z) (i : Z) (rcon : Z) (ws : list bytes) : list bytes :=
  match fuel with
  | O => rev ws
  | S f =>
      let prev := hd [] ws in
      let back := nth (Z.to_nat (Nk - 1)) ws [] in
      let '(temp, rcon') :=
        if i mod Nk =? 0 then
          (xor_bytes (map sbox (skipn 1 prev ++ firstn 1 prev)) [rcon; 0; 0; 0],
           xtime rcon)
        else if (6 <? Nk) && (i mod Nk =? 4) then (map sbox prev, rcon)
        else (prev, rcon) in
      expand f Nk (i + 1) rcon' (xor_bytes back temp :: ws)
  end.

Definition key_expansion (key : bytes) : list bytes :=
  let Nk := Z.of_nat (length key) / 4 in
  let total := 4 * (Nk + 7) in
  expand (Z.to_nat (total - Nk)) Nk Nk 1 (rev (chunks4 (Z.to_nat Nk) key)).

Fixpoint round_keys (n : nat) (w : list bytes) : list bytes :=
  match n with
  | O => []
  | S n' => concat (firstn 4 w) :: round_keys n' (skipn 4 w)
  end.

Fixpoint rounds (s : bytes) (ks : list bytes) : bytes :=
  match ks with
  | [] => s
  | [k] => xor_bytes (shift_rows (sub_bytes s)) k
  | k :: ks' => rounds (xor_bytes (mix_columns (shift_rows (sub_bytes s))) k) ks'
  end.

(** The cipher of FIPS 197 on one 16-byte block, for a 16-, 24- or 32-byte
    key. *)
Definition encrypt_block (key : bytes) (block : bytes) : bytes :=
  let Nk := Z.of_nat (length key) / 4 in
  match round_keys (Z.to_nat (Nk + 7)) (key_expansion key) with
  | k0 :: ks => rounds (xor_bytes block k0) ks
  | [] => block
  end.

End AES.

Module GCM.

(** Blocks are 128-bit integers, the first bit the most significant. *)
Definition R : Z := 225 * 2 ^ 120.

Fixpoint gf128_loop (n : nat) (x v z : Z) : Z :=
  match n with
  | O => z
  | S n' =>
      gf128_loop n' x
        (if Z.odd v then Z.lxor (v / 2) R else v / 2)
        (if Z.testbit x (Z.of_nat n') then Z.lxor z v else z)
  end.
Definition gf128_mul (x y : Z) : Z := gf128_loop 128 x y 0.

(** The bytes as 16-byte blocks, the last one padded with zeros. *)
Fixpoint blocks_of (fuel : nat) (bs : bytes) : list Z :=
  match fuel with
  | O => []
  | S f =>
      match bs with
      | [] => []
      | _ => int_of_bytes (firstn 16 (bs ++ repeat 0 15)) :: blocks_of f (skipn 16 bs)
      end
  end.
Definition blocks (bs : bytes) : list Z := blocks_of (length bs) bs.

Definition ghash (h : Z) (xs : list Z) : Z :=
  fold_left (fun y x => gf128_mul (Z.lxor y x) h) xs 0.

Definition inc32 (cb : Z) : Z := (cb / 2 ^ 32) * 2 ^ 32 + (cb + 1) mod 2 ^ 32.

Section Cipher.

(** The block cipher under the key, on 128-bit integers. *)
Variable E : Z -> Z.

Fixpoint keystream_blocks (n : nat) (cb : Z) : bytes :=
  match n with
  | O => []
  | S n' => bytes_of_int 16 (E cb) ++ keystream_blocks n' (inc32 cb)
  end.

(** GCTR: the data xored with the encrypted counter blocks. *)
Definition gctr (icb : Z) (x : bytes) : bytes :=
  xor_bytes x (keystream_blocks (Nat.div (length x + 15) 16) icb).

Definition hash_subkey : Z := E 0.

(** The pre-counter block: a 96-bit IV is followed by the counter 1, any
    other is hashed. *)
Definition j0 (iv : bytes) : Z :=
  if Nat.eqb (length iv) 12 then int_of_bytes iv * 2 ^ 32 + 1
  else ghash hash_subkey (blocks iv ++ [8 * Z.of_nat (length iv)]).

Definition tag (iv c : bytes) : bytes :=
  let s := ghash hash_subkey (blocks c ++ [8 * Z.of_nat (length c)]) in
  gctr (j0 iv) (bytes_of_int 16 s).

(** Ciphertext followed by the 16-byte tag. *)
Definition encrypt (iv p : bytes) : bytes :=
  let c := gctr (inc32 (j0 iv)) p in
  c ++ tag iv c.

(** [None] is the OperationError of a short input or a tag that does not
    verify. *)
Definition decrypt (iv ct : bytes) : option bytes :=
  if Nat.ltb (length ct) 16 then None
  else
    let n := (length ct - 16)%nat in
    let c := firstn n ct in
    let t := skipn n ct in
    if bytes_eqb (tag iv c) t then Some (gctr (inc32 (j0 iv)) c) else None.

End Cipher.

(** AES as the block cipher. *)
Definition aes (key : bytes) (x : Z) : Z :=
  int_of_bytes (AES.encrypt_block key (bytes_of_int 16 x)).

End GCM.

(** ** The envelope codec
    [getAesKey], [encrypt] and [decrypt] of handle-inbound-sms and admin-data,
    and [decryptField] of broadcast-sms: the same code in the three files. *)

Module Envelope.

Section Codec.

(** The ENCRYPTION_KEY variable of the process. *)
Variable ENCRYPTION_KEY : jsstring.

(** [getAesKey]: the key bytes, or [None] when it throws ([match] returns
    [null], or [importKey] refuses a key that is not 128, 192 or 256 bits). *)
Definition getAesKey : option bytes :=
  match Hex.fromHex ENCRYPTION_KEY with
  | Some key =>
      if existsb (Nat.eqb (length key)) [16; 24; 32]%nat then Some key else None
  | None => None
  end.

(** [encrypt(plaintext)], with the 12 bytes that [crypto.getRandomValues]
    drew as [iv]; [None] when [getAesKey] throws. *)
Definition encrypt (iv : bytes) (plaintext : jsstring) : option jsstring :=
  match getAesKey with
  | Some key =>
      let ct := GCM.encrypt (GCM.aes key) iv (Utf8.encode plaintext) in
      Some (Hex.toHex iv ++ [58] ++ Hex.toHex ct)
  | None => None
  end.

(** The nonces [crypto.subtle.decrypt] of the runtime takes for AES-GCM: 12
    or 16 bytes; it throws on any other length. *)
Definition supported_nonce (iv : bytes) : bool :=
  existsb (Nat.eqb (length iv)) [12; 16]%nat.

(** The body of the [try] block of [decrypt]; [None] when anything in it
    throws: the key is refused, a part has no pair to read, the nonce has a
    length the runtime does not take, fewer than 16 bytes are left for the
    tag, or the tag does not verify. *)
Definition try_decrypt (stored : jsstring) : option jsstring :=
  match split 58 stored with
  | ivHex :: ctHex :: _ =>
      match getAesKey, Hex.fromHex ivHex, Hex.fromHex ctHex with
      | Some key, Some iv, Some ct =>
          if supported_nonce iv then
            match GCM.decrypt (GCM.aes key) iv ct with
            | Some pt => Some (Utf8.decode pt)
            | None => None
            end
          else None
      | _, _, _ => None
      end
  | _ => None
  end.

(** [decrypt(stored)]: a value without [':'] is a legacy plaintext record,
    and whatever the [try] block throws is answered with the stored value. *)
Definition decrypt (stored : jsstring) : jsstring :=
  if negb (includes 58 stored) then stored
  else
    match try_decrypt stored with
    | Some plaintext => plaintext
    | None => stored
    end.

End Codec.

(** [decryptField] of broadcast-sms. *)
Definition decryptField := decrypt.

End Envelope.

(** ** Facts about the platform functions *)

Module Range.

(** [P] on every integer of [0, n), by iteration. *)
Definition all_below (n : positive) (P : Z -> bool) : bool :=
  snd (Pos.iter (fun st => (fst st + 1, snd st && P (fst st))) (0, true) n).

Lemma all_below_iter (P : Z -> bool) (n : positive) :
  let st := Pos.iter (fun st => (fst st + 1, snd st && P (fst st))) (0, true) n in
  fst st = Z.pos n /\
  (snd st = true -> forall x, 0 <= x < Z.pos n -> P x = true).
Proof.
  induction n as [|n IH] using Pos.peano_ind; cbn zeta in *.
  - cbn. split; [reflexivity|]. intros H x Hx. assert (x = 0) as -> by lia.
    destruct (P 0); [reflexivity|discriminate].
  - rewrite Pos.iter_succ. destruct IH as [Hfst Hsnd].
    destruct (Pos.iter _ (0, true) n) as [i b]. cbn [fst snd] in *. subst i.
    split; [lia|]. intros H x Hx. apply andb_prop in H as [Hb HP].
    destruct (Z.eq_dec x (Z.pos n)) as [->|Hne]; [assumption|].
    apply Hsnd; [assumption|lia].
Qed.

Lemma all_below_spec (P : Z -> bool) (n : positive) :
  all_below n P = true -> forall x, 0 <= x < Z.pos n -> P x = true.
Proof. intros H. apply (all_below_iter P n). exact H. Qed.

End Range.

Module BytesFacts.

Lemma bytes_eqb_eq (a b : bytes) : bytes_eqb a b = true <-> a = b.
Proof.
  revert b. induction a as [|x a IH]; intros [|y b]; simpl; split;
    try congruence; try reflexivity.
  - intros H. apply andb_prop in H as [Hx Hab].
    apply Z.eqb_eq in Hx. apply IH in Hab. congruence.
  - intros [= -> ->]. rewrite Z.eqb_refl. simpl. apply IH. reflexivity.
Qed.

Lemma bytes_eqb_refl (a : bytes) : bytes_eqb a a = true.
Proof. apply bytes_eqb_eq. reflexivity. Qed.

Lemma lxor_byte a b : is_byte a -> is_byte b -> is_byte (Z.lxor a b).
Proof.
  unfold is_byte. intros Ha Hb. split; [apply Z.lxor_nonneg; lia|].
  destruct (Z.eq_dec (Z.lxor a b) 0) as [->|Hnz]; [lia|].
  assert (Hpos : 0 < Z.lxor a b).
  { assert (0 <= Z.lxor a b) by (apply Z.lxor_nonneg; lia). lia. }
  change 256 with (2 ^ 8). apply Z.log2_lt_pow2; [assumption|].
  eapply Z.le_lt_trans; [apply Z.log2_lxor; lia|].
  apply Z.max_lub_lt.
  - destruct (Z.eq_dec a 0) as [->|]; [simpl; lia|].
    apply Z.log2_lt_pow2; [lia|]. change (2 ^ 8) with 256. lia.
  - destruct (Z.eq_dec b 0) as [->|]; [simpl; lia|].
    apply Z.log2_lt_pow2; [lia|]. change (2 ^ 8) with 256. lia.
Qed.

Lemma xor_bytes_length (x k : bytes) :
  length (xor_bytes x k) = Nat.min (length x) (length k).
Proof.
  revert k. induction x as [|a x IH]; intros [|b k]; simpl; auto.
Qed.

Lemma xor_bytes_involutive (x k : bytes) :
  (length x <= length k)%nat -> xor_bytes (xor_bytes x k) k = x.
Proof.
  revert k. induction x as [|a x IH]; intros [|b k] Hlen; simpl in *;
    try reflexivity; try lia.
  rewrite IH by lia. f_equal.
  rewrite Z.lxor_assoc, Z.lxor_nilpotent, Z.lxor_0_r. reflexivity.
Qed.

Lemma xor_bytes_is_byte (x k : bytes) :
  Forall is_byte x -> Forall is_byte k -> Forall is_byte (xor_bytes x k).
Proof.
  intros Hx. revert k. induction Hx as [|a x Ha Hx IH]; intros k Hk; simpl.
  - constructor.
  - destruct Hk as [|b k Hb Hk]; constructor; auto using lxor_byte.
Qed.

Lemma bytes_of_int_length n z : length (bytes_of_int n z) = n.
Proof.
  revert z. induction n as [|n IH]; intros z; simpl; [reflexivity|].
  rewrite length_app, IH. simpl. lia.
Qed.

Lemma bytes_of_int_is_byte n z : Forall is_byte (bytes_of_int n z).
Proof.
  revert z. induction n as [|n IH]; intros z; simpl; [constructor|].
  apply Forall_app. split; [apply IH|].
  constructor; [|constructor]. unfold is_byte. apply Z.mod_pos_bound. lia.
Qed.

End BytesFacts.

Module GCMFacts.
Import BytesFacts.

Section Cipher.
Variable E : Z -> Z.

Lemma keystream_blocks_length n cb :
  length (GCM.keystream_blocks E n cb) = (16 * n)%nat.
Proof.
  revert cb. induction n as [|n IH]; intros cb; cbn [GCM.keystream_blocks];
    [reflexivity|].
  rewrite length_app, bytes_of_int_length, IH. lia.
Qed.

Lemma keystream_blocks_is_byte n cb :
  Forall is_byte (GCM.keystream_blocks E n cb).
Proof.
  revert cb. induction n as [|n IH]; intros cb; cbn [GCM.keystream_blocks];
    [constructor|].
  apply Forall_app. split; [apply bytes_of_int_is_byte|apply IH].
Qed.

Lemma keystream_covers (x : bytes) cb :
  (length x <= length (GCM.keystream_blocks E (Nat.div (length x + 15) 16) cb))%nat.
Proof.
  rewrite keystream_blocks_length.
  pose proof (Nat.div_mod_eq (length x + 15) 16).
  pose proof (Nat.mod_upper_bound (length x + 15) 16). lia.
Qed.

Lemma gctr_length icb x : length (GCM.gctr E icb x) = length x.
Proof.
  unfold GCM.gctr. rewrite xor_bytes_length.
  pose proof (keystream_covers x icb). lia.
Qed.

Lemma gctr_involutive icb x : GCM.gctr E icb (GCM.gctr E icb x) = x.
Proof.
  unfold GCM.gctr at 1. rewrite gctr_length. unfold GCM.gctr.
  apply xor_bytes_involutive, keystream_covers.
Qed.

Lemma gctr_is_byte icb x : Forall is_byte x -> Forall is_byte (GCM.gctr E icb x).
Proof.
  intros Hx. unfold GCM.gctr.
  apply xor_bytes_is_byte; [assumption|apply keystream_blocks_is_byte].
Qed.

Lemma tag_length iv c : length (GCM.tag E iv c) = 16%nat.
Proof. unfold GCM.tag. rewrite gctr_length. apply bytes_of_int_length. Qed.

Lemma encrypt_length iv p : length (GCM.encrypt E iv p) = (length p + 16)%nat.
Proof.
  unfold GCM.encrypt. cbn zeta. rewrite length_app, tag_length, gctr_length. reflexivity.
Qed.

Lemma encrypt_is_byte iv p :
  Forall is_byte p -> Forall is_byte (GCM.encrypt E iv p).
Proof.
  intros Hp. unfold GCM.encrypt. cbn zeta. apply Forall_app. split.
  - apply gctr_is_byte, Hp.
  - unfold GCM.tag. apply gctr_is_byte, bytes_of_int_is_byte.
Qed.

(** What was encrypted under a key and a nonce decrypts under them. *)
Lemma gcm_decrypt_encrypt iv p : GCM.decrypt E iv (GCM.encrypt E iv p) = Some p.
Proof.
  unfold GCM.decrypt. rewrite encrypt_length.
  replace (Nat.ltb (length p + 16) 16) with false
    by (symmetry; apply Nat.ltb_ge; lia).
  replace (length p + 16 - 16)%nat with (length p) by lia.
  unfold GCM.encrypt. cbn zeta.
  set (c := GCM.gctr E (GCM.inc32 (GCM.j0 E iv)) p).
  assert (Hc : length c = length p) by apply gctr_length.
  rewrite <- Hc.
  rewrite firstn_app, Nat.sub_diag, firstn_all, firstn_O, app_nil_r.
  rewrite skipn_app, Nat.sub_diag, skipn_all, skipn_O. cbn [app].
  rewrite bytes_eqb_refl. unfold c. rewrite gctr_involutive. reflexivity.
Qed.

(** Decryption answers only when the tag verifies. *)
Lemma decrypt_Some iv ct pt :
  GCM.decrypt E iv ct = Some pt ->
  (16 <= length ct)%nat /\
  GCM.tag E iv (firstn (length ct - 16) ct) = skipn (length ct - 16) ct /\
  GCM.encrypt E iv pt = ct.
Proof.
  unfold GCM.decrypt. destruct (Nat.ltb_spec (length ct) 16) as [|Hlen];
    [discriminate|].
  destruct (bytes_eqb _ _) eqn:Htag; [|discriminate].
  apply bytes_eqb_eq in Htag. intros [= <-]. split; [assumption|].
  split; [assumption|].
  unfold GCM.encrypt. cbn zeta. rewrite gctr_involutive, Htag. apply firstn_skipn.
Qed.

Lemma decrypt_None iv ct :
  GCM.decrypt E iv ct = None <->
  (length ct < 16)%nat \/
  GCM.tag E iv (firstn (length ct - 16) ct) <> skipn (length ct - 16) ct.
Proof.
  unfold GCM.decrypt. destruct (Nat.ltb_spec (length ct) 16) as [Hlen|Hlen].
  - split; auto.
  - destruct (bytes_eqb _ _) eqn:Htag.
    + apply bytes_eqb_eq in Htag. split; [discriminate|].
      intros [?|Hne]; [lia|contradiction].
    + split; [|reflexivity]. intros _. right. intros Heq.
      apply bytes_eqb_eq in Heq. congruence.
Qed.

End Cipher.
End GCMFacts.

Module Utf8Facts.
Import Utf8 BytesFacts.

Definition isSurrogate (u : Z) : bool := isHighSurrogate u || isLowSurrogate u.

(** The bytes do not begin with, and are not the beginning of, a byte order
    mark. *)
Definition nobom (bs : bytes) : bool :=
  match bs with
  | b1 :: t1 =>
      negb (b1 =? 239) ||
      match t1 with
      | b2 :: t2 =>
          negb (b2 =? 187) ||
          match t2 with
          | b3 :: _ => negb (b3 =? 191)
          | [] => false
          end
      | [] => false
      end
  | [] => false
  end.

Ltac zlia := Z.to_euclidean_division_equations; lia.

Ltac bool_to_prop H :=
  repeat first
    [ rewrite Bool.andb_true_iff in H | rewrite Bool.orb_true_iff in H
    | rewrite Bool.andb_false_iff in H | rewrite Bool.orb_false_iff in H
    | rewrite Z.leb_le in H | rewrite Z.ltb_lt in H | rewrite Z.eqb_eq in H
    | rewrite Z.leb_gt in H | rewrite Z.ltb_ge in H | rewrite Z.eqb_neq in H ].

(** Settle one test of the goal by arithmetic, keeping both branches only
    when both are possible. *)
Ltac decide_test :=
  match goal with
  | |- context [if ?c then _ else _] =>
      let H := fresh "Htest" in
      destruct c eqn:H; bool_to_prop H; try (exfalso; zlia)
  end.

Ltac decoder_cbn :=
  cbn [d_needed d_lower d_upper d_cp d_lead d_init Z.eqb Pos.eqb Z.sub Z.add
       Z.opp Z.pos_sub Pos.pred_double].

(** Run the decoder over the bytes of a scalar value in a known range. *)
Ltac run_decoder :=
  unfold utf8_bytes; repeat decide_test; cbn [feed];
  repeat (unfold d_step at 1, d_start; decoder_cbn; repeat decide_test; decoder_cbn);
  cbn [app]; f_equal; f_equal; zlia.

Lemma feed_1 cp : 0 <= cp < 128 -> feed d_init (utf8_bytes cp) = ([cp], d_init).
Proof. intros Hr. run_decoder. Qed.

Lemma feed_2 cp : 128 <= cp < 2048 -> feed d_init (utf8_bytes cp) = ([cp], d_init).
Proof. intros Hr. run_decoder. Qed.

Lemma feed_3 cp :
  2048 <= cp < 65536 -> cp < 55296 \/ 57344 <= cp ->
  feed d_init (utf8_bytes cp) = ([cp], d_init).
Proof. intros Hr Hs. run_decoder. Qed.

Lemma feed_4 cp :
  65536 <= cp < 1114112 -> feed d_init (utf8_bytes cp) = ([cp], d_init).
Proof. intros Hr. run_decoder. Qed.

Lemma not_surrogate cp :
  isSurrogate cp = false -> cp < 55296 \/ 57344 <= cp.
Proof.
  unfold isSurrogate, isHighSurrogate, isLowSurrogate. intros H.
  bool_to_prop H. lia.
Qed.

Lemma utf8_bytes_is_byte cp : 0 <= cp < 1114112 -> Forall is_byte (utf8_bytes cp).
Proof.
  intros Hr. unfold utf8_bytes. repeat decide_test;
    repeat constructor; unfold is_byte; zlia.
Qed.

Lemma utf8_bytes_nobom cp :
  0 <= cp < 1114112 -> cp <> 65279 -> nobom (utf8_bytes cp) = true.
Proof.
  intros Hr Hne. unfold utf8_bytes. repeat decide_test; unfold nobom;
    repeat match goal with
    | |- context [?a =? ?b] =>
        let H := fresh "Heq" in
        destruct (a =? b) eqn:H; bool_to_prop H; try (exfalso; zlia)
    end; reflexivity.
Qed.

(** What the round trip needs of one scalar value: its bytes decode to it
    and leave the decoder at rest, they are bytes, and only U+FEFF looks like
    a byte order mark. *)
Lemma scalar_value cp :
  0 <= cp < 1114112 -> isSurrogate cp = false ->
  feed d_init (utf8_bytes cp) = ([cp], d_init)
  /\ Forall is_byte (utf8_bytes cp)
  /\ (cp <> 65279 -> nobom (utf8_bytes cp) = true).
Proof.
  intros Hr Hs. apply not_surrogate in Hs.
  split; [|split; [apply utf8_bytes_is_byte, Hr|apply utf8_bytes_nobom, Hr]].
  destruct (Z_lt_le_dec cp 128); [apply feed_1; lia|].
  destruct (Z_lt_le_dec cp 2048); [apply feed_2; lia|].
  destruct (Z_lt_le_dec cp 65536); [apply feed_3; [lia|assumption]|].
  apply feed_4; lia.
Qed.

Lemma decode_from_app st a b :
  decode_from st (a ++ b) = fst (feed st a) ++ decode_from (snd (feed st a)) b.
Proof.
  revert st. induction a as [|x a IH]; intros st; [reflexivity|].
  cbn [app decode_from feed]. destruct (d_step st x) as [out st1].
  rewrite IH. destruct (feed st1 a) as [out' st2]. cbn [fst snd].
  rewrite app_assoc. reflexivity.
Qed.

Lemma decode_no_bom_scalar cp rest :
  0 <= cp < 1114112 -> isSurrogate cp = false ->
  decode_no_bom (utf8_bytes cp ++ rest) = units_of_cp cp ++ decode_no_bom rest.
Proof.
  intros Hr Hs. destruct (scalar_value cp Hr Hs) as [Hfeed _].
  unfold decode_no_bom. rewrite decode_from_app, Hfeed. cbn [fst snd app flat_map].
  reflexivity.
Qed.

Lemma strip_bom_app bs rest : nobom bs = true -> strip_bom (bs ++ rest) = bs ++ rest.
Proof.
  unfold nobom, strip_bom.
  destruct bs as [|b1 [|b2 [|b3 t]]]; cbn [app]; try discriminate.
  - destruct (b1 =? 239); cbn [negb orb andb]; [discriminate|].
    intros _. destruct rest as [|? [|? ?]]; reflexivity.
  - destruct (b1 =? 239), (b2 =? 187); cbn [negb orb andb]; try discriminate;
      intros _; destruct rest; reflexivity.
  - destruct (b1 =? 239), (b2 =? 187), (b3 =? 191); cbn [negb orb andb];
      try discriminate; reflexivity.
Qed.

Lemma pair_scalar h l :
  isHighSurrogate h = true -> isLowSurrogate l = true ->
  0 <= surrogate_pair h l < 1114112
  /\ isSurrogate (surrogate_pair h l) = false
  /\ units_of_cp (surrogate_pair h l) = [h; l]
  /\ surrogate_pair h l <> 65279.
Proof.
  unfold isHighSurrogate, isLowSurrogate, surrogate_pair, isSurrogate.
  intros Hh Hl. apply andb_prop in Hh as [Hh1 Hh2]. apply andb_prop in Hl as [Hl1 Hl2].
  apply Z.leb_le in Hh1, Hh2, Hl1, Hl2.
  split; [lia|]. split; [|split; [|lia]].
  - unfold isHighSurrogate, isLowSurrogate. apply orb_false_intro;
      apply andb_false_intro2; apply Z.leb_gt; lia.
  - unfold units_of_cp.
    replace (65536 + (h - 55296) * 1024 + (l - 56320) <? 65536) with false
      by (symmetry; apply Z.ltb_ge; lia).
    replace (65536 + (h - 55296) * 1024 + (l - 56320) - 65536)
      with ((l - 56320) + (h - 55296) * 1024) by lia.
    rewrite Z.div_add, Z.mod_add by lia.
    rewrite Z.div_small, Z.mod_small by lia. f_equal; [lia|f_equal; lia].
Qed.

(** The first scalar value of a well-formed string, and the rest. *)
Lemma well_formed_head s :
  well_formed s -> s <> [] ->
  exists cp rest,
    0 <= cp < 1114112 /\ isSurrogate cp = false
    /\ encode s = utf8_bytes cp ++ encode rest
    /\ s = units_of_cp cp ++ rest /\ well_formed rest
    /\ (hd 0 s <> 65279 -> cp <> 65279).
Proof.
  destruct s as [|u r]; [congruence|]. intros Hwf _.
  cbn [well_formed] in Hwf. destruct Hwf as [Hu Hwf]. cbn [encode hd].
  destruct (isHighSurrogate u) eqn:Hh.
  - destruct r as [|l r]; [contradiction|]. destruct Hwf as [Hl Hwf].
    rewrite Hl. destruct (pair_scalar u l Hh Hl) as (Hr & Hs & Hunits & Hne).
    exists (surrogate_pair u l), r. rewrite Hunits. auto 10.
  - destruct Hwf as [Hl Hwf]. rewrite Hl.
    exists u, r. split; [lia|]. split.
    { unfold isSurrogate. rewrite Hh, Hl. reflexivity. }
    split; [reflexivity|]. split.
    { unfold units_of_cp.
      replace (u <? 65536) with true by (symmetry; apply Z.ltb_lt; lia).
      reflexivity. }
    auto.
Qed.

Lemma well_formed_length_ind (P : jsstring -> Prop) :
  (forall s, (forall r, (length r < length s)%nat -> P r) -> P s) ->
  forall s, P s.
Proof.
  intros Hstep s. remember (length s) as n eqn:Hn.
  revert s Hn. induction n as [n IH] using lt_wf_ind. intros s ->.
  apply Hstep. intros r Hr. eapply IH; [exact Hr|reflexivity].
Qed.

Lemma units_of_cp_nonempty cp : (0 < length (units_of_cp cp))%nat.
Proof. unfold units_of_cp. destruct (cp <? 65536); simpl; lia. Qed.

Lemma encode_is_byte s : well_formed s -> Forall is_byte (encode s).
Proof.
  induction s as [s IH] using well_formed_length_ind. intros Hwf.
  destruct s as [|u r] eqn:Hs; [constructor|]. rewrite <- Hs in *.
  destruct (well_formed_head s Hwf) as (cp & rest & Hr & Hsur & Henc & Hsplit & Hwf' & _);
    [subst; discriminate|].
  rewrite Henc. apply Forall_app. split.
  - apply (scalar_value cp Hr Hsur).
  - apply IH; [|assumption]. rewrite Hsplit, length_app.
    pose proof (units_of_cp_nonempty cp). lia.
Qed.

Lemma decode_no_bom_encode s : well_formed s -> decode_no_bom (encode s) = s.
Proof.
  induction s as [s IH] using well_formed_length_ind. intros Hwf.
  destruct s as [|u r] eqn:Hs; [reflexivity|]. rewrite <- Hs in *.
  destruct (well_formed_head s Hwf) as (cp & rest & Hr & Hsur & Henc & Hsplit & Hwf' & _);
    [subst; discriminate|].
  rewrite Henc, decode_no_bom_scalar by assumption.
  rewrite IH; [symmetry; exact Hsplit| |assumption].
  rewrite Hsplit, length_app. pose proof (units_of_cp_nonempty cp). lia.
Qed.

(** TextDecoder undoes TextEncoder on well-formed text that does not begin
    with U+FEFF. *)
Lemma decode_encode s :
  well_formed s -> hd 0 s <> 65279 -> decode (encode s) = s.
Proof.
  intros Hwf Hhd. unfold decode.
  destruct s as [|u r] eqn:Hs; [reflexivity|]. rewrite <- Hs in *.
  destruct (well_formed_head s Hwf) as (cp & rest & Hr & Hsur & Henc & _ & _ & Hne);
    [subst; discriminate|].
  rewrite Henc, strip_bom_app, <- Henc.
  - apply decode_no_bom_encode, Hwf.
  - apply (scalar_value cp Hr Hsur). auto.
Qed.

End Utf8Facts.

Module HexFacts.
Import Hex BytesFacts.

(** What the round trip needs of one byte: two hexadecimal digits, neither a
    line terminator nor a colon, that [parseInt] reads back. *)
Definition hex_ok (x : Z) : bool :=
  match toHex_byte x with
  | [h; l] =>
      negb (isLineTerminator h || isLineTerminator l)
      && (toUint8 (parseInt16 [h; l]) =? x)
      && negb (h =? 58) && negb (l =? 58)
  | _ => false
  end.

Lemma every_byte_hex_ok : Range.all_below 256 hex_ok = true.
Proof. vm_compute. reflexivity. Qed.

Lemma toHex_byte_pair x :
  is_byte x ->
  exists h l, toHex_byte x = [h; l]
    /\ isLineTerminator h || isLineTerminator l = false
    /\ toUint8 (parseInt16 [h; l]) = x
    /\ h <> 58 /\ l <> 58.
Proof.
  intros Hx. pose proof (Range.all_below_spec _ _ every_byte_hex_ok x Hx) as H.
  unfold hex_ok in H. destruct (toHex_byte x) as [|h [|l [|? ?]]]; try discriminate.
  exists h, l. repeat (apply andb_prop in H as [H ?]).
  apply negb_true_iff in H, H0, H1. apply Z.eqb_eq in H2.
  apply Z.eqb_neq in H0, H1. auto.
Qed.

Lemma match_pairs_toHex b :
  Forall is_byte b -> match_pairs (toHex b) = map toHex_byte b.
Proof.
  induction 1 as [|x b Hx Hb IH]; [reflexivity|].
  unfold toHex in *. cbn [flat_map map].
  destruct (toHex_byte_pair x Hx) as (h & l & -> & Hlt & _).
  cbn [app match_pairs]. rewrite Hlt, IH. reflexivity.
Qed.

Lemma parse_toHex b :
  Forall is_byte b -> map (fun p => toUint8 (parseInt16 p)) (map toHex_byte b) = b.
Proof.
  induction 1 as [|x b Hx Hb IH]; [reflexivity|]. cbn [map]. rewrite IH.
  destruct (toHex_byte_pair x Hx) as (h & l & -> & _ & -> & _). reflexivity.
Qed.

(** [fromHex] reads back what [toHex] wrote, for a non-empty array. *)
Lemma fromHex_toHex b :
  Forall is_byte b -> b <> [] -> fromHex (toHex b) = Some b.
Proof.
  intros Hb Hne. unfold fromHex, match_2g. rewrite match_pairs_toHex by assumption.
  destruct (map toHex_byte b) as [|p ps] eqn:Hm.
  - destruct b; [congruence|discriminate].
  - rewrite <- Hm, parse_toHex by assumption. reflexivity.
Qed.

Lemma toHex_no_colon b : Forall is_byte b -> includes 58 (toHex b) = false.
Proof.
  induction 1 as [|x b Hx Hb IH]; [reflexivity|].
  unfold toHex, includes in *. cbn [flat_map]. rewrite existsb_app, IH, orb_false_r.
  destruct (toHex_byte_pair x Hx) as (h & l & -> & _ & _ & Hh & Hl).
  cbn [existsb]. apply Z.eqb_neq in Hh, Hl. rewrite Z.eqb_sym, Hh, Z.eqb_sym, Hl.
  reflexivity.
Qed.

Lemma split_no_sep c s : includes c s = false -> split c s = [s].
Proof.
  unfold includes. induction s as [|x s IH]; [reflexivity|].
  cbn [existsb split]. intros H. apply orb_false_elim in H as [Hx Hs].
  rewrite Z.eqb_sym, Hx, IH by assumption. reflexivity.
Qed.

Lemma split_at_sep c a b :
  includes c a = false -> split c (a ++ c :: b) = a :: split c b.
Proof.
  unfold includes. induction a as [|x a IH]; intros H.
  - cbn [app split]. rewrite Z.eqb_refl. reflexivity.
  - cbn [existsb] in H. apply orb_false_elim in H as [Hx Ha].
    cbn [app split]. rewrite Z.eqb_sym, Hx, IH by assumption. reflexivity.
Qed.

Lemma includes_app c a b : includes c (a ++ b) = includes c a || includes c b.
Proof. apply existsb_app. Qed.

End HexFacts.

Module EnvelopeFacts.
Import Envelope.

(** The envelope [encrypt] writes is read back by [decrypt]. *)
Lemma envelope_decrypt_encrypt K key iv s :
  getAesKey K = Some key ->
  Forall is_byte iv -> length iv = 12%nat ->
  Utf8.well_formed s -> hd 0 s <> 65279 ->
  exists envelope, encrypt K iv s = Some envelope /\ decrypt K envelope = s.
Proof.
  intros Hkey Hiv Hlen Hwf Hbom.
  assert (Hne : iv <> []) by (intros E; rewrite E in Hlen; discriminate).
  unfold encrypt. rewrite Hkey.
  set (ct := GCM.encrypt (GCM.aes key) iv (Utf8.encode s)).
  assert (Hct : Forall is_byte ct).
  { apply GCMFacts.encrypt_is_byte, Utf8Facts.encode_is_byte, Hwf. }
  assert (Hctne : ct <> []).
  { intros Heq. pose proof (GCMFacts.encrypt_length (GCM.aes key) iv (Utf8.encode s)) as Hl.
    fold ct in Hl. rewrite Heq in Hl. simpl in Hl. lia. }
  eexists. split; [reflexivity|]. unfold decrypt.
  rewrite HexFacts.includes_app, HexFacts.toHex_no_colon by assumption.
  cbn [app orb negb]. unfold includes at 1. cbn [existsb]. rewrite Z.eqb_refl.
  cbn [orb negb]. unfold try_decrypt.
  rewrite HexFacts.split_at_sep by (apply HexFacts.toHex_no_colon; assumption).
  rewrite HexFacts.split_no_sep by (apply HexFacts.toHex_no_colon; assumption).
  rewrite Hkey, !HexFacts.fromHex_toHex by assumption.
  unfold supported_nonce. rewrite Hlen. cbn [existsb Nat.eqb orb].
  unfold ct. rewrite GCMFacts.gcm_decrypt_encrypt.
  rewrite Utf8Facts.decode_encode by assumption. reflexivity.
Qed.

End EnvelopeFacts.

(** A process key (32 zero bytes, in hexadecimal) and a nonce for examples. *)
Definition zero_key : jsstring :=
  js "0000000000000000000000000000000000000000000000000000000000000000".
Definition sample_iv : bytes := [202; 254; 186; 190; 250; 206; 219; 173; 222; 202; 248; 136].

(** The test vectors of the standards: FIPS 197 appendix C, and test cases
    1, 2, 13 and 14 of the GCM specification. *)
Example aes_fips197_vectors :
  map (fun key => Hex.toHex (AES.encrypt_block (firstn key (map Z.of_nat (seq 0 32)))
                               (map (fun i => 17 * Z.of_nat i) (seq 0 16))))
      [16; 24; 32]%nat
  = [js "69c4e0d86a7b0430d8cdb78070b4c55a";
     js "dda97ca4864cdfe06eaf70a0ec0d7191";
     js "8ea2b7ca516745bfeafc49904b496089"].
Proof. vm_compute. reflexivity. Qed.

Example gcm_test_cases :
  map Hex.toHex
      [GCM.encrypt (GCM.aes (repeat 0 16)) (repeat 0 12) [];
       GCM.encrypt (GCM.aes (repeat 0 16)) (repeat 0 12) (repeat 0 16);
       GCM.encrypt (GCM.aes (repeat 0 32)) (repeat 0 12) [];
       GCM.encrypt (GCM.aes (repeat 0 32)) (repeat 0 12) (repeat 0 16)]
  = [js "58e2fccefa7e3061367f1d57a4e7455a";
     js "0388dace60b6a392f328c2b971b2fe78ab6e47d42cec13bdf53a67b21257bddf";
     js "530f8afbc74536b9a963b4f1c4cb738b";
     js "cea7403d4d606b6e074ec5d3baf39d18d0d1c8a799996bf0265b98b5d48ab919"].
Proof. vm_compute. reflexivity. Qed.

(** C2 (envelope round trip). Under a well-formed process key and for the
    12 random bytes [encrypt] draws, decrypting the envelope of [s] yields
    [s] exactly, for every string [s] of well-formed UTF-16 whose first
    character is not U+FEFF.  Every printable string is such: an unpaired
    surrogate and the format character U+FEFF are not printable. *)
Theorem envelope_round_trip (K : jsstring) (key iv : bytes) (s : jsstring) :
  Envelope.getAesKey K = Some key ->
  length iv = 12%nat -> Forall is_byte iv ->
  Utf8.well_formed s -> hd 0 s <> 65279 ->
  exists envelope,
    Envelope.encrypt K iv s = Some envelope /\ Envelope.decrypt K envelope = s.
Proof.
  intros Hkey Hlen Hiv Hwf Hbom.
  destruct (EnvelopeFacts.envelope_decrypt_encrypt K key iv s
              Hkey Hiv Hlen Hwf Hbom) as (envelope & Henc & Hdec).
  exists envelope. split; assumption.
Qed.

Lemma envelope_round_trip_witness :
  exists envelope,
    Envelope.encrypt zero_key sample_iv (js "+16475551234") = Some envelope
    /\ Envelope.decrypt zero_key envelope = js "+16475551234".
Proof.
  apply (envelope_round_trip zero_key (repeat 0 32) sample_iv (js "+16475551234")).
  - vm_compute. reflexivity.
  - reflexivity.
  - repeat constructor; vm_compute; discriminate.
  - vm_compute. repeat split; discriminate.
  - vm_compute. discriminate.
Defined.

(** C5 (legacy plaintext passthrough). A stored value with no [':'] is
    returned unchanged by [decrypt] (and by [decryptField], the same code),
    whatever the key; no error can arise, the result being the value. *)
Theorem legacy_passthrough (K s : jsstring) :
  includes 58 s = false ->
  Envelope.decrypt K s = s /\ Envelope.decryptField K s = s.
Proof.
  intros H. unfold Envelope.decryptField, Envelope.decrypt. rewrite H. auto.
Qed.

Lemma legacy_passthrough_witness :
  Envelope.decrypt zero_key (js "+16475551234") = js "+16475551234"
  /\ Envelope.decryptField zero_key (js "+16475551234") = js "+16475551234".
Proof.
  apply (legacy_passthrough zero_key (js "+16475551234")). reflexivity.
Defined.

(** C4, as amended (decryption is total and all-or-nothing).  [decrypt] is a
    total function, and for every stored string its result is either the
    stored string itself or the text of the plaintext that AES-GCM
    authenticated under the process key, for the bytes read from the first
    two [':']-separated parts.  It is that text whenever the key is
    imported, both parts are read, the nonce has 12 or 16 bytes, at least 16
    bytes are left and the tag verifies; and it is the stored string
    whenever the key cannot be imported, a part holds no pair of units to
    read, the nonce has another length, fewer than 16 bytes are left (a
    truncated envelope), or the tag does not verify (corrupted data, wrong
    key).  The parts are read leniently, as [match(/.{2}/g)] and [parseInt]
    do, not checked to be hexadecimal. *)
Theorem decrypt_all_or_nothing (K stored : jsstring) :
  (Envelope.decrypt K stored = stored
   \/ exists ivHex ctHex rest key iv ct pt,
        split 58 stored = ivHex :: ctHex :: rest
        /\ Envelope.getAesKey K = Some key
        /\ Hex.fromHex ivHex = Some iv /\ Hex.fromHex ctHex = Some ct
        /\ Envelope.supported_nonce iv = true
        /\ GCM.decrypt (GCM.aes key) iv ct = Some pt
        /\ GCM.tag (GCM.aes key) iv (firstn (length ct - 16) ct)
           = skipn (length ct - 16) ct
        /\ Envelope.decrypt K stored = Utf8.decode pt)
  /\ (forall ivHex ctHex rest key iv ct,
        split 58 stored = ivHex :: ctHex :: rest ->
        Envelope.getAesKey K = Some key ->
        Hex.fromHex ivHex = Some iv -> Hex.fromHex ctHex = Some ct ->
        Envelope.supported_nonce iv = true ->
        (16 <= length ct)%nat ->
        GCM.tag (GCM.aes key) iv (firstn (length ct - 16) ct)
        = skipn (length ct - 16) ct ->
        exists pt,
          GCM.encrypt (GCM.aes key) iv pt = ct
          /\ Envelope.decrypt K stored = Utf8.decode pt)
  /\ (forall ivHex ctHex rest,
        split 58 stored = ivHex :: ctHex :: rest ->
        (Envelope.getAesKey K = None \/ Hex.fromHex ivHex = None
         \/ Hex.fromHex ctHex = None
         \/ exists key iv ct,
              Envelope.getAesKey K = Some key
              /\ Hex.fromHex ivHex = Some iv /\ Hex.fromHex ctHex = Some ct
              /\ (Envelope.supported_nonce iv = false
                  \/ (length ct < 16)%nat
                  \/ GCM.tag (GCM.aes key) iv (firstn (length ct - 16) ct)
                     <> skipn (length ct - 16) ct)) ->
        Envelope.decrypt K stored = stored).
Proof.
  split; [|split].
  - unfold Envelope.decrypt. destruct (includes 58 stored); cbn [negb]; [|auto].
    unfold Envelope.try_decrypt.
    destruct (split 58 stored) as [|ivHex [|ctHex rest]]; auto.
    destruct (Envelope.getAesKey K) as [key|] eqn:Hkey; auto.
    destruct (Hex.fromHex ivHex) as [iv|] eqn:Hiv; auto.
    destruct (Hex.fromHex ctHex) as [ct|] eqn:Hct; auto.
    destruct (Envelope.supported_nonce iv) eqn:Hnonce; auto.
    destruct (GCM.decrypt (GCM.aes key) iv ct) as [pt|] eqn:Hdec; auto.
    right. exists ivHex, ctHex, rest, key, iv, ct, pt.
    destruct (GCMFacts.decrypt_Some _ _ _ _ Hdec) as (_ & Htag & _). auto 10.
  - intros ivHex ctHex rest key iv ct Hsplit Hkey Hiv Hct Hnonce Hlen Htag.
    assert (Hcolon : includes 58 stored = true).
    { destruct (includes 58 stored) eqn:Hin; [reflexivity|].
      rewrite (HexFacts.split_no_sep _ _ Hin) in Hsplit. discriminate Hsplit. }
    unfold Envelope.decrypt. rewrite Hcolon. cbn [negb].
    unfold Envelope.try_decrypt. rewrite Hsplit, Hkey, Hiv, Hct, Hnonce.
    destruct (GCM.decrypt (GCM.aes key) iv ct) as [pt|] eqn:Hdec.
    + exists pt. split; [|reflexivity].
      destruct (GCMFacts.decrypt_Some _ _ _ _ Hdec) as (_ & _ & Henc). exact Henc.
    + apply GCMFacts.decrypt_None in Hdec. destruct Hdec as [Hshort|Hbad];
        [lia|contradiction].
  - intros ivHex ctHex rest Hsplit Hfail.
    unfold Envelope.decrypt. destruct (includes 58 stored); cbn [negb]; [|auto].
    unfold Envelope.try_decrypt. rewrite Hsplit.
    destruct Hfail as [->|[Hiv|[Hct|(key & iv & ct & -> & -> & -> & Hbad)]]].
    + reflexivity.
    + rewrite Hiv. destruct (Envelope.getAesKey K); reflexivity.
    + rewrite Hct. destruct (Envelope.getAesKey K), (Hex.fromHex ivHex); reflexivity.
    + destruct Hbad as [->|Hbad]; [reflexivity|].
      apply GCMFacts.decrypt_None in Hbad. rewrite Hbad.
      destruct (Envelope.supported_nonce iv); reflexivity.
Qed.

(** Corrupted, truncated and wrongly keyed envelopes come back verbatim:
    the envelope of test case 14 with one ciphertext digit changed, with its
    last byte cut off, and read under another key. *)
Example damaged_envelopes_fall_back :
  let envelope :=
    js "000000000000000000000000:cea7403d4d606b6e074ec5d3baf39d18d0d1c8a799996bf0265b98b5d48ab919" in
  let corrupted :=
    js "000000000000000000000000:cea7403d4d606b6e074ec5d3baf39d19d0d1c8a799996bf0265b98b5d48ab919" in
  let truncated :=
    js "000000000000000000000000:cea7403d4d606b6e074ec5d3baf39d18d0d1c8a799996bf0265b98b5d48ab9" in
  let other_key :=
    js "0100000000000000000000000000000000000000000000000000000000000000" in
  Envelope.decrypt zero_key envelope = repeat 0 16
  /\ Envelope.decrypt zero_key corrupted = corrupted
  /\ Envelope.decrypt zero_key truncated = truncated
  /\ Envelope.decrypt other_key envelope = envelope
  /\ Envelope.decrypt (js "00") envelope = envelope
  /\ Envelope.decrypt zero_key (js ":") = js ":".
Proof. vm_compute. auto 10. Qed.

(** A nonce of 8 bytes: the tag verifies, yet the runtime does not take the
    nonce, and the envelope comes back verbatim. *)
Example short_nonce_falls_back :
  let nonce := repeat 7 8 in
  let sealed := GCM.encrypt (GCM.aes (repeat 0 32)) nonce (Utf8.encode (js "hello")) in
  let envelope := Hex.toHex nonce ++ [58] ++ Hex.toHex sealed in
  GCM.decrypt (GCM.aes (repeat 0 32)) nonce sealed = Some (Utf8.encode (js "hello"))
  /\ Envelope.decrypt zero_key envelope = envelope.
Proof. vm_compute. auto. Qed.

(** The envelope of the empty string under the zero key and the zero nonce
    (GCM test case 13), with its byte [0f] written [fz]. *)
Definition malformed_envelope : jsstring :=
  js "000000000000000000000000:53fz8afbc74536b9a963b4f1c4cb738b".

(** C4 as stated fails on malformed hexadecimal: [z] is no hexadecimal
    digit, yet [decrypt] does not fall back to the stored string; [parseInt]
    reads [fz] as 15 and the envelope decrypts, to the empty string. *)
Lemma malformed_hex_decrypts :
  includes 58 malformed_envelope = true
  /\ includes 122 malformed_envelope = true
  /\ Hex.hexval 122 = None
  /\ Envelope.decrypt zero_key malformed_envelope = []
  /\ str_eqb (Envelope.decrypt zero_key malformed_envelope) malformed_envelope = false.
Proof. vm_compute. auto. Qed.

(** ** SHA-1 (FIPS 180-4), HMAC (RFC 2104) and base64
    What [crypto.subtle.sign('HMAC', key, data)] computes for
    [{ name: 'HMAC', hash: 'SHA-1' }], and [btoa]. *)

Module SHA1.

Definition w32 (x : Z) : Z := x mod 2 ^ 32.
Definition rotl (n x : Z) : Z := w32 (x * 2 ^ n) + x / 2 ^ (32 - n).
Definition not32 (x : Z) : Z := 4294967295 - x.

(** The message followed by the bit 1, zeros, and its length in bits on 64
    bits, to a multiple of 64 bytes. *)
Definition pad (msg : bytes) : bytes :=
  let len := Z.of_nat (length msg) in
  msg ++ [128] ++ repeat 0 (Z.to_nat ((55 - len) mod 64)) ++ bytes_of_int 8 (8 * len).

Fixpoint words (n : nat) (block : bytes) : list Z :=
  match n with
  | O => []
  | S n' => int_of_bytes (firstn 4 block) :: words n' (skipn 4 block)
  end.

(** The message schedule, newest word first. *)
Fixpoint schedule (n : nat) (ws : list Z) : list Z :=
  match n with
  | O => ws
  | S n' =>
      schedule n'
        (rotl 1 (Z.lxor (nth 2 ws 0) (Z.lxor (nth 7 ws 0)
                  (Z.lxor (nth 13 ws 0) (nth 15 ws 0)))) :: ws)
  end.

Definition f (t b c d : Z) : Z :=
  if t <? 20 then Z.lor (Z.land b c) (Z.land (not32 b) d)
  else if t <? 40 then Z.lxor b (Z.lxor c d)
  else if t <? 60 then Z.lor (Z.land b c) (Z.lor (Z.land b d) (Z.land c d))
  else Z.lxor b (Z.lxor c d).

Definition k (t : Z) : Z :=
  if t <? 20 then 1518500249
  else if t <? 40 then 1859775393
  else if t <? 60 then 2400959708
  else 3395469782.

Record state := { ha : Z; hb : Z; hc : Z; hd : Z; he : Z }.

Fixpoint steps (t : Z) (ws : list Z) (s : state) : state :=
  match ws with
  | [] => s
  | w :: ws' =>
      steps (t + 1) ws'
        {| ha := w32 (rotl 5 (ha s) + f t (hb s) (hc s) (hd s) + he s + k t + w);
           hb := ha s; hc := rotl 30 (hb s); hd := hc s; he := hd s |}
  end.

Definition compress (h : state) (block : bytes) : state :=
  let ws := rev (schedule 64 (rev (words 16 block))) in
  let s := steps 0 ws h in
  {| ha := w32 (ha h + ha s); hb := w32 (hb h + hb s); hc := w32 (hc h + hc s);
     hd := w32 (hd h + hd s); he := w32 (he h + he s) |}.

Fixpoint blocks (n : nat) (h : state) (msg : bytes) : state :=
  match n with
  | O => h
  | S n' => blocks n' (compress h (firstn 64 msg)) (skipn 64 msg)
  end.

Definition initial : state :=
  {| ha := 1732584193; hb := 4023233417; hc := 2562383102;
     hd := 271733878; he := 3285377520 |}.

Definition digest (msg : bytes) : bytes :=
  let p := pad msg in
  let h := blocks (Nat.div (length p) 64) initial p in
  bytes_of_int 4 (ha h) ++ bytes_of_int 4 (hb h) ++ bytes_of_int 4 (hc h)
  ++ bytes_of_int 4 (hd h) ++ bytes_of_int 4 (he h).

End SHA1.

Module HMAC.

(** HMAC-SHA-1 with a 64-byte block. *)
Definition hmac_sha1 (key msg : bytes) : bytes :=
  let k0 := if Nat.ltb 64 (length key) then SHA1.digest key else key in
  let k64 := k0 ++ repeat 0 (64 - length k0) in
  SHA1.digest (map (Z.lxor 92) k64 ++ SHA1.digest (map (Z.lxor 54) k64 ++ msg)).

End HMAC.

Module Base64.

Definition alphabet (i : Z) : Z :=
  if i <? 26 then 65 + i
  else if i <? 52 then 71 + i
  else if i <? 62 then i - 4
  else if i =? 62 then 43 else 47.

(** [btoa(String.fromCharCode(...bytes))] *)
Fixpoint btoa (bs : bytes) : jsstring :=
  match bs with
  | [] => []
  | [a] => [alphabet (a / 4); alphabet ((a mod 4) * 16); 61; 61]
  | [a; b] =>
      [alphabet (a / 4); alphabet ((a mod 4) * 16 + b / 16);
       alphabet ((b mod 16) * 4); 61]
  | a :: b :: c :: r =>
      [alphabet (a / 4); alphabet ((a mod 4) * 16 + b / 16);
       alphabet ((b mod 16) * 4 + c / 64); alphabet (c mod 64)] ++ btoa r
  end.

End Base64.

(** The test vectors of FIPS 180 and RFC 2202, and of RFC 4648. *)
Example sha1_hmac_vectors :
  map Hex.toHex
      [SHA1.digest (js "abc");
       SHA1.digest [];
       SHA1.digest (js "abcdbcdecdefdefgefghfghighijhijkijkljklmklmnlmnomnopnopq");
       HMAC.hmac_sha1 (repeat 11 20) (js "Hi There");
       HMAC.hmac_sha1 (js "Jefe") (js "what do ya want for nothing?");
       HMAC.hmac_sha1 (repeat 170 80)
         (js "Test Using Larger Than Block-Size Key - Hash Key First")]
  = [js "a9993e364706816aba3e25717850c26c9cd0d89d";
     js "da39a3ee5e6b4b0d3255bfef95601890afd80709";
     js "84983e441c3bd26ebaae4aa1f95129e5e54670f1";
     js "b617318655057264e28bc0b6fb378c8ef146be00";
     js "effcdf6ae5eb2fa2d27416d5f184df9c259a7c79";
     js "aa4ae5e15272d00e95705637ce8a3b55ed402112"].
Proof. vm_compute. reflexivity. Qed.

Example base64_vectors :
  map Base64.btoa [js "f"; js "fo"; js "foo"; js "foob"; js "fooba"; js "foobar"; [251; 255]]
  = [js "Zg=="; js "Zm8="; js "Zm9v"; js "Zm9vYg=="; js "Zm9vYmE="; js "Zm9vYmFy"; js "+/8="].
Proof. vm_compute. reflexivity. Qed.

(** ** URLSearchParams
    The application/x-www-form-urlencoded parser of the URL standard, and
    the default [Array.prototype.sort]. *)

Module Form.

(** Percent-decoding of a byte sequence. *)
Fixpoint percent_decode (bs : bytes) : bytes :=
  match bs with
  | [] => []
  | b :: r =>
      if b =? 37 then
        match r with
        | h :: l :: r' =>
            match Hex.hexval h, Hex.hexval l with
            | Some x, Some y => 16 * x + y :: percent_decode r'
            | _, _ => 37 :: percent_decode r
            end
        | _ => 37 :: percent_decode r
        end
      else b :: percent_decode r
  end.

(** The bytes before and after the first [=]; no [=] leaves the value empty. *)
Fixpoint name_value (bs : bytes) : bytes * bytes :=
  match bs with
  | [] => ([], [])
  | b :: r =>
      if b =? 61 then ([], r)
      else let '(n, v) := name_value r in (b :: n, v)
  end.

Definition plus_to_space (bs : bytes) : bytes :=
  map (fun b => if b =? 43 then 32 else b) bs.

Definition decode_component (bs : bytes) : jsstring :=
  Utf8.decode_no_bom (percent_decode (plus_to_space bs)).

Definition is_nil {A} (l : list A) : bool :=
  match l with [] => true | _ => false end.

(** [new URLSearchParams(init)] for a string: a leading [?] is dropped, the
    text is split at [&], empty pieces are skipped, and names and values are
    decoded.  The list keeps the order and the duplicates. *)
Definition URLSearchParams (init : jsstring) : list (jsstring * jsstring) :=
  let input :=
    match init with
    | c :: r => if c =? 63 then r else init
    | [] => init
    end in
  map (fun piece =>
         let '(n, v) := name_value piece in
         (decode_component n, decode_component v))
      (List.filter (fun piece => negb (is_nil piece)) (split 38 (Utf8.encode input))).

(** [params.keys()] and [params.get(k)] ([None] is [null]). *)
Definition keys (params : list (jsstring * jsstring)) : list jsstring := map fst params.
Fixpoint get (k : jsstring) (params : list (jsstring * jsstring)) : option jsstring :=
  match params with
  | [] => None
  | (n, v) :: r => if str_eqb n k then Some v else get k r
  end.

(** The order of the default [sort]: by UTF-16 code units. *)
Fixpoint str_leb (a b : jsstring) : bool :=
  match a, b with
  | [], _ => true
  | _ :: _, [] => false
  | x :: a', y :: b' => if x <? y then true else if y <? x then false else str_leb a' b'
  end.

Fixpoint insert (k : jsstring) (l : list jsstring) : list jsstring :=
  match l with
  | [] => [k]
  | h :: t => if str_leb k h then k :: l else h :: insert k t
  end.
Definition sort (l : list jsstring) : list jsstring := fold_right insert [] l.

End Form.

(** ** The Twilio signature check of handle-inbound-sms *)

Module Twilio.

(** The string the signature covers (lines 63-67): the URL, then every key
    in sorted order followed by the first value of that key. *)
Definition signed_string (url rawBody : jsstring) : jsstring :=
  let params := Form.URLSearchParams rawBody in
  let sorted := Form.sort (Form.keys params) in
  fold_left
    (fun str k =>
       str ++ k ++ match Form.get k params with Some v => v | None => [] end)
    sorted url.

(** Lines 69-72. *)
Definition expected_signature (token url rawBody : jsstring) : jsstring :=
  Base64.btoa (HMAC.hmac_sha1 (Utf8.encode token) (Utf8.encode (signed_string url rawBody))).

(** [verifyTwilio(req, rawBody)], given the X-Twilio-Signature header, the
    URL and TWILIO_AUTH_TOKEN.  [None] when it throws: [importKey] refuses an
    empty HMAC key. *)
Definition verifyTwilio (token : jsstring) (sig : option jsstring)
    (url rawBody : jsstring) : option bool :=
  match sig with
  | None | Some [] => Some false
  | Some s =>
      match token with
      | [] => None
      | _ => Some (str_eqb (expected_signature token url rawBody) s)
      end
  end.

(** One unit of the first string replaced by a different one. *)
Inductive single_mutation : jsstring -> jsstring -> Prop :=
| mutation_here x y r : x <> y -> single_mutation (x :: r) (y :: r)
| mutation_later x a b : single_mutation a b -> single_mutation (x :: a) (x :: b).

End Twilio.

(** ** The signature as the design document defines it
    Written from the words of the document, to be compared with the code:
    "decode rawBody as URL-form-encoded pairs; extract the set of distinct
    parameter keys; sort keys lexicographically by code point; build
    canonical = requestURL ++ for each sorted key: key ++ value (value =
    first/only value for that key, empty string if parameter present with no
    value); compute HMAC-SHA1(sharedSecret, canonical); base64-encode". *)

Module TwilioSpec.

(** URL-form-encoded text, as the URL Standard reads it: the pieces between
    [&], the empty ones skipped; in each the name before the first [=] and
    the value after it; [+] is a space, [%hh] a byte, and the bytes are
    UTF-8. *)
Definition pairs (rawBody : jsstring) : list (jsstring * jsstring) :=
  map (fun piece =>
         let '(n, v) := Form.name_value piece in
         (Form.decode_component n, Form.decode_component v))
      (List.filter (fun piece => negb (Form.is_nil piece))
         (split 38 (Utf8.encode rawBody))).

(** The set of the keys: every key once. *)
Fixpoint distinct_keys (keys : list jsstring) : list jsstring :=
  match keys with
  | [] => []
  | k :: r => if existsb (str_eqb k) r then distinct_keys r else k :: distinct_keys r
  end.

(** The code points of a string: a surrogate pair is one code point, beyond
    U+FFFF. *)
Fixpoint code_points (s : jsstring) : list Z :=
  match s with
  | [] => []
  | u :: r =>
      match r with
      | l :: r' =>
          if Utf8.isHighSurrogate u && Utf8.isLowSurrogate l
          then Utf8.surrogate_pair u l :: code_points r'
          else u :: code_points r
      | [] => [u]
      end
  end.

(** The lexicographic order of sequences of integers. *)
Fixpoint lex_leb (a b : list Z) : bool :=
  match a, b with
  | [], _ => true
  | _ :: _, [] => false
  | x :: a', y :: b' => if x <? y then true else if y <? x then false else lex_leb a' b'
  end.

(** Lexicographically by code point. *)
Definition precedes (a b : jsstring) : bool := lex_leb (code_points a) (code_points b).

Fixpoint insert (k : jsstring) (l : list jsstring) : list jsstring :=
  match l with
  | [] => [k]
  | h :: t => if precedes k h then k :: l else h :: insert k t
  end.
Definition sort_keys (keys : list jsstring) : list jsstring := fold_right insert [] keys.

(** The first value of a key; the empty string when it has none. *)
Fixpoint value_of (k : jsstring) (ps : list (jsstring * jsstring)) : jsstring :=
  match ps with
  | [] => []
  | (n, v) :: r => if str_eqb n k then v else value_of k r
  end.

Definition canonical (url rawBody : jsstring) : jsstring :=
  url ++ concat (map (fun k => k ++ value_of k (pairs rawBody))
                   (sort_keys (distinct_keys (map fst (pairs rawBody))))).

Definition sign (url rawBody secret : jsstring) : jsstring :=
  Base64.btoa (HMAC.hmac_sha1 (Utf8.encode secret) (Utf8.encode (canonical url rawBody))).

End TwilioSpec.

Module TwilioFacts.
Import Twilio JSFacts.

(** No key occurs twice. *)
Fixpoint all_distinct (l : list jsstring) : bool :=
  match l with
  | [] => true
  | k :: r => negb (existsb (str_eqb k) r) && all_distinct r
  end.

(** The code sorts by UTF-16 code unit, the document by code point: the two
    orders agree on these keys. *)
Definition orders_agree (keys : list jsstring) : bool :=
  forallb (fun a =>
             forallb (fun b => Bool.eqb (Form.str_leb a b) (TwilioSpec.precedes a b)) keys)
          keys.

Lemma orders_agree_spec keys :
  orders_agree keys = true ->
  forall a b, In a keys -> In b keys -> Form.str_leb a b = TwilioSpec.precedes a b.
Proof.
  unfold orders_agree. intros H a b Ha Hb.
  rewrite List.forallb_forall in H. specialize (H a Ha).
  rewrite List.forallb_forall in H. apply Bool.eqb_prop, H, Hb.
Qed.

Lemma lex_leb_str_leb a : forall b, TwilioSpec.lex_leb a b = Form.str_leb a b.
Proof.
  induction a as [|x a IH]; intros [|y b]; cbn [TwilioSpec.lex_leb Form.str_leb];
    [reflexivity..|].
  rewrite (IH b). reflexivity.
Qed.

(** Without a character beyond U+FFFF the code points are the code units. *)
Lemma code_points_bmp (k : jsstring) :
  forallb (fun u => negb (Utf8.isHighSurrogate u)) k = true ->
  TwilioSpec.code_points k = k.
Proof.
  induction k as [|u r IH]; [reflexivity|].
  cbn [forallb]. intros H. apply andb_prop in H as [Hu Hr].
  apply negb_true_iff in Hu. cbn [TwilioSpec.code_points].
  destruct r as [|l r']; [reflexivity|].
  rewrite Hu. cbn [andb]. rewrite (IH Hr). reflexivity.
Qed.

(** So the two orders agree on keys without such a character. *)
Lemma bmp_keys_agree keys :
  forallb (forallb (fun u => negb (Utf8.isHighSurrogate u))) keys = true ->
  orders_agree keys = true.
Proof.
  intros H. rewrite List.forallb_forall in H. unfold orders_agree.
  apply List.forallb_forall. intros a Ha. apply List.forallb_forall. intros b Hb.
  unfold TwilioSpec.precedes.
  rewrite (code_points_bmp a (H a Ha)), (code_points_bmp b (H b Hb)).
  replace (TwilioSpec.lex_leb a b) with (Form.str_leb a b)
    by (symmetry; apply lex_leb_str_leb).
  apply Bool.eqb_reflx.
Qed.

Lemma In_insert x k l : In x (Form.insert k l) -> x = k \/ In x l.
Proof.
  induction l as [|h t IH]; cbn [Form.insert].
  - intros [<-|[]]. left. reflexivity.
  - destruct (Form.str_leb k h).
    + intros [<-|H]; [left; reflexivity|right; exact H].
    + intros [<-|H]; [right; left; reflexivity|].
      destruct (IH H) as [->|Hin]; [left; reflexivity|right; right; exact Hin].
Qed.

Lemma In_sort x l : In x (Form.sort l) -> In x l.
Proof.
  induction l as [|k l IH]; [intros []|]. unfold Form.sort in *. cbn [fold_right].
  intros H. apply In_insert in H as [->|H]; [left; reflexivity|right; apply IH, H].
Qed.

Lemma insert_agree k l :
  (forall h, In h l -> Form.str_leb k h = TwilioSpec.precedes k h) ->
  Form.insert k l = TwilioSpec.insert k l.
Proof.
  induction l as [|h t IH]; intros H; [reflexivity|].
  cbn [Form.insert TwilioSpec.insert]. rewrite <- (H h (or_introl eq_refl)).
  rewrite IH by (intros h' Hh'; apply H; right; exact Hh'). reflexivity.
Qed.

(** Where the orders agree the two sorts give the same list. *)
Lemma sort_agree l :
  (forall a b, In a l -> In b l -> Form.str_leb a b = TwilioSpec.precedes a b) ->
  Form.sort l = TwilioSpec.sort_keys l.
Proof.
  induction l as [|k l IH]; intros H; [reflexivity|].
  unfold Form.sort, TwilioSpec.sort_keys in *. cbn [fold_right].
  rewrite <- IH by (intros a b Ha Hb; apply H; right; assumption).
  apply insert_agree. intros h Hh. apply H; [left; reflexivity|].
  right. apply In_sort, Hh.
Qed.

Lemma distinct_keys_id l : all_distinct l = true -> TwilioSpec.distinct_keys l = l.
Proof.
  induction l as [|k r IH]; [reflexivity|]. cbn [all_distinct TwilioSpec.distinct_keys].
  intros H. apply andb_prop in H as [Hk Hr]. apply negb_true_iff in Hk.
  rewrite Hk, IH by assumption. reflexivity.
Qed.

Lemma value_of_get k ps :
  TwilioSpec.value_of k ps = match Form.get k ps with Some v => v | None => [] end.
Proof.
  induction ps as [|[n v] r IH]; [reflexivity|].
  cbn [TwilioSpec.value_of Form.get]. destruct (str_eqb n k); [reflexivity|exact IH].
Qed.

(** [new URLSearchParams] drops a leading question mark; but for that, it
    is the decoding of the document. *)
Lemma URLSearchParams_pairs body :
  hd 0 body <> 63 -> Form.URLSearchParams body = TwilioSpec.pairs body.
Proof.
  intros H. unfold Form.URLSearchParams, TwilioSpec.pairs.
  destruct body as [|c r]; [reflexivity|]. cbn [hd] in H.
  apply Z.eqb_neq in H. rewrite H. reflexivity.
Qed.

Lemma fold_left_concat (f : jsstring -> jsstring) l : forall url,
  fold_left (fun str k => str ++ f k) l url = url ++ concat (map f l).
Proof.
  induction l as [|k l IH]; intros url; cbn [fold_left map concat].
  - rewrite app_nil_r. reflexivity.
  - rewrite IH, <- app_assoc. reflexivity.
Qed.

(** For a body that does not begin with a question mark, without a
    repeated key, and where the two orders agree on the keys, the code signs
    the canonical string of the document. *)
Lemma signed_is_canonical url body :
  hd 0 body <> 63 ->
  all_distinct (map fst (TwilioSpec.pairs body)) = true ->
  orders_agree (map fst (TwilioSpec.pairs body)) = true ->
  signed_string url body = TwilioSpec.canonical url body.
Proof.
  intros Hq Hd Ho. unfold signed_string, TwilioSpec.canonical, Form.keys.
  cbv zeta. rewrite (URLSearchParams_pairs body Hq).
  rewrite (distinct_keys_id _ Hd), <- (sort_agree _ (orders_agree_spec _ Ho)).
  rewrite (fold_left_concat
             (fun k => k ++ match Form.get k (TwilioSpec.pairs body) with
                            | Some v => v
                            | None => []
                            end)).
  f_equal. f_equal. apply map_ext. intros k. rewrite value_of_get. reflexivity.
Qed.

Lemma expected_is_sign secret url body :
  hd 0 body <> 63 ->
  all_distinct (map fst (TwilioSpec.pairs body)) = true ->
  orders_agree (map fst (TwilioSpec.pairs body)) = true ->
  expected_signature secret url body = TwilioSpec.sign url body secret.
Proof.
  intros Hq Hd Ho. unfold expected_signature, TwilioSpec.sign.
  rewrite (signed_is_canonical url body Hq Hd Ho). reflexivity.
Qed.

(** *** Base64 loses nothing *)

Lemma alphabet_inj i j :
  0 <= i < 64 -> 0 <= j < 64 -> Base64.alphabet i = Base64.alphabet j -> i = j.
Proof.
  unfold Base64.alphabet. intros Hi Hj.
  destruct (Z.ltb_spec i 26), (Z.ltb_spec i 52), (Z.ltb_spec i 62), (Z.eqb_spec i 62),
    (Z.ltb_spec j 26), (Z.ltb_spec j 52), (Z.ltb_spec j 62), (Z.eqb_spec j 62); lia.
Qed.

Lemma alphabet_not_pad i : 0 <= i < 64 -> Base64.alphabet i <> 61.
Proof.
  unfold Base64.alphabet. intros Hi.
  destruct (Z.ltb_spec i 26), (Z.ltb_spec i 52), (Z.ltb_spec i 62), (Z.eqb_spec i 62); lia.
Qed.

Ltac sextets :=
  repeat match goal with
         | H : Base64.alphabet _ = 61 |- _ =>
             exfalso; revert H; apply alphabet_not_pad;
             unfold is_byte in *; Z.to_euclidean_division_equations; lia
         | H : 61 = Base64.alphabet _ |- _ =>
             exfalso; symmetry in H; revert H; apply alphabet_not_pad;
             unfold is_byte in *; Z.to_euclidean_division_equations; lia
         | H : Base64.alphabet _ = Base64.alphabet _ |- _ =>
             apply alphabet_inj in H;
             [|unfold is_byte in *; Z.to_euclidean_division_equations; lia..]
         end.

Lemma btoa_inj (a : bytes) : forall b,
  Forall is_byte a -> Forall is_byte b -> Base64.btoa a = Base64.btoa b -> a = b.
Proof.
  induction a as [a IH] using (induction_ltof1 _ (@length Z)). unfold ltof in IH.
  intros b Ha Hb H.
  destruct a as [|a1 [|a2 [|a3 ra]]]; destruct b as [|b1 [|b2 [|b3 rb]]];
    cbn [Base64.btoa app] in H; try discriminate H; try reflexivity;
    repeat match goal with
           | H : Forall is_byte (_ :: _) |- _ => apply Forall_cons_iff in H as [? ?]
           end;
    injection H; intros; sextets.
  - f_equal. unfold is_byte in *. Z.to_euclidean_division_equations. lia.
  - unfold is_byte in *.
    assert (a1 = b1 /\ a2 = b2) as [-> ->]
      by (Z.to_euclidean_division_equations; lia).
    reflexivity.
  - unfold is_byte in *.
    assert (a1 = b1 /\ a2 = b2 /\ a3 = b3) as (-> & -> & ->)
      by (Z.to_euclidean_division_equations; lia).
    do 3 f_equal. apply IH; [cbn [length]; lia|assumption..].
Qed.

Lemma digest_is_byte msg : Forall is_byte (SHA1.digest msg).
Proof.
  unfold SHA1.digest. cbv zeta.
  do 4 (apply Forall_app; split; [apply BytesFacts.bytes_of_int_is_byte|]).
  apply BytesFacts.bytes_of_int_is_byte.
Qed.

Lemma digest_length msg : length (SHA1.digest msg) = 20%nat.
Proof.
  unfold SHA1.digest. cbn zeta.
  rewrite !length_app, !BytesFacts.bytes_of_int_length. reflexivity.
Qed.

Lemma btoa_nonempty bs : bs <> [] -> Base64.btoa bs <> [].
Proof. destruct bs as [|a [|b [|c r]]]; [congruence|discriminate..]. Qed.

Lemma expected_nonempty token url body : expected_signature token url body <> [].
Proof.
  unfold expected_signature, HMAC.hmac_sha1. cbn zeta. apply btoa_nonempty.
  intros H. apply (f_equal (@length Z)) in H. rewrite digest_length in H. discriminate.
Qed.

(** With a signature header and a token, the check is the comparison with
    the expected signature. *)
Lemma verifyTwilio_compares token sig url body :
  token <> [] -> sig <> [] ->
  verifyTwilio token (Some sig) url body
  = Some (str_eqb (expected_signature token url body) sig).
Proof.
  intros Ht Hs. unfold verifyTwilio.
  destruct sig; [congruence|]. destruct token; [congruence|]. reflexivity.
Qed.

Lemma single_mutation_neq a b : single_mutation a b -> a <> b.
Proof. induction 1; congruence. Qed.

Lemma single_mutation_nonempty a b : single_mutation a b -> b <> [].
Proof. destruct 1; discriminate. Qed.

Lemma hmac_is_byte key msg : Forall is_byte (HMAC.hmac_sha1 key msg).
Proof. unfold HMAC.hmac_sha1. cbv zeta. apply digest_is_byte. Qed.

Lemma hmac_nonempty key msg : HMAC.hmac_sha1 key msg <> [].
Proof.
  unfold HMAC.hmac_sha1. cbv zeta. intros H.
  apply (f_equal (@length Z)) in H. rewrite digest_length in H. discriminate.
Qed.

(** A signature made of a digest verifies a body exactly when the digest of
    what the code signs for that body is the same. *)
Lemma verify_digest secret url body' msg :
  secret <> [] ->
  verifyTwilio secret
    (Some (Base64.btoa (HMAC.hmac_sha1 (Utf8.encode secret) msg))) url body'
  = Some (bytes_eqb
            (HMAC.hmac_sha1 (Utf8.encode secret) (Utf8.encode (signed_string url body')))
            (HMAC.hmac_sha1 (Utf8.encode secret) msg)).
Proof.
  intros Hsecret.
  rewrite verifyTwilio_compares
    by (try assumption; apply btoa_nonempty, hmac_nonempty).
  f_equal. unfold expected_signature.
  destruct (bytes_eqb _ _) eqn:Heq.
  - apply BytesFacts.bytes_eqb_eq in Heq. rewrite Heq. apply str_eqb_refl.
  - apply str_eqb_neq. intros Hb. apply btoa_inj in Hb; try apply hmac_is_byte.
    apply BytesFacts.bytes_eqb_eq in Hb. congruence.
Qed.

End TwilioFacts.

(** The example of Twilio's documentation: auth token 12345. *)
Definition twilio_url : jsstring := js "https://mycompany.com/myapp.php?foo=1&bar=2".
Definition twilio_body : jsstring :=
  js "CallSid=CA1234567890ABCDE&Caller=%2B12349013030&Digits=1234&From=%2B12349013030&To=%2B18005551212".

Example twilio_documented_signature :
  Twilio.expected_signature (js "12345") twilio_url twilio_body
  = js "0/KCTR6DLpKmkAf8muzZqo1nDgQ=".
Proof. vm_compute. reflexivity. Qed.

(** C1, as amended (signature round trip and tamper sensitivity).  For every
    URL, every non-empty secret and every body that does not begin with a
    question mark, in which no key repeats and on whose keys the order by
    code point and the order by UTF-16 code unit agree: verification of
    [sign(url, body, secret)] returns true, where [sign] is
    base64(HMAC-SHA1(secret, url ++ distinct keys sorted by code point, each
    with its first value)); every single-unit mutation of the
    claimed signature is rejected; and for every other body, a single-unit
    mutation of the body among them, verification of that signature returns
    whether HMAC-SHA1 gives what the code signs for the other body the
    digest of the canonical string: so it is accepted whenever the signed
    string is unchanged, and rejected whenever the digests differ. *)
Theorem signature_round_trip (url body secret : jsstring) :
  secret <> [] ->
  hd 0 body <> 63 ->
  TwilioFacts.all_distinct (map fst (TwilioSpec.pairs body)) = true ->
  TwilioFacts.orders_agree (map fst (TwilioSpec.pairs body)) = true ->
  Twilio.verifyTwilio secret (Some (TwilioSpec.sign url body secret)) url body = Some true
  /\ (forall sig,
        Twilio.single_mutation (TwilioSpec.sign url body secret) sig ->
        Twilio.verifyTwilio secret (Some sig) url body = Some false)
  /\ (forall body',
        Twilio.verifyTwilio secret (Some (TwilioSpec.sign url body secret)) url body'
        = Some (bytes_eqb
                  (HMAC.hmac_sha1 (Utf8.encode secret)
                     (Utf8.encode (Twilio.signed_string url body')))
                  (HMAC.hmac_sha1 (Utf8.encode secret)
                     (Utf8.encode (TwilioSpec.canonical url body)))))
  /\ (forall body',
        Twilio.signed_string url body' = TwilioSpec.canonical url body ->
        Twilio.verifyTwilio secret (Some (TwilioSpec.sign url body secret)) url body'
        = Some true).
Proof.
  intros Hsecret Hq Hkeys Horder.
  pose proof (TwilioFacts.signed_is_canonical url body Hq Hkeys Horder) as Hcanon.
  assert (Hdigest : forall body',
             Twilio.verifyTwilio secret (Some (TwilioSpec.sign url body secret)) url body'
             = Some (bytes_eqb
                       (HMAC.hmac_sha1 (Utf8.encode secret)
                          (Utf8.encode (Twilio.signed_string url body')))
                       (HMAC.hmac_sha1 (Utf8.encode secret)
                          (Utf8.encode (TwilioSpec.canonical url body))))).
  { intros body'. unfold TwilioSpec.sign. apply TwilioFacts.verify_digest, Hsecret. }
  split; [|split; [|split]].
  - rewrite Hdigest, Hcanon. f_equal. apply BytesFacts.bytes_eqb_eq. reflexivity.
  - intros sig Hmut.
    rewrite TwilioFacts.verifyTwilio_compares
      by eauto using TwilioFacts.single_mutation_nonempty.
    rewrite (TwilioFacts.expected_is_sign secret url body Hq Hkeys Horder).
    apply TwilioFacts.single_mutation_neq in Hmut.
    apply JSFacts.str_eqb_neq in Hmut. rewrite Hmut. reflexivity.
  - exact Hdigest.
  - intros body' Hsame. rewrite Hdigest, Hsame. f_equal.
    apply BytesFacts.bytes_eqb_eq. reflexivity.
Qed.

Lemma signature_round_trip_witness :
  Twilio.verifyTwilio (js "12345")
    (Some (TwilioSpec.sign twilio_url twilio_body (js "12345"))) twilio_url twilio_body
  = Some true
  /\ (forall sig,
        Twilio.single_mutation (TwilioSpec.sign twilio_url twilio_body (js "12345")) sig ->
        Twilio.verifyTwilio (js "12345") (Some sig) twilio_url twilio_body = Some false)
  /\ (forall body',
        Twilio.verifyTwilio (js "12345")
          (Some (TwilioSpec.sign twilio_url twilio_body (js "12345"))) twilio_url body'
        = Some (bytes_eqb
                  (HMAC.hmac_sha1 (Utf8.encode (js "12345"))
                     (Utf8.encode (Twilio.signed_string twilio_url body')))
                  (HMAC.hmac_sha1 (Utf8.encode (js "12345"))
                     (Utf8.encode (TwilioSpec.canonical twilio_url twilio_body)))))
  /\ (forall body',
        Twilio.signed_string twilio_url body'
        = TwilioSpec.canonical twilio_url twilio_body ->
        Twilio.verifyTwilio (js "12345")
          (Some (TwilioSpec.sign twilio_url twilio_body (js "12345"))) twilio_url body'
        = Some true).
Proof.
  apply (signature_round_trip twilio_url twilio_body (js "12345")).
  - discriminate.
  - vm_compute. discriminate.
  - vm_compute. reflexivity.
  - vm_compute. reflexivity.
Defined.

(** Two keys, U+E000 and U+1F600, percent-encoded: by code point the first
    comes first, by UTF-16 code unit the second, whose units are D83D DE00. *)
Definition astral_body : jsstring := js "%EE%80%80=1&%F0%9F%98%80=2".

(** C1 as stated fails in six places.  Two single-unit mutations of the
    body are accepted, the string that is signed being the same: [Body=%2f]
    to [Body=%2F], which the form decoding undoes, and [a=b&c] to [a&b&c],
    which moves [b] from a value to a key.  With a repeated key the code
    signs the key once per occurrence, so the signature over the distinct
    keys is rejected.  With the keys U+E000 and U+1F600 the code sorts by
    code unit, so the signature over the keys sorted by code point is
    rejected.  A leading question mark is dropped by [new URLSearchParams],
    so the signature over the key [?a] is rejected.  With the empty secret
    [importKey] throws and nothing is returned. *)
Lemma mutated_body_still_verifies :
  (Twilio.single_mutation (js "Body=%2f") (js "Body=%2F")
   /\ Twilio.verifyTwilio (js "12345")
        (Some (TwilioSpec.sign twilio_url (js "Body=%2f") (js "12345")))
        twilio_url (js "Body=%2F")
      = Some true)
  /\ (Twilio.single_mutation (js "a=b&c") (js "a&b&c")
      /\ Twilio.verifyTwilio (js "12345")
           (Some (TwilioSpec.sign twilio_url (js "a=b&c") (js "12345")))
           twilio_url (js "a&b&c")
         = Some true)
  /\ Twilio.verifyTwilio (js "12345")
       (Some (TwilioSpec.sign twilio_url (js "To=1&To=2") (js "12345")))
       twilio_url (js "To=1&To=2")
     = Some false
  /\ Twilio.verifyTwilio (js "12345")
       (Some (TwilioSpec.sign twilio_url astral_body (js "12345")))
       twilio_url astral_body
     = Some false
  /\ Twilio.verifyTwilio (js "12345")
       (Some (TwilioSpec.sign twilio_url (js "?a=1") (js "12345")))
       twilio_url (js "?a=1")
     = Some false
  /\ Twilio.verifyTwilio []
       (Some (TwilioSpec.sign twilio_url twilio_body []))
       twilio_url twilio_body
     = None.
Proof.
  split; [split|split; [split|split; [|split; [|split]]]].
  - vm_compute.
    repeat first [ apply Twilio.mutation_later
                 | apply Twilio.mutation_here; discriminate ].
  - vm_compute. reflexivity.
  - vm_compute.
    repeat first [ apply Twilio.mutation_later
                 | apply Twilio.mutation_here; discriminate ].
  - vm_compute. reflexivity.
  - vm_compute. reflexivity.
  - vm_compute. reflexivity.
  - vm_compute. reflexivity.
  - vm_compute. reflexivity.
Qed.

(** ** handle-inbound-sms: the webhook handler *)

Module InboundSms.

Record subscriber := {
  sub_id : jsstring;
  sub_name : jsstring;
  sub_phone : jsstring;
  sub_pin_code : option jsstring;
  sub_how_met : option jsstring;
  sub_active : bool
}.

(** The tables the handler touches. *)
Record store := {
  subscribers : list subscriber;
  inbound_sms : list (jsstring * jsstring);      (* from_number, body *)
  pins : list (jsstring * option jsstring)       (* code, label *)
}.

Record request := {
  req_url : jsstring;
  x_twilio_signature : option jsstring;
  cf_connecting_ip : option jsstring;
  req_text : jsstring                             (* [await req.text()] *)
}.

Record response := { status : Z; content_type : option jsstring; body : jsstring }.

(** What the handler does to the world, in order: queries to the store, and
    the warning it logs. *)
Inductive event :=
| SelectSubscribers
| UpdateActive (id : jsstring) (active : bool)
| InsertInbound (from body : jsstring)
| UpsertPin (code : jsstring) (label : option jsstring)
| UpsertSubscriber (row : subscriber)
| ConsoleWarn (ip : option jsstring).

Definition is_query (e : event) : bool :=
  match e with ConsoleWarn _ => false | _ => true end.

(** A handler either returns or throws, and leaves a store and a trace. *)
Inductive result (A : Type) := Returned (a : A) | Thrown.
Arguments Returned {A} a.
Arguments Thrown {A}.

Definition M (A : Type) : Type := store -> result A * store * list event.
Definition ret {A} (a : A) : M A := fun st => (Returned a, st, []).
Definition throw {A} : M A := fun st => (Thrown, st, []).
Definition bind {A B} (m : M A) (k : A -> M B) : M B :=
  fun st =>
    match m st with
    | (Returned a, st1, t1) => let '(b, st2, t2) := k a st1 in (b, st2, t1 ++ t2)
    | (Thrown, st1, t1) => (Thrown, st1, t1)
    end.

Notation "'perform' x <- m ; k" := (bind m (fun x => k))
  (at level 10, x name, m at level 100, k at level 200).
Notation "'run' m ; k" := (bind m (fun _ => k))
  (at level 10, m at level 100, k at level 200).

Definition console_warn (ip : option jsstring) : M unit :=
  fun st => (Returned tt, st, [ConsoleWarn ip]).

(** [admin.from('subscribers').select('id, phone')] *)
Definition select_subscribers : M (list subscriber) :=
  fun st => (Returned (subscribers st), st, [SelectSubscribers]).

(** [admin.from('subscribers').update({ active }).eq('id', id)] *)
Definition update_active (id : jsstring) (active : bool) : M unit :=
  fun st =>
    (Returned tt,
     {| subscribers :=
          map (fun s =>
                 if str_eqb (sub_id s) id then
                   {| sub_id := sub_id s; sub_name := sub_name s;
                      sub_phone := sub_phone s; sub_pin_code := sub_pin_code s;
                      sub_how_met := sub_how_met s; sub_active := active |}
                 else s)
              (subscribers st);
        inbound_sms := inbound_sms st; pins := pins st |},
     [UpdateActive id active]).

(** [admin.from('inbound_sms').insert({ from_number, body })] *)
Definition insert_inbound (from body : jsstring) : M unit :=
  fun st =>
    (Returned tt,
     {| subscribers := subscribers st;
        inbound_sms := inbound_sms st ++ [(from, body)];
        pins := pins st |},
     [InsertInbound from body]).

Fixpoint upsert_assoc {V} (k : jsstring) (v : V) (l : list (jsstring * V)) :=
  match l with
  | [] => [(k, v)]
  | (k', v') :: r => if str_eqb k' k then (k, v) :: r else (k', v') :: upsert_assoc k v r
  end.

(** [admin.from('pins').upsert({ code, label }, { onConflict: 'code' })] *)
Definition upsert_pin (code : jsstring) (label : option jsstring) : M unit :=
  fun st =>
    (Returned tt,
     {| subscribers := subscribers st; inbound_sms := inbound_sms st;
        pins := upsert_assoc code label (pins st) |},
     [UpsertPin code label]).

Fixpoint upsert_by_phone (row : subscriber) (l : list subscriber) : list subscriber :=
  match l with
  | [] => [row]
  | s :: r =>
      if str_eqb (sub_phone s) (sub_phone row) then
        {| sub_id := sub_id s; sub_name := sub_name row; sub_phone := sub_phone row;
           sub_pin_code := sub_pin_code row; sub_how_met := sub_how_met row;
           sub_active := sub_active row |} :: r
      else s :: upsert_by_phone row r
  end.

(** [admin.from('subscribers').upsert(row, { onConflict: 'phone' })]; the
    store's answer is [refusal]: an error message, and then nothing is
    written. *)
Definition upsert_subscriber (refusal : option jsstring) (row : subscriber)
    : M (option jsstring) :=
  fun st =>
    (Returned refusal,
     match refusal with
     | Some _ => st
     | None =>
         {| subscribers := upsert_by_phone row (subscribers st);
            inbound_sms := inbound_sms st; pins := pins st |}
     end,
     [UpsertSubscriber row]).

(** *** E.164 normalisation *)

Definition isDigit (u : Z) : bool := (48 <=? u) && (u <=? 57).

(** [/[\s\-\.\(\)]/] *)
Definition isSeparator (u : Z) : bool :=
  isStrWhiteSpaceChar u || (u =? 45) || (u =? 46) || (u =? 40) || (u =? 41).

Definition normalisePhone (raw : jsstring) : option jsstring :=
  let stripped := List.filter (fun u => negb (isSeparator u)) (trim raw) in
  let plus := match stripped with u :: _ => u =? 43 | [] => false end in
  let digits := if plus then skipn 1 stripped else stripped in
  let n := Z.of_nat (length digits) in
  if negb (forallb isDigit digits && (7 <=? n) && (n <=? 15)) then None
  else if plus then Some stripped
  else if n =? 10 then Some (js "+1" ++ digits)
  else if (n =? 11) && (match digits with u :: _ => u =? 49 | [] => false end)
  then Some (js "+" ++ digits)
  else Some (js "+" ++ digits).

(** The reply of the language model, at its declared shape. *)
Record parsed := {
  p_name : option jsstring;
  p_phone : option jsstring;
  p_how_met : option jsstring
}.

Definition truthy (v : option jsstring) : bool :=
  match v with Some (_ :: _) => true | _ => false end.

(** [`${v}`] *)
Definition interpolate (v : option jsstring) : jsstring :=
  match v with Some s => s | None => js "null" end.

Definition twiml (xml : jsstring) : response :=
  {| status := 200; content_type := Some (js "text/xml"); body := xml |}.

Definition message (text : jsstring) : jsstring :=
  js "<Response><Message>" ++ text ++ js "</Message></Response>".

(** What one run draws from [crypto.getRandomValues] and is told by the
    store. *)
Record inputs := {
  pin_bytes : byte * byte * byte * byte;
  iv_name : bytes;
  iv_phone : bytes;
  iv_how_met : bytes;
  new_id : jsstring;
  upsert_refusal : option jsstring
}.

Section Handler.

Variable TWILIO_AUTH_TOKEN : jsstring.
Variable ANTHONY_PHONE : jsstring.
Variable ENCRYPTION_KEY : jsstring.

(** [String.prototype.toUpperCase] and the call to the language model. *)
Variable toUpperCase : jsstring -> jsstring.
Variable parseSubscriber : jsstring -> parsed.

(** The loop of the STOP and START branches: decrypt each phone, set the
    flag of the first row that matches, and stop. *)
Fixpoint match_loop (active : bool) (from : jsstring) (subs : list subscriber) : M unit :=
  match subs with
  | [] => ret tt
  | s :: r =>
      if str_eqb (Envelope.decrypt ENCRYPTION_KEY (sub_phone s)) from then
        update_active (sub_id s) active
      else match_loop active from r
  end.

Definition encrypt_or_throw (iv : bytes) (text : jsstring) : M jsstring :=
  match Envelope.encrypt ENCRYPTION_KEY iv text with
  | Some e => ret e
  | None => throw
  end.

Definition add_subscriber (rnd : inputs) (from body : jsstring) : M response :=
  let parsed := parseSubscriber body in
  if negb (truthy (p_name parsed)) && negb (truthy (p_phone parsed)) then
    run insert_inbound from body;
    ret (twiml (message (js "Stored. Didn't look like a subscriber " ++ [8212]
                         ++ js " check admin.")))
  else
    match (match p_phone parsed with
           | Some (u :: p) => normalisePhone (u :: p)
           | _ => None
           end) with
    | None =>
        ret (twiml (message (js "Got " ++ [34] ++ interpolate (p_name parsed) ++ [34]
                             ++ js " but couldn't parse a phone. Try: Name +1234567890 context.")))
    | Some e164 =>
        let '(b0, b1, b2, b3) := pin_bytes rnd in
        let pin := Pin.generatePin b0 b1 b2 b3 in
        perform encName <-
          encrypt_or_throw (iv_name rnd)
            (match p_name parsed with Some n => n | None => [] end);
        perform encPhone <- encrypt_or_throw (iv_phone rnd) e164;
        perform encHowMet <-
          (match p_how_met parsed with
           | Some (u :: h) =>
               perform e <- encrypt_or_throw (iv_how_met rnd) (u :: h); ret (Some e)
           | _ => ret None
           end);
        run upsert_pin pin (p_name parsed);
        perform error <-
          upsert_subscriber (upsert_refusal rnd)
            {| sub_id := new_id rnd; sub_name := encName; sub_phone := encPhone;
               sub_pin_code := Some pin; sub_how_met := encHowMet;
               sub_active := true |};
        match error with
        | Some msg => ret (twiml (message (js "Error: " ++ msg)))
        | None =>
            let ctx :=
              if truthy (p_how_met parsed)
              then [10] ++ js "Context: " ++ interpolate (p_how_met parsed)
              else [] in
            ret (twiml (message
              ([10003] ++ js " Added " ++ interpolate (p_name parsed) ++ js " ("
               ++ e164 ++ js ")" ++ ctx ++ [10; 10] ++ js "PIN: " ++ pin ++ [10; 10]
               ++ js "Share: " ++ [34] ++ js "machu.la " ++ [8212] ++ js " PIN is "
               ++ pin ++ [34])))
        end
    end.

(** The handler passed to [serve]. *)
Definition handler (rnd : inputs) (req : request) : M response :=
  let rawBody := req_text req in
  match Twilio.verifyTwilio TWILIO_AUTH_TOKEN (x_twilio_signature req)
          (req_url req) rawBody with
  | None => throw
  | Some false =>
      run console_warn (cf_connecting_ip req);
      ret {| status := 403; content_type := None; body := js "Forbidden" |}
  | Some true =>
      let params := Form.URLSearchParams rawBody in
      let from := match Form.get (js "From") params with Some v => trim v | None => [] end in
      let body := match Form.get (js "Body") params with Some v => trim v | None => [] end in
      let cmd := toUpperCase body in
      if existsb (str_eqb cmd)
           [js "STOP"; js "STOPALL"; js "UNSUBSCRIBE"; js "CANCEL"; js "END"; js "QUIT"]
      then
        perform subs <- select_subscribers;
        run match_loop false from subs;
        ret (twiml (message (js "You've been unsubscribed. Reply START anytime.")))
      else if existsb (str_eqb cmd) [js "START"; js "YES"; js "UNSTOP"] then
        perform subs <- select_subscribers;
        run match_loop true from subs;
        ret (twiml (message (js "You're back on the list.")))
      else if str_eqb from ANTHONY_PHONE then add_subscriber rnd from body
      else
        run insert_inbound from body;
        ret (twiml (js "<Response></Response>"))
  end.

(** The record the loop settles on: the first whose decrypted phone is the
    target. *)
Definition findByPlaintextIdentifier (candidates : list subscriber) (target : jsstring)
    : option subscriber :=
  List.find (fun s => str_eqb (Envelope.decrypt ENCRYPTION_KEY (sub_phone s)) target)
            candidates.

End Handler.

End InboundSms.

Module InboundFacts.
Import InboundSms JSFacts.

Section Matcher.
Variable KEY : jsstring.

Definition decrypts_to (target : jsstring) (s : subscriber) : Prop :=
  Envelope.decrypt KEY (sub_phone s) = target.

Lemma find_first candidates target r :
  findByPlaintextIdentifier KEY candidates target = Some r ->
  exists before after,
    candidates = before ++ r :: after
    /\ decrypts_to target r
    /\ Forall (fun c => ~ decrypts_to target c) before.
Proof.
  unfold findByPlaintextIdentifier, decrypts_to.
  induction candidates as [|c cs IH]; [discriminate|]. cbn [find].
  destruct (str_eqb (Envelope.decrypt KEY (sub_phone c)) target) eqn:Hc.
  - intros [= ->]. exists [], cs. apply str_eqb_eq in Hc. auto.
  - intros Hfind. destruct (IH Hfind) as (before & after & -> & Hr & Hb).
    exists (c :: before), after. split; [reflexivity|]. split; [assumption|].
    constructor; [apply str_eqb_neq, Hc|assumption].
Qed.

Lemma find_none candidates target :
  findByPlaintextIdentifier KEY candidates target = None <->
  Forall (fun c => ~ decrypts_to target c) candidates.
Proof.
  unfold findByPlaintextIdentifier, decrypts_to.
  induction candidates as [|c cs IH]; cbn [find].
  - split; [constructor|reflexivity].
  - destruct (str_eqb (Envelope.decrypt KEY (sub_phone c)) target) eqn:Hc.
    + split; [discriminate|]. intros H. inversion H as [|? ? Hne _]; subst.
      apply str_eqb_eq in Hc. contradiction.
    + rewrite IH. apply str_eqb_neq in Hc. split.
      * intros H. constructor; assumption.
      * intros H. inversion H; assumption.
Qed.

(** The loop of the handler updates the record the matcher finds, and
    nothing when there is none. *)
Lemma match_loop_find active target candidates st :
  match_loop KEY active target candidates st
  = match findByPlaintextIdentifier KEY candidates target with
    | Some r => update_active (sub_id r) active st
    | None => (Returned tt, st, [])
    end.
Proof.
  unfold findByPlaintextIdentifier.
  induction candidates as [|c cs IH]; [reflexivity|]. cbn [match_loop find].
  destruct (str_eqb (Envelope.decrypt KEY (sub_phone c)) target); [reflexivity|].
  apply IH.
Qed.

End Matcher.
End InboundFacts.

(** C7 (identity matching). The matcher scans the candidates in order,
    decrypting each phone with the envelope codec, and settles on the first
    record whose decrypted value equals the target exactly, unit for unit
    with no normalisation; when no decrypted value equals the target there
    is no match, and the handler's loop then returns normally without a
    write. *)
Theorem identity_match (KEY : jsstring)
    (candidates : list InboundSms.subscriber) (target : jsstring) :
  match InboundSms.findByPlaintextIdentifier KEY candidates target with
  | Some r =>
      exists before after,
        candidates = before ++ r :: after
        /\ Envelope.decrypt KEY (InboundSms.sub_phone r) = target
        /\ Forall (fun c => Envelope.decrypt KEY (InboundSms.sub_phone c) <> target)
                  before
  | None =>
      Forall (fun c => Envelope.decrypt KEY (InboundSms.sub_phone c) <> target)
             candidates
  end
  /\ (forall active st,
        InboundSms.match_loop KEY active target candidates st
        = match InboundSms.findByPlaintextIdentifier KEY candidates target with
          | Some r => InboundSms.update_active (InboundSms.sub_id r) active st
          | None => (InboundSms.Returned tt, st, [])
          end).
Proof.
  split.
  - destruct (InboundSms.findByPlaintextIdentifier KEY candidates target) as [r|] eqn:Hf.
    + apply InboundFacts.find_first in Hf. exact Hf.
    + apply InboundFacts.find_none in Hf. exact Hf.
  - intros active st. apply InboundFacts.match_loop_find.
Qed.

(** Three subscribers whose phones are stored encrypted under the zero key. *)
Definition sealed (iv : bytes) (text : jsstring) : jsstring :=
  match Envelope.encrypt zero_key iv text with
  | Some e => e
  | None => []
  end.

Definition row (id : string) (iv : bytes) (phone : string) : InboundSms.subscriber :=
  {| InboundSms.sub_id := js id;
     InboundSms.sub_name := sealed (repeat 7 12) (js "name");
     InboundSms.sub_phone := sealed iv (js phone);
     InboundSms.sub_pin_code := None;
     InboundSms.sub_how_met := None;
     InboundSms.sub_active := true |}.

Definition three_subscribers : list InboundSms.subscriber :=
  [row "id-1" (repeat 1 12) "+16475551234";
   row "id-2" (repeat 2 12) "+4917612345";
   row "id-3" (repeat 3 12) "+13065559999"].

(** The example of the design document. *)
Example identity_match_example :
  option_map InboundSms.sub_id
    (InboundSms.findByPlaintextIdentifier zero_key three_subscribers (js "+4917612345"))
  = Some (js "id-2")
  /\ InboundSms.findByPlaintextIdentifier zero_key three_subscribers (js "+10000000000")
     = None
  /\ InboundSms.findByPlaintextIdentifier zero_key three_subscribers (js "+4917612345 ")
     = None.
Proof. vm_compute. auto. Qed.

(** C3 (rejection touches nothing). When signature verification returns
    false the handler answers 403 with the body [Forbidden] and nothing
    else, the store is unchanged, and its only effect is the warning it
    logs: no query is sent, so no subscriber, inbound_sms or pins row is
    read or written. *)
Theorem rejected_request_touches_nothing
    (TWILIO_AUTH_TOKEN ANTHONY_PHONE ENCRYPTION_KEY : jsstring)
    (toUpperCase : jsstring -> jsstring)
    (parseSubscriber : jsstring -> InboundSms.parsed)
    (rnd : InboundSms.inputs) (req : InboundSms.request) (st : InboundSms.store) :
  Twilio.verifyTwilio TWILIO_AUTH_TOKEN (InboundSms.x_twilio_signature req)
    (InboundSms.req_url req) (InboundSms.req_text req) = Some false ->
  exists trace,
    InboundSms.handler TWILIO_AUTH_TOKEN ANTHONY_PHONE ENCRYPTION_KEY toUpperCase
      parseSubscriber rnd req st
    = (InboundSms.Returned
         {| InboundSms.status := 403; InboundSms.content_type := None;
            InboundSms.body := js "Forbidden" |},
       st, trace)
    /\ List.filter InboundSms.is_query trace = [].
Proof.
  intros Hverify. unfold InboundSms.handler. rewrite Hverify.
  eexists. split; reflexivity.
Qed.

(** A deployment for examples: the documentation's token, the zero key, an
    oracle that finds nothing, and a STOP sent by the second subscriber. *)
Definition sample_inputs : InboundSms.inputs :=
  {| InboundSms.pin_bytes := ("255"%byte, "255"%byte, "255"%byte, "255"%byte);
     InboundSms.iv_name := repeat 4 12;
     InboundSms.iv_phone := repeat 5 12;
     InboundSms.iv_how_met := repeat 6 12;
     InboundSms.new_id := js "id-4";
     InboundSms.upsert_refusal := None |}.

Definition no_subscriber : jsstring -> InboundSms.parsed :=
  fun _ => {| InboundSms.p_name := None; InboundSms.p_phone := None;
              InboundSms.p_how_met := None |}.

Definition sample_handler :=
  InboundSms.handler (js "12345") (js "+15550000000") zero_key toUpperCase_ascii
    no_subscriber sample_inputs.

Definition sample_store : InboundSms.store :=
  {| InboundSms.subscribers := three_subscribers;
     InboundSms.inbound_sms := [];
     InboundSms.pins := [] |}.

Definition webhook_url : jsstring := js "https://machu.la/functions/v1/handle-inbound-sms".
Definition stop_body : jsstring := js "From=%2B4917612345&Body=stop".

Definition stop_request (signature : jsstring) : InboundSms.request :=
  {| InboundSms.req_url := webhook_url;
     InboundSms.x_twilio_signature := Some signature;
     InboundSms.cf_connecting_ip := None;
     InboundSms.req_text := stop_body |}.

Definition stop_signature : jsstring :=
  Twilio.expected_signature (js "12345") webhook_url stop_body.

(** The signature with its first character replaced by ['!']. *)
Definition tampered_signature : jsstring := 33 :: skipn 1 stop_signature.

(** The end-to-end scenario of the design document: with a valid signature
    the STOP of a known number reads the subscribers and clears the flag of
    the matching record alone. *)
Example stop_unsubscribes :
  match sample_handler (stop_request stop_signature) sample_store with
  | (InboundSms.Returned r, st, trace) =>
      InboundSms.status r = 200
      /\ map (fun s => (InboundSms.sub_id s, InboundSms.sub_active s))
             (InboundSms.subscribers st)
         = [(js "id-1", true); (js "id-2", false); (js "id-3", true)]
      /\ trace = [InboundSms.SelectSubscribers; InboundSms.UpdateActive (js "id-2") false]
  | _ => False
  end.
Proof. vm_compute. auto. Qed.

Lemma rejected_request_touches_nothing_witness :
  exists trace,
    sample_handler (stop_request tampered_signature) sample_store
    = (InboundSms.Returned
         {| InboundSms.status := 403; InboundSms.content_type := None;
            InboundSms.body := js "Forbidden" |},
       sample_store, trace)
    /\ List.filter InboundSms.is_query trace = [].
Proof.
  apply (rejected_request_touches_nothing (js "12345") (js "+15550000000") zero_key
           toUpperCase_ascii no_subscriber sample_inputs
           (stop_request tampered_signature) sample_store).
  vm_compute. reflexivity.
Defined.

(** * Further properties of the code *)

(** ** Phone normalisation
    [normalisePhone] of handle-inbound-sms and broadcast-sms (the same
    code). *)

Module PhoneFacts.
Import InboundSms.

Definition notSeparator (u : Z) : bool := negb (isSeparator u).

(** A plus sign followed by 7 to 15 ASCII digits. *)
Definition e164_shape (e : jsstring) : bool :=
  match e with
  | u :: ds =>
      (u =? 43) && forallb isDigit ds
      && (7 <=? Z.of_nat (length ds)) && (Z.of_nat (length ds) <=? 15)
  | [] => false
  end.

Lemma filter_trimStart s :
  List.filter notSeparator (trimStart s) = List.filter notSeparator s.
Proof.
  induction s as [|u s IH]; [reflexivity|]. cbn [trimStart].
  destruct (isStrWhiteSpaceChar u) eqn:Hu; [|reflexivity].
  cbn [List.filter]. unfold notSeparator at 2, isSeparator. rewrite Hu.
  cbn [orb negb]. exact IH.
Qed.

Lemma filter_trim s :
  List.filter notSeparator (trim s) = List.filter notSeparator s.
Proof.
  unfold trim, trimEnd.
  rewrite List.filter_rev, filter_trimStart, <- List.filter_rev, rev_involutive.
  apply filter_trimStart.
Qed.

Lemma filter_idempotent (s : jsstring) :
  List.filter notSeparator (List.filter notSeparator s) = List.filter notSeparator s.
Proof.
  induction s as [|u s IH]; [reflexivity|]. cbn [List.filter].
  destruct (notSeparator u) eqn:Hu; [|exact IH].
  cbn [List.filter]. rewrite Hu, IH. reflexivity.
Qed.

(** The result depends on the input without its separators only. *)
Lemma normalisePhone_stripped raw :
  normalisePhone raw = normalisePhone (List.filter notSeparator raw).
Proof.
  unfold normalisePhone. fold notSeparator.
  rewrite !filter_trim, filter_idempotent. reflexivity.
Qed.

Lemma digit_not_separator u : isDigit u = true -> notSeparator u = true.
Proof.
  unfold isDigit, notSeparator, isSeparator, isStrWhiteSpaceChar, isWhiteSpace,
    isLineTerminator.
  intros H. apply andb_prop in H as [H1 H2]. apply Z.leb_le in H1, H2.
  repeat match goal with
  | |- context [?a =? ?b] =>
      replace (a =? b) with false by (symmetry; apply Z.eqb_neq; lia)
  end.
  replace (8192 <=? u) with false by (symmetry; apply Z.leb_gt; lia).
  reflexivity.
Qed.

Lemma filter_digits ds :
  forallb isDigit ds = true -> List.filter notSeparator ds = ds.
Proof.
  induction ds as [|d ds IH]; [reflexivity|]. cbn [forallb List.filter].
  intros H. apply andb_prop in H as [Hd Hds].
  rewrite digit_not_separator, IH by assumption. reflexivity.
Qed.

Lemma shape_stripped e :
  e164_shape e = true -> List.filter notSeparator e = e.
Proof.
  destruct e as [|u ds]; [discriminate|]. cbn [e164_shape].
  intros H. repeat (apply andb_prop in H as [H ?]).
  apply Z.eqb_eq in H. subst u. cbn [List.filter].
  change (notSeparator 43) with true. cbv iota. rewrite filter_digits by assumption.
  reflexivity.
Qed.

(** What [normalisePhone] answers for an input that holds no separator. *)
Lemma normalisePhone_of_shape e :
  e164_shape e = true -> normalisePhone e = Some e.
Proof.
  intros Hshape. rewrite normalisePhone_stripped.
  rewrite (shape_stripped e Hshape).
  unfold normalisePhone. fold notSeparator.
  rewrite filter_trim, (shape_stripped e Hshape).
  destruct e as [|u ds]; [discriminate|]. cbn [e164_shape] in Hshape.
  repeat (apply andb_prop in Hshape as [Hshape ?]).
  rewrite Hshape. cbv zeta. change (skipn 1 (u :: ds)) with ds.
  rewrite H1, H0, H. reflexivity.
Qed.

Lemma normalisePhone_shape raw e :
  normalisePhone raw = Some e -> e164_shape e = true.
Proof.
  unfold normalisePhone. fold notSeparator. cbv zeta.
  destruct (List.filter notSeparator (trim raw)) as [|u rest].
  - cbn [forallb length Z.of_nat andb Z.leb Z.compare negb]. discriminate.
  - destruct (u =? 43) eqn:Hu.
    + change (skipn 1 (u :: rest)) with rest.
      destruct (forallb isDigit rest && (7 <=? Z.of_nat (length rest))
                && (Z.of_nat (length rest) <=? 15)) eqn:Hok; cbn [negb];
        [|discriminate].
      intros [= <-]. cbn [e164_shape]. rewrite Hu. cbn [andb]. exact Hok.
    + destruct (forallb isDigit (u :: rest) && (7 <=? Z.of_nat (length (u :: rest)))
                && (Z.of_nat (length (u :: rest)) <=? 15)) eqn:Hok; cbn [negb];
        [|discriminate].
      apply andb_prop in Hok as [Hok H15]. apply andb_prop in Hok as [Hdig H7].
      apply Z.leb_le in H7, H15.
      destruct (Z.of_nat (length (u :: rest)) =? 10) eqn:H10.
      * intros [= <-]. apply Z.eqb_eq in H10.
        change (js "+1" ++ u :: rest) with (43 :: 49 :: u :: rest).
        cbn [e164_shape].
        change (Z.of_nat (nat_of_ascii "+")) with 43.
        change (Z.of_nat (nat_of_ascii "1")) with 49.
        change (forallb isDigit (49 :: u :: rest))
          with (forallb isDigit (u :: rest)).
        rewrite Z.eqb_refl, Hdig. cbn [andb].
        apply andb_true_intro; split; apply Z.leb_le;
          cbn [length] in *; lia.
      * assert (Hres : e164_shape (js "+" ++ u :: rest) = true).
        { change (js "+" ++ u :: rest) with (43 :: u :: rest).
          cbn [e164_shape]. change (Z.of_nat (nat_of_ascii "+")) with 43.
          rewrite Z.eqb_refl, Hdig. cbn [andb].
          apply andb_true_intro; split; apply Z.leb_le; assumption. }
        destruct ((Z.of_nat (length (u :: rest)) =? 11) && _);
          intros [= <-]; exact Hres.
Qed.

End PhoneFacts.

(** X1 (E.164 shape). Whatever [normalisePhone] returns is a plus sign
    followed by 7 to 15 ASCII digits, and normalising it again returns it
    unchanged. *)
Theorem normalisePhone_e164 (raw e : jsstring) :
  InboundSms.normalisePhone raw = Some e ->
  PhoneFacts.e164_shape e = true /\ InboundSms.normalisePhone e = Some e.
Proof.
  intros H. apply PhoneFacts.normalisePhone_shape in H.
  split; [assumption|]. apply PhoneFacts.normalisePhone_of_shape, H.
Qed.

Lemma normalisePhone_e164_witness :
  PhoneFacts.e164_shape (js "+16475551234") = true
  /\ InboundSms.normalisePhone (js "+16475551234") = Some (js "+16475551234").
Proof.
  apply (normalisePhone_e164 (js " (647) 555-1234 ") (js "+16475551234")).
  vm_compute. reflexivity.
Defined.

(** X2 (separators are insignificant). Two inputs that differ only in white
    space, hyphens, dots and parentheses normalise to the same result. *)
Theorem normalisePhone_ignores_separators (a b : jsstring) :
  List.filter PhoneFacts.notSeparator a = List.filter PhoneFacts.notSeparator b ->
  InboundSms.normalisePhone a = InboundSms.normalisePhone b.
Proof.
  intros H. rewrite (PhoneFacts.normalisePhone_stripped a),
    (PhoneFacts.normalisePhone_stripped b), H. reflexivity.
Qed.

Lemma normalisePhone_ignores_separators_witness :
  InboundSms.normalisePhone (js "+49 (176) 123-45.67")
  = InboundSms.normalisePhone (js "+491761234567").
Proof.
  apply (normalisePhone_ignores_separators
           (js "+49 (176) 123-45.67") (js "+491761234567")).
  vm_compute. reflexivity.
Defined.

(** ** The envelope format *)

Module EnvelopeShape.
Import Envelope Hex BytesFacts.

Definition is_lower_hex (u : Z) : bool :=
  ((48 <=? u) && (u <=? 57)) || ((97 <=? u) && (u <=? 102)).

Definition is_hex (u : Z) : bool :=
  match hexval u with Some _ => true | None => false end.

Definition is_unit (u : Z) : Prop := 0 <= u < 65536.

Lemma every_byte_lower_hex :
  Range.all_below 256
    (fun x => forallb is_lower_hex (toHex_byte x) && (length (toHex_byte x) =? 2)%nat)
  = true.
Proof. vm_compute. reflexivity. Qed.

Lemma toHex_lower b : Forall is_byte b -> forallb is_lower_hex (toHex b) = true.
Proof.
  induction 1 as [|x b Hx Hb IH]; [reflexivity|].
  unfold toHex in *. cbn [flat_map]. rewrite forallb_app, IH, andb_true_r.
  pose proof (Range.all_below_spec _ _ every_byte_lower_hex x Hx) as H.
  cbv beta in H. apply andb_prop in H as [H _]. exact H.
Qed.

Lemma toHex_length b : Forall is_byte b -> length (toHex b) = (2 * length b)%nat.
Proof.
  induction 1 as [|x b Hx Hb IH]; [reflexivity|].
  unfold toHex in *. cbn [flat_map]. rewrite length_app, IH.
  pose proof (Range.all_below_spec _ _ every_byte_lower_hex x Hx) as H.
  cbv beta in H. apply andb_prop in H as [_ H]. apply Nat.eqb_eq in H.
  rewrite H. cbn [length]. lia.
Qed.

(** [encode] yields bytes for every string, paired surrogates or not. *)
Lemma encode_units_is_byte (s : jsstring) :
  Forall is_unit s -> Forall is_byte (Utf8.encode s).
Proof.
  induction s as [s IH] using Utf8Facts.well_formed_length_ind. intros Hs.
  assert (Hrep : Forall is_byte (Utf8.utf8_bytes 65533))
    by (apply Utf8Facts.utf8_bytes_is_byte; lia).
  destruct s as [|u r]; [constructor|]. cbn [Utf8.encode].
  inversion Hs as [|? ? Hu Hr]; subst.
  assert (IHr : Forall is_byte (Utf8.encode r)) by (apply IH; [simpl; lia|assumption]).
  destruct (Utf8.isHighSurrogate u) eqn:Hh.
  - destruct r as [|l r']; [assumption|].
    destruct (Utf8.isLowSurrogate l) eqn:Hl.
    + apply Forall_app. split.
      * apply Utf8Facts.utf8_bytes_is_byte.
        apply (Utf8Facts.pair_scalar u l Hh Hl).
      * apply IH; [simpl; lia|]. inversion Hr; assumption.
    + apply Forall_app. split; assumption.
  - destruct (Utf8.isLowSurrogate u); apply Forall_app; split; try assumption.
    apply Utf8Facts.utf8_bytes_is_byte. unfold is_unit in Hu. lia.
Qed.

Lemma hex_not_line_terminator u : is_hex u = true -> isLineTerminator u = false.
Proof.
  unfold is_hex, hexval, isLineTerminator.
  destruct ((48 <=? u) && (u <=? 57)) eqn:H1;
    [|destruct ((97 <=? u) && (u <=? 102)) eqn:H2;
      [|destruct ((65 <=? u) && (u <=? 70)) eqn:H3; [|discriminate]]];
    intros _;
    match goal with H : (_ && _) = true |- _ =>
      apply andb_prop in H as [Ha Hb]; apply Z.leb_le in Ha, Hb end;
    repeat match goal with
    | |- context [?a =? ?b] =>
        replace (a =? b) with false by (symmetry; apply Z.eqb_neq; lia)
    end; reflexivity.
Qed.

(** A text without line terminators is cut into pairs from the left, a last
    odd unit being dropped. *)
Lemma match_pairs_length (s : jsstring) :
  forallb (fun u => negb (isLineTerminator u)) s = true ->
  length (match_pairs s) = Nat.div2 (length s).
Proof.
  induction s as [s IH] using Utf8Facts.well_formed_length_ind. intros Hs.
  destruct s as [|a [|b r]]; [reflexivity..|].
  cbn [forallb] in Hs. apply andb_prop in Hs as [Ha Hs].
  apply andb_prop in Hs as [Hb Hr]. apply negb_true_iff in Ha, Hb.
  cbn [match_pairs]. rewrite Ha, Hb. cbn [orb length Nat.div2].
  rewrite IH; [reflexivity|simpl; lia|assumption].
Qed.

Lemma fromHex_is_byte h b : fromHex h = Some b -> Forall is_byte b.
Proof.
  unfold fromHex. destruct (match_2g h) as [pairs|]; [|discriminate].
  intros [= <-]. induction pairs as [|p ps IH]; constructor; [|exact IH].
  unfold toUint8, is_byte. destruct (parseInt16 p); [|lia].
  apply Z.mod_pos_bound. lia.
Qed.

End EnvelopeShape.

(** X3 (envelope shape). Whatever [encrypt] returns is 24 lower-case
    hexadecimal digits, one colon, and two lower-case hexadecimal digits for
    each byte of the UTF-8 text and of the 16-byte tag; so it holds the
    delimiter and is never read as a legacy plaintext. *)
Theorem envelope_shape (K : jsstring) (iv : bytes) (s envelope : jsstring) :
  Envelope.encrypt K iv s = Some envelope ->
  length iv = 12%nat -> Forall is_byte iv -> Forall EnvelopeShape.is_unit s ->
  exists nonce sealed,
    envelope = nonce ++ 58 :: sealed
    /\ length nonce = 24%nat
    /\ length sealed = (2 * (length (Utf8.encode s) + 16))%nat
    /\ forallb EnvelopeShape.is_lower_hex nonce = true
    /\ forallb EnvelopeShape.is_lower_hex sealed = true
    /\ includes 58 envelope = true.
Proof.
  unfold Envelope.encrypt. destruct (Envelope.getAesKey K) as [key|]; [|discriminate].
  intros [= <-] Hlen Hiv Hs.
  set (ct := GCM.encrypt (GCM.aes key) iv (Utf8.encode s)).
  assert (Hct : Forall is_byte ct).
  { apply GCMFacts.encrypt_is_byte, EnvelopeShape.encode_units_is_byte, Hs. }
  exists (Hex.toHex iv), (Hex.toHex ct). split; [reflexivity|].
  rewrite !EnvelopeShape.toHex_length, !EnvelopeShape.toHex_lower by assumption.
  unfold ct at 1. rewrite GCMFacts.encrypt_length, Hlen.
  repeat split.
  rewrite HexFacts.includes_app. unfold includes at 2. cbn [app existsb].
  rewrite Z.eqb_refl. apply orb_true_r.
Qed.

(** The envelope of a phone number under the zero key and [sample_iv]. *)
Definition sealed_phone : jsstring :=
  Eval vm_compute in
    match Envelope.encrypt zero_key sample_iv (js "+16475551234") with
    | Some e => e
    | None => []
    end.

Lemma envelope_shape_witness :
  exists nonce sealed,
    sealed_phone = nonce ++ 58 :: sealed
    /\ length nonce = 24%nat
    /\ length sealed = (2 * (length (Utf8.encode (js "+16475551234")) + 16))%nat
    /\ forallb EnvelopeShape.is_lower_hex nonce = true
    /\ forallb EnvelopeShape.is_lower_hex sealed = true
    /\ includes 58 sealed_phone = true.
Proof.
  apply (envelope_shape zero_key sample_iv (js "+16475551234") sealed_phone).
  - vm_compute. reflexivity.
  - reflexivity.
  - repeat constructor; vm_compute; discriminate.
  - repeat constructor; vm_compute; discriminate.
Defined.

Module EnvelopeMore.
Import Envelope.

(** The nonce can be read off an envelope. *)
Lemma nonce_of_envelope (nonce : bytes) :
  Forall is_byte nonce -> nonce <> [] ->
  forall tail,
    Hex.fromHex (hd [] (split 58 (Hex.toHex nonce ++ 58 :: tail))) = Some nonce.
Proof.
  intros Hb Hne tail.
  rewrite HexFacts.split_at_sep by (apply HexFacts.toHex_no_colon; assumption).
  cbn [hd]. apply HexFacts.fromHex_toHex; assumption.
Qed.

Lemma envelopes_differ K iv1 iv2 s1 s2 e1 e2 :
  encrypt K iv1 s1 = Some e1 -> encrypt K iv2 s2 = Some e2 ->
  Forall is_byte iv1 -> Forall is_byte iv2 -> iv1 <> [] -> iv2 <> [] ->
  iv1 <> iv2 -> e1 <> e2.
Proof.
  unfold encrypt. destruct (getAesKey K) as [key|]; [|discriminate].
  intros [= <-] [= <-] Hb1 Hb2 Hn1 Hn2 Hne Heq. apply Hne.
  pose proof (nonce_of_envelope iv1 Hb1 Hn1
                (Hex.toHex (GCM.encrypt (GCM.aes key) iv1 (Utf8.encode s1)))) as H1.
  pose proof (nonce_of_envelope iv2 Hb2 Hn2
                (Hex.toHex (GCM.encrypt (GCM.aes key) iv2 (Utf8.encode s2)))) as H2.
  cbn [app] in Heq. rewrite Heq in H1. congruence.
Qed.

(** [decrypt] looks at the first two parts only. *)
Lemma decrypt_ignores_tail K key iv s suffix :
  getAesKey K = Some key ->
  Forall is_byte iv -> length iv = 12%nat ->
  Utf8.well_formed s -> hd 0 s <> 65279 ->
  exists envelope,
    encrypt K iv s = Some envelope
    /\ decrypt K (envelope ++ 58 :: suffix) = s.
Proof.
  intros Hkey Hiv Hlen Hwf Hbom.
  assert (Hne : iv <> []) by (intros E; rewrite E in Hlen; discriminate).
  unfold encrypt. rewrite Hkey.
  set (ct := GCM.encrypt (GCM.aes key) iv (Utf8.encode s)).
  assert (Hct : Forall is_byte ct).
  { apply GCMFacts.encrypt_is_byte, Utf8Facts.encode_is_byte, Hwf. }
  assert (Hctne : ct <> []).
  { intros Heq. pose proof (GCMFacts.encrypt_length (GCM.aes key) iv (Utf8.encode s)) as Hl.
    fold ct in Hl. rewrite Heq in Hl. simpl in Hl. lia. }
  eexists. split; [reflexivity|]. unfold decrypt.
  rewrite <- !app_assoc. cbn [app].
  rewrite HexFacts.includes_app. unfold includes at 2. cbn [existsb].
  rewrite Z.eqb_refl, orb_true_r. cbn [negb]. unfold try_decrypt.
  rewrite HexFacts.split_at_sep by (apply HexFacts.toHex_no_colon; assumption).
  rewrite HexFacts.split_at_sep by (apply HexFacts.toHex_no_colon; assumption).
  rewrite Hkey, !HexFacts.fromHex_toHex by assumption.
  unfold supported_nonce. rewrite Hlen. cbn [existsb Nat.eqb orb].
  unfold ct. rewrite GCMFacts.gcm_decrypt_encrypt.
  rewrite Utf8Facts.decode_encode by assumption. reflexivity.
Qed.

End EnvelopeMore.

(** X4 (nonce freshness shows). Under one key, envelopes sealed with
    different nonces are different strings, whatever the plaintexts: the
    nonce is their first part. *)
Theorem distinct_nonces_distinct_envelopes
    (K : jsstring) (iv1 iv2 : bytes) (s1 s2 e1 e2 : jsstring) :
  Envelope.encrypt K iv1 s1 = Some e1 -> Envelope.encrypt K iv2 s2 = Some e2 ->
  length iv1 = 12%nat -> length iv2 = 12%nat ->
  Forall is_byte iv1 -> Forall is_byte iv2 ->
  bytes_eqb iv1 iv2 = false ->
  str_eqb e1 e2 = false.
Proof.
  intros H1 H2 Hl1 Hl2 Hb1 Hb2 Hne. apply JSFacts.str_eqb_neq.
  apply (EnvelopeMore.envelopes_differ K iv1 iv2 s1 s2 e1 e2); try assumption.
  - intros ->. discriminate.
  - intros ->. discriminate.
  - intros Heq. apply BytesFacts.bytes_eqb_eq in Heq. congruence.
Qed.

Lemma distinct_nonces_distinct_envelopes_witness :
  str_eqb sealed_phone (sealed (repeat 1 12) (js "+16475551234")) = false.
Proof.
  apply (distinct_nonces_distinct_envelopes zero_key sample_iv (repeat 1 12)
           (js "+16475551234") (js "+16475551234")).
  - vm_compute. reflexivity.
  - vm_compute. reflexivity.
  - reflexivity.
  - reflexivity.
  - repeat constructor; vm_compute; discriminate.
  - repeat constructor; vm_compute; discriminate.
  - reflexivity.
Defined.

(** X5 (text after a second colon is ignored). [decrypt] splits at every
    colon and reads the first two parts, so an envelope followed by a colon
    and anything at all still decrypts to its plaintext. *)
Theorem decrypt_ignores_trailing_part
    (K : jsstring) (key iv : bytes) (s suffix : jsstring) :
  Envelope.getAesKey K = Some key ->
  length iv = 12%nat -> Forall is_byte iv ->
  Utf8.well_formed s -> hd 0 s <> 65279 ->
  exists envelope,
    Envelope.encrypt K iv s = Some envelope
    /\ Envelope.decrypt K (envelope ++ 58 :: suffix) = s.
Proof.
  intros Hkey Hlen Hiv Hwf Hbom.
  destruct (EnvelopeMore.decrypt_ignores_tail K key iv s suffix
              Hkey Hiv Hlen Hwf Hbom) as (envelope & Henc & Hdec).
  exists envelope. split; assumption.
Qed.

Lemma decrypt_ignores_trailing_part_witness :
  exists envelope,
    Envelope.encrypt zero_key sample_iv (js "+16475551234") = Some envelope
    /\ Envelope.decrypt zero_key (envelope ++ 58 :: js "not hex: at all")
       = js "+16475551234".
Proof.
  apply (decrypt_ignores_trailing_part zero_key (repeat 0 32) sample_iv
           (js "+16475551234") (js "not hex: at all")).
  - vm_compute. reflexivity.
  - reflexivity.
  - repeat constructor; vm_compute; discriminate.
  - vm_compute. repeat split; discriminate.
  - vm_compute. discriminate.
Defined.

(** X6 (key format). Every ENCRYPTION_KEY of 64 hexadecimal digits, in
    either case, is accepted by [getAesKey] and gives a 32-byte key. *)
Theorem getAesKey_accepts_hex64 (K : jsstring) :
  length K = 64%nat -> forallb EnvelopeShape.is_hex K = true ->
  exists key,
    Envelope.getAesKey K = Some key /\ length key = 32%nat /\ Forall is_byte key.
Proof.
  intros Hlen Hhex. unfold Envelope.getAesKey.
  assert (Hlt : forallb (fun u => negb (isLineTerminator u)) K = true).
  { apply forallb_forall. intros u Hu. apply negb_true_iff.
    apply EnvelopeShape.hex_not_line_terminator.
    eapply forallb_forall in Hhex; [exact Hhex|exact Hu]. }
  pose proof (EnvelopeShape.match_pairs_length K Hlt) as Hpairs.
  rewrite Hlen in Hpairs. change (Nat.div2 64) with 32%nat in Hpairs.
  destruct (Hex.fromHex K) as [key|] eqn:Hkey.
  - assert (Hk : length key = 32%nat).
    { unfold Hex.fromHex, Hex.match_2g in Hkey.
      destruct (Hex.match_pairs K) as [|p ps]; [discriminate|].
      injection Hkey as <-. rewrite <- Hpairs. cbn [map length].
      rewrite length_map. reflexivity. }
    exists key. split; [rewrite Hk; reflexivity|]. split; [exact Hk|].
    eapply EnvelopeShape.fromHex_is_byte, Hkey.
  - unfold Hex.fromHex, Hex.match_2g in Hkey.
    destruct (Hex.match_pairs K); [discriminate Hpairs|discriminate Hkey].
Qed.

Lemma getAesKey_accepts_hex64_witness :
  exists key,
    Envelope.getAesKey (js "00112233445566778899AABBCCDDEEFF00112233445566778899aabbccddeeff")
    = Some key /\ length key = 32%nat /\ Forall is_byte key.
Proof.
  apply (getAesKey_accepts_hex64
           (js "00112233445566778899AABBCCDDEEFF00112233445566778899aabbccddeeff"));
    reflexivity.
Defined.

(** ** The webhook handler beyond the rejection path *)

Module InboundMore.
Import InboundSms JSFacts.

(** A subscriber without its [active] flag. *)
Definition identity (s : subscriber) :=
  (sub_id s, sub_name s, sub_phone s, sub_pin_code s, sub_how_met s).

Lemma verified_signature token sig url body :
  Twilio.verifyTwilio token sig url body = Some true ->
  sig = Some (Twilio.expected_signature token url body).
Proof.
  destruct sig as [[|u s]|]; [discriminate| |discriminate].
  destruct token as [|t token]; [discriminate|].
  rewrite TwilioFacts.verifyTwilio_compares by discriminate.
  intros H.
  assert (Heq : str_eqb (Twilio.expected_signature (t :: token) url body) (u :: s) = true)
    by congruence.
  apply str_eqb_eq in Heq. congruence.
Qed.

Lemma update_active_frame id active st :
  let st' := snd (fst (update_active id active st)) in
  map identity (subscribers st') = map identity (subscribers st)
  /\ inbound_sms st' = inbound_sms st /\ pins st' = pins st.
Proof.
  cbn. split; [|auto]. induction (subscribers st) as [|s l IH]; [reflexivity|].
  cbn [map]. rewrite IH. f_equal. destruct (str_eqb (sub_id s) id); reflexivity.
Qed.

Section Handler.
Variable TOKEN PHONE KEY : jsstring.
Variable toUpperCase : jsstring -> jsstring.
Variable parseSubscriber : jsstring -> parsed.

Lemma match_loop_frame active from subs st :
  exists st' trace,
    match_loop KEY active from subs st = (Returned tt, st', trace)
    /\ map identity (subscribers st') = map identity (subscribers st)
    /\ inbound_sms st' = inbound_sms st /\ pins st' = pins st
    /\ (length trace <= 1)%nat.
Proof.
  rewrite InboundFacts.match_loop_find.
  destruct (findByPlaintextIdentifier KEY subs from) as [r|].
  - pose proof (update_active_frame (sub_id r) active st) as H.
    destruct (update_active (sub_id r) active st) as [[res st'] trace] eqn:Hu.
    unfold update_active in Hu. injection Hu as <- <- <-.
    do 2 eexists. split; [reflexivity|]. cbn [fst snd] in H.
    destruct H as (H1 & H2 & H3). repeat split; try assumption. cbn [length]. lia.
  - exists st, []. repeat split. cbn [length]. lia.
Qed.

(** Sealing a text under a usable key cannot throw. *)
Lemma encrypt_or_throw_ok key iv text st :
  Envelope.getAesKey KEY = Some key ->
  exists e, Envelope.encrypt KEY iv text = Some e
    /\ encrypt_or_throw KEY iv text st = (Returned e, st, []).
Proof.
  intros Hkey. unfold encrypt_or_throw, Envelope.encrypt. rewrite Hkey.
  eexists. split; reflexivity.
Qed.

Lemma encrypt_or_throw_fails iv text st :
  Envelope.getAesKey KEY = None ->
  encrypt_or_throw KEY iv text st = (Thrown, st, []).
Proof.
  intros Hkey. unfold encrypt_or_throw, Envelope.encrypt. rewrite Hkey. reflexivity.
Qed.

End Handler.

Lemma generatePin_length b0 b1 b2 b3 : length (Pin.generatePin b0 b1 b2 b3) = 6%nat.
Proof. rewrite PinFacts.generatePin_digits. reflexivity. Qed.

Lemma ascii_well_formed (s : jsstring) :
  Forall (fun u => 0 <= u < 128) s -> Utf8.well_formed s.
Proof.
  induction 1 as [|u s Hu Hs IH]; [exact I|]. cbn [Utf8.well_formed].
  split; [lia|].
  unfold Utf8.isHighSurrogate, Utf8.isLowSurrogate.
  replace (55296 <=? u) with false by (symmetry; apply Z.leb_gt; lia).
  replace (56320 <=? u) with false by (symmetry; apply Z.leb_gt; lia).
  cbn [andb]. auto.
Qed.

Lemma e164_well_formed e :
  PhoneFacts.e164_shape e = true -> Utf8.well_formed e /\ hd 0 e <> 65279.
Proof.
  destruct e as [|u ds]; [discriminate|]. cbn [PhoneFacts.e164_shape hd].
  intros H. apply andb_prop in H as [H _]. apply andb_prop in H as [H _].
  apply andb_prop in H as [Hu Hds]. apply Z.eqb_eq in Hu. subst u.
  split; [|discriminate]. apply ascii_well_formed. constructor; [lia|].
  apply List.Forall_forall. intros d Hd.
  eapply forallb_forall in Hds; [|exact Hd]. unfold isDigit in Hds.
  apply andb_prop in Hds as [Ha Hb]. apply Z.leb_le in Ha, Hb. lia.
Qed.

Lemma upsert_by_phone_member row l :
  exists r, In r (upsert_by_phone row l) /\ sub_phone r = sub_phone row
    /\ sub_name r = sub_name row /\ sub_active r = sub_active row.
Proof.
  induction l as [|s l IH]; cbn [upsert_by_phone].
  - exists row. cbn. auto.
  - destruct (str_eqb (sub_phone s) (sub_phone row)).
    + eexists. split; [left; reflexivity|]. cbn. auto.
    + destruct IH as (r & Hin & H). exists r. split; [right; exact Hin|exact H].
Qed.

Lemma find_member KEY target (l : list subscriber) r :
  In r l -> Envelope.decrypt KEY (sub_phone r) = target ->
  exists r', findByPlaintextIdentifier KEY l target = Some r'
    /\ Envelope.decrypt KEY (sub_phone r') = target.
Proof.
  intros Hin Hr. destruct (findByPlaintextIdentifier KEY l target) as [r'|] eqn:Hf.
  - exists r'. split; [reflexivity|].
    apply InboundFacts.find_first in Hf as (_ & _ & _ & H & _). exact H.
  - apply InboundFacts.find_none in Hf. rewrite List.Forall_forall in Hf.
    exfalso. apply (Hf r Hin). exact Hr.
Qed.

End InboundMore.

(** X7 (no store access without the right signature). Whenever a run of the
    webhook handler sends a query to the store or leaves the store changed,
    the request carried the signature the code computes for its URL and
    body. *)
Theorem store_access_needs_signature
    (TOKEN PHONE KEY : jsstring) (toUpperCase : jsstring -> jsstring)
    (parseSubscriber : jsstring -> InboundSms.parsed)
    (rnd : InboundSms.inputs) (req : InboundSms.request) (st : InboundSms.store) :
  let out := InboundSms.handler TOKEN PHONE KEY toUpperCase parseSubscriber rnd req st in
  List.filter InboundSms.is_query (snd out) <> [] \/ snd (fst out) <> st ->
  InboundSms.x_twilio_signature req
  = Some (Twilio.expected_signature TOKEN (InboundSms.req_url req)
            (InboundSms.req_text req)).
Proof.
  cbv zeta. unfold InboundSms.handler.
  destruct (Twilio.verifyTwilio TOKEN (InboundSms.x_twilio_signature req)
              (InboundSms.req_url req) (InboundSms.req_text req))
    as [[|]|] eqn:Hv.
  - intros _. apply InboundMore.verified_signature, Hv.
  - intros [H|H]; cbn in H; congruence.
  - intros [H|H]; cbn in H; congruence.
Qed.

Lemma store_access_needs_signature_witness :
  InboundSms.x_twilio_signature (stop_request stop_signature)
  = Some (Twilio.expected_signature (js "12345")
            (InboundSms.req_url (stop_request stop_signature))
            (InboundSms.req_text (stop_request stop_signature))).
Proof.
  apply (store_access_needs_signature (js "12345") (js "+15550000000") zero_key
           toUpperCase_ascii no_subscriber sample_inputs
           (stop_request stop_signature) sample_store).
  left. vm_compute. discriminate.
Defined.

(** X8 (no key, no subscriber). When ENCRYPTION_KEY is not a usable key, the
    branch that adds a subscriber never writes to subscribers or pins: it
    throws before its first upsert, and there is no plaintext fallback.  Its
    only possible query is the insert of an unparsed message. *)
Theorem no_key_no_subscriber
    (KEY : jsstring) (parseSubscriber : jsstring -> InboundSms.parsed)
    (rnd : InboundSms.inputs) (from body : jsstring) (st : InboundSms.store) :
  Envelope.getAesKey KEY = None ->
  let out := InboundSms.add_subscriber KEY parseSubscriber rnd from body st in
  InboundSms.subscribers (snd (fst out)) = InboundSms.subscribers st
  /\ InboundSms.pins (snd (fst out)) = InboundSms.pins st
  /\ forallb (fun e => match e with InboundSms.InsertInbound _ _ => true | _ => false end)
             (snd out) = true.
Proof.
  intros Hkey. cbv zeta. unfold InboundSms.add_subscriber.
  destruct (negb (InboundSms.truthy (InboundSms.p_name (parseSubscriber body)))
            && negb (InboundSms.truthy (InboundSms.p_phone (parseSubscriber body)))).
  - cbn. auto.
  - destruct (match InboundSms.p_phone (parseSubscriber body) with
              | Some (u :: p) => InboundSms.normalisePhone (u :: p)
              | _ => None
              end) as [e164|].
    + destruct (InboundSms.pin_bytes rnd) as [[[b0 b1] b2] b3].
      match goal with
      | |- context [InboundSms.bind ?m ?k st] =>
          replace (InboundSms.bind m k st)
            with (@InboundSms.Thrown InboundSms.response, st, @nil InboundSms.event)
            by (unfold InboundSms.bind at 1;
                rewrite (InboundMore.encrypt_or_throw_fails KEY _ _ st Hkey);
                reflexivity)
      end.
      cbn. auto.
    + cbn. auto.
Qed.

Definition adds_ada : jsstring -> InboundSms.parsed :=
  fun _ => {| InboundSms.p_name := Some (js "Ada");
              InboundSms.p_phone := Some (js "(647) 555-1234");
              InboundSms.p_how_met := Some (js "conference") |}.

Lemma no_key_no_subscriber_witness :
  let out := InboundSms.add_subscriber (js "not a key") adds_ada sample_inputs
               (js "+15550000000") (js "Ada 647 555 1234 conference") sample_store in
  InboundSms.subscribers (snd (fst out)) = InboundSms.subscribers sample_store
  /\ InboundSms.pins (snd (fst out)) = InboundSms.pins sample_store
  /\ forallb (fun e => match e with InboundSms.InsertInbound _ _ => true | _ => false end)
             (snd out) = true.
Proof.
  apply (no_key_no_subscriber (js "not a key") adds_ada sample_inputs
           (js "+15550000000") (js "Ada 647 555 1234 conference") sample_store).
  vm_compute. reflexivity.
Defined.

(** X9 (what is added is sealed, and can unsubscribe). With a usable key,
    when the oracle returns a phone that normalises to [e164] and the store
    accepts the upsert, the branch that adds a subscriber sends exactly an
    upsert to pins and an upsert to subscribers.  The row it writes holds
    the envelopes [encrypt] makes, under the nonces drawn, of the parsed
    name, of [e164] and of the context when there is one; the phone
    decrypts to [e164], and the name to the parsed name when its nonce has
    12 bytes and UTF-8 carries the name unchanged.  The row carries the
    generated PIN and is active; and in the resulting store the matcher
    finds a record for [e164], so a later STOP from that number reaches
    it. *)
Theorem added_subscriber_is_sealed
    (KEY : jsstring) (key : bytes) (parseSubscriber : jsstring -> InboundSms.parsed)
    (rnd : InboundSms.inputs) (from body phone e164 : jsstring)
    (st : InboundSms.store) :
  Envelope.getAesKey KEY = Some key ->
  InboundSms.p_phone (parseSubscriber body) = Some phone ->
  InboundSms.normalisePhone phone = Some e164 ->
  length (InboundSms.iv_phone rnd) = 12%nat ->
  Forall is_byte (InboundSms.iv_phone rnd) ->
  InboundSms.upsert_refusal rnd = None ->
  let name :=
    match InboundSms.p_name (parseSubscriber body) with Some n => n | None => [] end in
  exists resp st' pin row,
    InboundSms.add_subscriber KEY parseSubscriber rnd from body st
    = (InboundSms.Returned resp, st',
       [InboundSms.UpsertPin pin (InboundSms.p_name (parseSubscriber body));
        InboundSms.UpsertSubscriber row])
    /\ InboundSms.sub_pin_code row = Some pin
    /\ length pin = 6%nat
    /\ InboundSms.sub_active row = true
    /\ Envelope.encrypt KEY (InboundSms.iv_name rnd) name
       = Some (InboundSms.sub_name row)
    /\ Envelope.encrypt KEY (InboundSms.iv_phone rnd) e164
       = Some (InboundSms.sub_phone row)
    /\ InboundSms.sub_how_met row
       = match InboundSms.p_how_met (parseSubscriber body) with
         | Some (u :: h) => Envelope.encrypt KEY (InboundSms.iv_how_met rnd) (u :: h)
         | _ => None
         end
    /\ includes 58 (InboundSms.sub_name row) = true
    /\ includes 58 (InboundSms.sub_phone row) = true
    /\ Envelope.decrypt KEY (InboundSms.sub_phone row) = e164
    /\ (length (InboundSms.iv_name rnd) = 12%nat ->
        Forall is_byte (InboundSms.iv_name rnd) ->
        Utf8.well_formed name -> hd 0 name <> 65279 ->
        Envelope.decrypt KEY (InboundSms.sub_name row) = name)
    /\ InboundSms.inbound_sms st' = InboundSms.inbound_sms st
    /\ exists found,
         InboundSms.findByPlaintextIdentifier KEY (InboundSms.subscribers st') e164
         = Some found
         /\ Envelope.decrypt KEY (InboundSms.sub_phone found) = e164.
Proof.
  intros Hkey Hphone Hnorm Hlen Hiv Hok name.
  pose proof (PhoneFacts.normalisePhone_shape _ _ Hnorm) as Hshape.
  destruct (InboundMore.e164_well_formed e164 Hshape) as [Hwf Hbom].
  destruct (EnvelopeFacts.envelope_decrypt_encrypt KEY key (InboundSms.iv_phone rnd) e164
              Hkey Hiv Hlen Hwf Hbom) as (encPhone & Henc & Hdec).
  unfold InboundSms.add_subscriber. rewrite Hphone.
  destruct phone as [|u p]; [discriminate Hnorm|].
  cbn [InboundSms.truthy negb]. rewrite andb_false_r, Hnorm.
  destruct (InboundSms.pin_bytes rnd) as [[[b0 b1] b2] b3].
  set (pin := Pin.generatePin b0 b1 b2 b3).
  fold name.
  destruct (InboundMore.encrypt_or_throw_ok KEY key (InboundSms.iv_name rnd) name st Hkey)
    as (encName & HencName & HrunName).
  assert (HrunPhone : InboundSms.encrypt_or_throw KEY (InboundSms.iv_phone rnd) e164 st
                      = (InboundSms.Returned encPhone, st, [])).
  { unfold InboundSms.encrypt_or_throw. rewrite Henc. reflexivity. }
  assert (Hhow : exists encHowMet,
    (match InboundSms.p_how_met (parseSubscriber body) with
     | Some (u :: h) =>
         InboundSms.bind (InboundSms.encrypt_or_throw KEY (InboundSms.iv_how_met rnd) (u :: h))
           (fun e => InboundSms.ret (Some e))
     | _ => InboundSms.ret None
     end) st = (InboundSms.Returned encHowMet, st, [])
    /\ encHowMet
       = match InboundSms.p_how_met (parseSubscriber body) with
         | Some (u :: h) => Envelope.encrypt KEY (InboundSms.iv_how_met rnd) (u :: h)
         | _ => None
         end).
  { destruct (InboundSms.p_how_met (parseSubscriber body)) as [[|u' h]|];
      try (eexists; split; reflexivity).
    destruct (InboundMore.encrypt_or_throw_ok KEY key (InboundSms.iv_how_met rnd)
                (u' :: h) st Hkey) as (e & He & Hrun).
    exists (Some e). split; [|symmetry; exact He].
    unfold InboundSms.bind. rewrite Hrun. reflexivity. }
  destruct Hhow as (encHowMet & HrunHow & HhowEq).
  set (row := {| InboundSms.sub_id := InboundSms.new_id rnd;
                 InboundSms.sub_name := encName; InboundSms.sub_phone := encPhone;
                 InboundSms.sub_pin_code := Some pin;
                 InboundSms.sub_how_met := encHowMet;
                 InboundSms.sub_active := true |}).
  assert (HnameColon : includes 58 encName = true).
  { unfold Envelope.encrypt in HencName. rewrite Hkey in HencName.
    injection HencName as <-. rewrite HexFacts.includes_app.
    unfold includes at 2. cbn [app existsb]. rewrite Z.eqb_refl. apply orb_true_r. }
  assert (HphoneColon : includes 58 encPhone = true).
  { unfold Envelope.encrypt in Henc. rewrite Hkey in Henc.
    injection Henc as <-. rewrite HexFacts.includes_app.
    unfold includes at 2. cbn [app existsb]. rewrite Z.eqb_refl. apply orb_true_r. }
  assert (HnameDec : length (InboundSms.iv_name rnd) = 12%nat ->
                     Forall is_byte (InboundSms.iv_name rnd) ->
                     Utf8.well_formed name -> hd 0 name <> 65279 ->
                     Envelope.decrypt KEY encName = name).
  { intros Hl Hb Hw Hn.
    destruct (EnvelopeFacts.envelope_decrypt_encrypt KEY key (InboundSms.iv_name rnd)
                name Hkey Hb Hl Hw Hn) as (e & He & Hd).
    rewrite HencName in He. injection He as <-. exact Hd. }
  destruct (InboundMore.upsert_by_phone_member row (InboundSms.subscribers st))
    as (r & Hin & Hrphone & _).
  destruct (InboundMore.find_member KEY e164 _ r Hin) as (found & Hfind & Hfound).
  { rewrite Hrphone. exact Hdec. }
  eexists _, _, pin, row.
  split.
  { unfold InboundSms.bind at 1. rewrite HrunName.
    unfold InboundSms.bind at 1. rewrite HrunPhone.
    unfold InboundSms.bind at 1. rewrite HrunHow.
    unfold InboundSms.bind, InboundSms.upsert_pin, InboundSms.upsert_subscriber.
    rewrite Hok. cbn [app]. reflexivity. }
  split; [reflexivity|]. split; [apply InboundMore.generatePin_length|].
  split; [reflexivity|]. split; [exact HencName|]. split; [exact Henc|].
  split; [exact HhowEq|].
  split; [exact HnameColon|]. split; [exact HphoneColon|].
  split; [exact Hdec|]. split; [exact HnameDec|]. split; [reflexivity|].
  exists found. split; [exact Hfind|exact Hfound].
Qed.

Lemma added_subscriber_is_sealed_witness :
  let name :=
    match InboundSms.p_name (adds_ada (js "Ada 647 555 1234 conference")) with
    | Some n => n
    | None => []
    end in
  exists resp st' pin row,
    InboundSms.add_subscriber zero_key adds_ada sample_inputs
      (js "+15550000000") (js "Ada 647 555 1234 conference") sample_store
    = (InboundSms.Returned resp, st',
       [InboundSms.UpsertPin pin
          (InboundSms.p_name (adds_ada (js "Ada 647 555 1234 conference")));
        InboundSms.UpsertSubscriber row])
    /\ InboundSms.sub_pin_code row = Some pin
    /\ length pin = 6%nat
    /\ InboundSms.sub_active row = true
    /\ Envelope.encrypt zero_key (InboundSms.iv_name sample_inputs) name
       = Some (InboundSms.sub_name row)
    /\ Envelope.encrypt zero_key (InboundSms.iv_phone sample_inputs) (js "+16475551234")
       = Some (InboundSms.sub_phone row)
    /\ InboundSms.sub_how_met row
       = match InboundSms.p_how_met (adds_ada (js "Ada 647 555 1234 conference")) with
         | Some (u :: h) =>
             Envelope.encrypt zero_key (InboundSms.iv_how_met sample_inputs) (u :: h)
         | _ => None
         end
    /\ includes 58 (InboundSms.sub_name row) = true
    /\ includes 58 (InboundSms.sub_phone row) = true
    /\ Envelope.decrypt zero_key (InboundSms.sub_phone row) = js "+16475551234"
    /\ (length (InboundSms.iv_name sample_inputs) = 12%nat ->
        Forall is_byte (InboundSms.iv_name sample_inputs) ->
        Utf8.well_formed name -> hd 0 name <> 65279 ->
        Envelope.decrypt zero_key (InboundSms.sub_name row) = name)
    /\ InboundSms.inbound_sms st' = InboundSms.inbound_sms sample_store
    /\ exists found,
         InboundSms.findByPlaintextIdentifier zero_key (InboundSms.subscribers st')
           (js "+16475551234")
         = Some found
         /\ Envelope.decrypt zero_key (InboundSms.sub_phone found) = js "+16475551234".
Proof.
  apply (added_subscriber_is_sealed zero_key (repeat 0 32) adds_ada sample_inputs
           (js "+15550000000") (js "Ada 647 555 1234 conference")
           (js "(647) 555-1234") (js "+16475551234") sample_store).
  - vm_compute. reflexivity.
  - reflexivity.
  - vm_compute. reflexivity.
  - reflexivity.
  - repeat constructor; vm_compute; discriminate.
  - reflexivity.
Defined.

Module StopStart.
Import InboundSms JSFacts InboundMore.








End StopStart.


(** X11 (STOP and START touch flags only). A verified request whose body,
    trimmed and upper-cased, is one of the STOP or START words is always
    answered 200, matched or not; it reads the subscribers and writes at
    most one update; and the store keeps every subscriber's id, name, phone,
    PIN and context, and all of inbound_sms and pins. *)
Theorem stop_start_touch_flags_only
    (TOKEN PHONE KEY : jsstring) (toUpperCase : jsstring -> jsstring)
    (parseSubscriber : jsstring -> InboundSms.parsed)
    (rnd : InboundSms.inputs) (req : InboundSms.request) (st : InboundSms.store) :
  Twilio.verifyTwilio TOKEN (InboundSms.x_twilio_signature req)
    (InboundSms.req_url req) (InboundSms.req_text req) = Some true ->
  existsb
    (str_eqb
       (toUpperCase
          (match Form.get (js "Body") (Form.URLSearchParams (InboundSms.req_text req)) with
           | Some v => trim v
           | None => []
           end)))
    [js "STOP"; js "STOPALL"; js "UNSUBSCRIBE"; js "CANCEL"; js "END"; js "QUIT";
     js "START"; js "YES"; js "UNSTOP"] = true ->
  exists resp st' updates,
    InboundSms.handler TOKEN PHONE KEY toUpperCase parseSubscriber rnd req st
    = (InboundSms.Returned resp, st', InboundSms.SelectSubscribers :: updates)
    /\ InboundSms.status resp = 200
    /\ (length updates <= 1)%nat
    /\ map InboundMore.identity (InboundSms.subscribers st')
       = map InboundMore.identity (InboundSms.subscribers st)
    /\ InboundSms.inbound_sms st' = InboundSms.inbound_sms st
    /\ InboundSms.pins st' = InboundSms.pins st.
Proof.
  intros Hv Hcmd. unfold InboundSms.handler. rewrite Hv. cbv zeta.
  set (from := match Form.get (js "From") _ with Some v => trim v | None => [] end).
  set (cmd := toUpperCase _) in *.
  change [js "STOP"; js "STOPALL"; js "UNSUBSCRIBE"; js "CANCEL"; js "END"; js "QUIT";
          js "START"; js "YES"; js "UNSTOP"]
    with ([js "STOP"; js "STOPALL"; js "UNSUBSCRIBE"; js "CANCEL"; js "END"; js "QUIT"]
          ++ [js "START"; js "YES"; js "UNSTOP"]) in Hcmd.
  rewrite existsb_app in Hcmd.
  destruct (existsb (str_eqb cmd)
              [js "STOP"; js "STOPALL"; js "UNSUBSCRIBE"; js "CANCEL"; js "END"; js "QUIT"])
    eqn:Hstop.
  - destruct (InboundMore.match_loop_frame KEY false from (InboundSms.subscribers st) st)
      as (st' & trace & Hloop & Hid & Hin & Hp & Hlen).
    exists (InboundSms.twiml (InboundSms.message
              (js "You've been unsubscribed. Reply START anytime."))), st', trace.
    split; [|auto].
    unfold InboundSms.bind, InboundSms.select_subscribers. rewrite Hloop.
    cbn [app InboundSms.ret]. rewrite app_nil_r. reflexivity.
  - cbn [orb] in Hcmd. rewrite Hcmd.
    destruct (InboundMore.match_loop_frame KEY true from (InboundSms.subscribers st) st)
      as (st' & trace & Hloop & Hid & Hin & Hp & Hlen).
    exists (InboundSms.twiml (InboundSms.message (js "You're back on the list."))),
      st', trace.
    split; [|auto].
    unfold InboundSms.bind, InboundSms.select_subscribers. rewrite Hloop.
    cbn [app InboundSms.ret]. rewrite app_nil_r. reflexivity.
Qed.

Lemma stop_start_touch_flags_only_witness :
  exists resp st' updates,
    sample_handler (stop_request stop_signature) sample_store
    = (InboundSms.Returned resp, st', InboundSms.SelectSubscribers :: updates)
    /\ InboundSms.status resp = 200
    /\ (length updates <= 1)%nat
    /\ map InboundMore.identity (InboundSms.subscribers st')
       = map InboundMore.identity (InboundSms.subscribers sample_store)
    /\ InboundSms.inbound_sms st' = InboundSms.inbound_sms sample_store
    /\ InboundSms.pins st' = InboundSms.pins sample_store.
Proof.
  apply (stop_start_touch_flags_only (js "12345") (js "+15550000000") zero_key
           toUpperCase_ascii no_subscriber sample_inputs
           (stop_request stop_signature) sample_store).
  - vm_compute. reflexivity.
  - vm_compute. reflexivity.
Defined.

(** ** verify-pin beyond the boundary cases *)

Module VerifyPinMore.
Import VerifyPin.

(** What a call of the rate limiter can do to the store. *)
Lemma checkAndIncrement_effect key now st :
  let st' := snd (fst (checkAndIncrement key now st)) in
  pins st' = pins st
  /\ (forall k, k <> key -> rate_limits st' !! k = rate_limits st !! k)
  /\ (forall r, rate_limits st' !! key = Some r ->
        rate_limits st !! key = Some r
        \/ count r = 1
        \/ exists e, rate_limits st !! key = Some e
             /\ count e < MAX_ATTEMPTS /\ count r = count e + 1).
Proof.
  unfold checkAndIncrement, bind, select_rate_limit.
  destruct (rate_limits st !! key) as [e|] eqn:Hrow.
  - destruct (window_start e >? now - WINDOW_MS).
    + destruct (count e >=? MAX_ATTEMPTS) eqn:Hc.
      * cbn. split; [reflexivity|]. split; [reflexivity|].
        intros r Hr. left. congruence.
      * cbn. rewrite Hrow. cbn. split; [reflexivity|]. split.
        { intros k Hk. apply lookup_insert_ne. congruence. }
        intros r. rewrite lookup_insert_eq. intros [= <-]. right. right.
        exists e. cbn. rewrite Z.geb_leb in Hc. apply Z.leb_gt in Hc. auto.
    + cbn. rewrite Hrow. cbn. split; [reflexivity|]. split.
      { intros k Hk. apply lookup_insert_ne. congruence. }
      intros r. rewrite lookup_insert_eq. intros [= <-]. auto.
  - cbn. rewrite Hrow. cbn. split; [reflexivity|]. split.
    { intros k Hk. apply lookup_insert_ne. congruence. }
    intros r. rewrite lookup_insert_eq. intros [= <-]. auto.
Qed.

(** The handler changes the store through the rate limiter only. *)
Lemma handler_store toUpperCase now req st :
  snd (fst (handler toUpperCase now req st)) = st
  \/ snd (fst (handler toUpperCase now req st))
     = snd (fst (checkAndIncrement (rlKey req) now st)).
Proof.
  unfold handler.
  destruct (str_eqb (req_method req) (js "OPTIONS")); [left; reflexivity|].
  destruct (negb (str_eqb (req_method req) (js "POST"))); [left; reflexivity|].
  destruct (req_json req) as [b|]; [|left; reflexivity].
  destruct (pin_of_body toUpperCase b) as [[|u pin]|]; try (left; reflexivity).
  right. unfold bind at 1.
  destruct (checkAndIncrement (rlKey req) now st) as [[d st1] ops].
  destruct d; reflexivity.
Qed.

End VerifyPinMore.

(** X12 (callers are isolated). Whatever the request, the handler of
    verify-pin leaves the pins table and the rate-limit row of every other
    caller as they were. *)
Theorem verify_pin_frame (toUpperCase : jsstring -> jsstring) (now : Z)
    (req : VerifyPin.request) (st : VerifyPin.store) (other : jsstring) :
  str_eqb other (VerifyPin.rlKey req) = false ->
  let st' := snd (fst (VerifyPin.handler toUpperCase now req st)) in
  VerifyPin.rate_limits st' !! other = VerifyPin.rate_limits st !! other
  /\ VerifyPin.pins st' = VerifyPin.pins st.
Proof.
  intros Hother. apply JSFacts.str_eqb_neq in Hother. cbv zeta.
  destruct (VerifyPinMore.handler_store toUpperCase now req st) as [->| ->];
    [auto|].
  destruct (VerifyPinMore.checkAndIncrement_effect (VerifyPin.rlKey req) now st)
    as (Hpins & Hframe & _).
  split; [apply Hframe, Hother|exact Hpins].
Qed.

(** A request from 198.51.100.4 with a pin that is not in the table. *)
Definition other_caller_request : VerifyPin.request :=
  {| VerifyPin.req_method := js "POST";
     VerifyPin.x_forwarded_for := Some (js "198.51.100.4, 10.0.0.1");
     VerifyPin.req_json :=
       Some (VerifyPin.JObj [(js "pin", VerifyPin.JStr (js "guess1"))]) |}.

Lemma verify_pin_frame_witness :
  let st' := snd (fst (VerifyPin.handler toUpperCase_ascii 1000 other_caller_request
                         throttled_store)) in
  VerifyPin.rate_limits st' !! js "unknown:verify-pin"
  = VerifyPin.rate_limits throttled_store !! js "unknown:verify-pin"
  /\ VerifyPin.pins st' = VerifyPin.pins throttled_store.
Proof.
  apply (verify_pin_frame toUpperCase_ascii 1000 other_caller_request throttled_store
           (js "unknown:verify-pin")).
  vm_compute. reflexivity.
Defined.

(** X13 (the count stays within the maximum). If no row of rate_limits
    counts more than 10 attempts, none does after the handler has run,
    whatever the request and the time. *)
Theorem count_stays_bounded (toUpperCase : jsstring -> jsstring) (now : Z)
    (req : VerifyPin.request) (st : VerifyPin.store)
    (k : jsstring) (r : VerifyPin.rate_row) :
  (forall k0 r0, VerifyPin.rate_limits st !! k0 = Some r0 ->
                 VerifyPin.count r0 <= VerifyPin.MAX_ATTEMPTS) ->
  VerifyPin.rate_limits (snd (fst (VerifyPin.handler toUpperCase now req st))) !! k
  = Some r ->
  VerifyPin.count r <= VerifyPin.MAX_ATTEMPTS.
Proof.
  intros Hinv.
  destruct (VerifyPinMore.handler_store toUpperCase now req st) as [->| ->];
    [apply Hinv|].
  destruct (VerifyPinMore.checkAndIncrement_effect (VerifyPin.rlKey req) now st)
    as (_ & Hframe & Hrow).
  destruct (decide (k = VerifyPin.rlKey req)) as [->|Hne].
  - intros Hr. destruct (Hrow r Hr) as [Hsame|[Hone|(e & He & Hlt & Hinc)]].
    + eapply Hinv, Hsame.
    + rewrite Hone. unfold VerifyPin.MAX_ATTEMPTS. lia.
    + lia.
  - rewrite Hframe by assumption. apply Hinv.
Qed.

Lemma count_stays_bounded_witness :
  VerifyPin.count {| VerifyPin.count := 1; VerifyPin.window_start := 1000 |}
  <= VerifyPin.MAX_ATTEMPTS.
Proof.
  apply (count_stays_bounded toUpperCase_ascii 1000 other_caller_request throttled_store
           (js "198.51.100.4:verify-pin")
           {| VerifyPin.count := 1; VerifyPin.window_start := 1000 |}).
  - intros k0 r0 H. unfold throttled_store in H. cbn [VerifyPin.rate_limits] in H.
    apply lookup_singleton_Some in H as [_ <-]. cbn. unfold VerifyPin.MAX_ATTEMPTS. lia.
  - vm_compute. reflexivity.
Defined.

(** X14 (no false acceptance). The handler answers [{"valid":true}] only
    with status 200, to a POST whose pin, trimmed and upper-cased, is not
    empty and is the code of a row of the pins table. *)
Theorem valid_means_pin_in_table (toUpperCase : jsstring -> jsstring) (now : Z)
    (req : VerifyPin.request) (st : VerifyPin.store) :
  VerifyPin.body (fst (fst (VerifyPin.handler toUpperCase now req st)))
  = VerifyPin.valid_true ->
  exists u pin,
    VerifyPin.submitted_pin toUpperCase req = Some (u :: pin)
    /\ existsb (str_eqb (u :: pin)) (VerifyPin.pins st) = true
    /\ VerifyPin.status (fst (fst (VerifyPin.handler toUpperCase now req st))) = 200.
Proof.
  unfold VerifyPin.handler, VerifyPin.submitted_pin.
  destruct (str_eqb (VerifyPin.req_method req) (js "OPTIONS")) eqn:Hopt;
    [intros H; vm_compute in H; discriminate H|].
  destruct (str_eqb (VerifyPin.req_method req) (js "POST")) eqn:Hpost; cbn [negb];
    [|intros H; vm_compute in H; discriminate H].
  destruct (VerifyPin.req_json req) as [b|];
    [|intros H; vm_compute in H; discriminate H].
  destruct (VerifyPin.pin_of_body toUpperCase b) as [[|u pin]|];
    [intros H; vm_compute in H; discriminate H| |
     intros H; vm_compute in H; discriminate H].
  unfold VerifyPin.bind.
  pose proof (VerifyPinMore.checkAndIncrement_effect (VerifyPin.rlKey req) now st)
    as (Hpins & _).
  destruct (VerifyPin.checkAndIncrement (VerifyPin.rlKey req) now st) as [[d st1] ops].
  cbn [fst snd] in Hpins.
  destruct d; [|intros H; vm_compute in H; discriminate H].
  unfold VerifyPin.select_pin, VerifyPin.ret. cbn [fst snd VerifyPin.body
    VerifyPin.status]. rewrite Hpins.
  destruct (existsb (str_eqb (u :: pin)) (VerifyPin.pins st)) eqn:Hin;
    [|intros H; vm_compute in H; discriminate H].
  intros _. exists u, pin. auto.
Qed.

(** A store with one PIN and no rate-limit row. *)
Definition one_pin_store : VerifyPin.store :=
  {| VerifyPin.rate_limits := ∅; VerifyPin.pins := [js "Z141Z3"] |}.

Lemma valid_means_pin_in_table_witness :
  exists u pin,
    VerifyPin.submitted_pin toUpperCase_ascii good_pin_request = Some (u :: pin)
    /\ existsb (str_eqb (u :: pin)) (VerifyPin.pins one_pin_store) = true
    /\ VerifyPin.status
         (fst (fst (VerifyPin.handler toUpperCase_ascii 1000 good_pin_request
                      one_pin_store))) = 200.
Proof.
  apply (valid_means_pin_in_table toUpperCase_ascii 1000 good_pin_request one_pin_store).
  vm_compute. reflexivity.
Defined.

(** X15 (the store is touched for a pin only). Whenever the handler sends a
    query, the request was a POST with a JSON body whose pin, trimmed and
    upper-cased, is not empty; and its first query is then the read of the
    caller's rate-limit row. *)
Theorem queries_need_pin (toUpperCase : jsstring -> jsstring) (now : Z)
    (req : VerifyPin.request) (st : VerifyPin.store)
    (q : VerifyPin.db_op) (qs : list VerifyPin.db_op) :
  snd (VerifyPin.handler toUpperCase now req st) = q :: qs ->
  q = VerifyPin.SelectRateLimit (VerifyPin.rlKey req)
  /\ exists u pin, VerifyPin.submitted_pin toUpperCase req = Some (u :: pin).
Proof.
  unfold VerifyPin.handler, VerifyPin.submitted_pin.
  destruct (str_eqb (VerifyPin.req_method req) (js "OPTIONS")); [discriminate|].
  destruct (str_eqb (VerifyPin.req_method req) (js "POST")); cbn [negb]; [|discriminate].
  destruct (VerifyPin.req_json req) as [b|]; [|discriminate].
  destruct (VerifyPin.pin_of_body toUpperCase b) as [[|u pin]|]; try discriminate.
  intros H. split; [|eauto].
  unfold VerifyPin.bind at 1, VerifyPin.checkAndIncrement in H.
  unfold VerifyPin.bind at 2, VerifyPin.select_rate_limit in H.
  cbn in H. revert H.
  destruct (VerifyPin.rate_limits st !! VerifyPin.rlKey req) as [e|].
  - destruct (VerifyPin.window_start e >? now - VerifyPin.WINDOW_MS);
      [destruct (VerifyPin.count e >=? VerifyPin.MAX_ATTEMPTS)|];
      intros H; cbn in H; congruence.
  - intros H. cbn in H. congruence.
Qed.

Lemma queries_need_pin_witness :
  VerifyPin.SelectRateLimit (js "unknown:verify-pin")
  = VerifyPin.SelectRateLimit (VerifyPin.rlKey good_pin_request)
  /\ exists u pin,
       VerifyPin.submitted_pin toUpperCase_ascii good_pin_request = Some (u :: pin).
Proof.
  apply (queries_need_pin toUpperCase_ascii 1000 good_pin_request one_pin_store
           (VerifyPin.SelectRateLimit (js "unknown:verify-pin"))
           [VerifyPin.InsertRateLimit (js "unknown:verify-pin")
              {| VerifyPin.count := 1; VerifyPin.window_start := 1000 |};
            VerifyPin.SelectPin (js "Z141Z3")]).
  vm_compute. reflexivity.
Defined.

(** X16 (the rate-limit key is the first forwarded address). Only the text
    before the first comma of x-forwarded-for, trimmed, enters the key:
    whatever follows that comma does not change it. *)
Theorem rlKey_first_hop (first rest method : jsstring)
    (payload : option VerifyPin.json) :
  includes 44 first = false ->
  VerifyPin.rlKey {| VerifyPin.req_method := method;
                     VerifyPin.x_forwarded_for := Some (first ++ 44 :: rest);
                     VerifyPin.req_json := payload |}
  = trim first ++ js ":verify-pin".
Proof.
  intros H. unfold VerifyPin.rlKey, VerifyPin.client_ip.
  cbn [VerifyPin.x_forwarded_for].
  rewrite HexFacts.split_at_sep by assumption. reflexivity.
Qed.

Lemma rlKey_first_hop_witness :
  VerifyPin.rlKey other_caller_request = trim (js "198.51.100.4") ++ js ":verify-pin".
Proof.
  apply (rlKey_first_hop (js "198.51.100.4") (js " 10.0.0.1") (js "POST")
           (Some (VerifyPin.JObj [(js "pin", VerifyPin.JStr (js "guess1"))]))).
  reflexivity.
Defined.

(** ** The signed string and the order of parameters *)

From stdpp Require Import sorting.
Open Scope Z_scope.

Module SortFacts.
Import Form JSFacts.

Definition le (a b : jsstring) : Prop := str_leb a b = true.

Lemma str_leb_total a b : le a b \/ le b a.
Proof.
  unfold le. revert b. induction a as [|x a IH]; intros [|y b]; cbn; auto.
  destruct (Z.ltb_spec x y); [auto|]. destruct (Z.ltb_spec y x); [auto|].
  apply IH.
Qed.

Lemma str_leb_antisym a b : le a b -> le b a -> a = b.
Proof.
  unfold le. revert b. induction a as [|x a IH]; intros [|y b]; cbn;
    try discriminate; try reflexivity.
  destruct (Z.ltb_spec x y); destruct (Z.ltb_spec y x); try discriminate; try lia.
  intros H1 H2. assert (x = y) by lia. subst. f_equal. apply IH; assumption.
Qed.

Lemma str_leb_trans a b c : le a b -> le b c -> le a c.
Proof.
  unfold le. revert b c. induction a as [|x a IH]; intros [|y b] [|z c]; cbn;
    try discriminate; try reflexivity.
  destruct (Z.ltb_spec x y); destruct (Z.ltb_spec y x); try discriminate; try lia;
    destruct (Z.ltb_spec y z); destruct (Z.ltb_spec z y); try discriminate; try lia;
    destruct (Z.ltb_spec x z); destruct (Z.ltb_spec z x); try discriminate; try lia;
    try reflexivity.
  apply IH.
Qed.

#[local] Instance le_transitive : Transitive le.
Proof. intros a b c. apply str_leb_trans. Qed.

#[local] Instance le_antisymm : AntiSymm (=) le.
Proof. intros a b. apply str_leb_antisym. Qed.

Lemma insert_permutation k l : Form.insert k l ≡ₚ k :: l.
Proof.
  induction l as [|h t IH]; [reflexivity|]. cbn [Form.insert].
  destruct (str_leb k h); [reflexivity|].
  rewrite IH. apply Permutation_swap.
Qed.

Lemma sort_permutation l : sort l ≡ₚ l.
Proof.
  induction l as [|k l IH]; [reflexivity|]. unfold sort in *. cbn [fold_right].
  rewrite insert_permutation, IH. reflexivity.
Qed.

Lemma insert_sorted k l : Sorted le l -> Sorted le (Form.insert k l).
Proof.
  induction 1 as [|h t Ht IH Hh]; cbn [Form.insert].
  - repeat constructor.
  - destruct (str_leb k h) eqn:Hk.
    + constructor; [constructor; assumption|]. constructor. exact Hk.
    + constructor; [exact IH|].
      assert (Hhk : le h k) by (destruct (str_leb_total k h) as [H|H]; [unfold le in H; congruence|exact H]).
      destruct t as [|h' t']; cbn [Form.insert].
      * constructor. exact Hhk.
      * destruct (str_leb k h'); constructor; [exact Hhk|].
        inversion Hh; assumption.
Qed.

Lemma sort_sorted l : Sorted le (sort l).
Proof.
  induction l as [|k l IH]; [constructor|]. unfold sort in *. cbn [fold_right].
  apply insert_sorted, IH.
Qed.

(** The sorted list depends on the elements only, not on their order. *)
Lemma sort_of_permutation l l' : l ≡ₚ l' -> sort l = sort l'.
Proof.
  intros H. apply (Sorted_unique le); [apply sort_sorted..|].
  rewrite !sort_permutation. exact H.
Qed.

Lemma all_distinct_NoDup l : TwilioFacts.all_distinct l = true <-> NoDup l.
Proof.
  induction l as [|k r IH]; cbn [TwilioFacts.all_distinct].
  - split; [constructor|reflexivity].
  - rewrite andb_true_iff, negb_true_iff, IH, NoDup_cons. 
    assert (Hk : existsb (str_eqb k) r = false <-> k ∉ r).
    { rewrite <- not_true_iff_false, existsb_exists. split.
      - intros H Hin. apply H. exists k. split; [apply list_elem_of_In, Hin|apply str_eqb_refl].
      - intros H (x & Hin & Heq). apply str_eqb_eq in Heq. subst x.
        apply H, list_elem_of_In, Hin. }
    rewrite Hk. reflexivity.
Qed.

Lemma get_Some_In k v params : get k params = Some v -> In (k, v) params.
Proof.
  induction params as [|[n w] r IH]; [discriminate|]. cbn [get].
  destruct (str_eqb n k) eqn:Hn.
  - intros [= <-]. apply str_eqb_eq in Hn. subst. left. reflexivity.
  - intros H. right. apply IH, H.
Qed.

Lemma In_get k v params :
  NoDup (keys params) -> In (k, v) params -> get k params = Some v.
Proof.
  induction params as [|[n w] r IH]; [contradiction|]. cbn [keys map fst get].
  rewrite NoDup_cons. intros [Hn Hr] [Heq|Hin].
  - injection Heq as -> ->. rewrite str_eqb_refl. reflexivity.
  - destruct (str_eqb n k) eqn:Hnk.
    + apply str_eqb_eq in Hnk. subst n. exfalso. apply Hn.
      apply list_elem_of_In. apply (in_map fst) in Hin. exact Hin.
    + apply IH; assumption.
Qed.

Lemma get_of_permutation p1 p2 k :
  p1 ≡ₚ p2 -> NoDup (keys p1) -> get k p1 = get k p2.
Proof.
  intros Hperm Hnd.
  assert (Hnd2 : NoDup (keys p2)).
  { unfold keys in *. rewrite <- Hperm. exact Hnd. }
  destruct (get k p1) as [v|] eqn:H1.
  - symmetry. apply In_get; [exact Hnd2|].
    apply get_Some_In in H1. eapply Permutation_in; eassumption.
  - destruct (get k p2) as [v|] eqn:H2; [|reflexivity].
    apply get_Some_In in H2. symmetry in Hperm.
    eapply Permutation_in in H2; [|exact Hperm].
    apply (In_get _ _ _ Hnd) in H2. congruence.
Qed.

End SortFacts.

(** X17 (the order of parameters does not matter). Two bodies that decode
    to the same parameters in a different order, no key repeated, are signed
    alike: the expected signature is the same, so a signature verifies one
    exactly when it verifies the other. *)
Theorem signature_ignores_parameter_order (token url body1 body2 : jsstring) :
  Permutation (Form.URLSearchParams body1) (Form.URLSearchParams body2) ->
  TwilioFacts.all_distinct (Form.keys (Form.URLSearchParams body1)) = true ->
  Twilio.expected_signature token url body1 = Twilio.expected_signature token url body2
  /\ forall sig,
       Twilio.verifyTwilio token sig url body1 = Twilio.verifyTwilio token sig url body2.
Proof.
  intros Hperm Hdistinct. apply SortFacts.all_distinct_NoDup in Hdistinct.
  assert (Hsigned : Twilio.signed_string url body1 = Twilio.signed_string url body2).
  { unfold Twilio.signed_string. cbv zeta.
    rewrite (SortFacts.sort_of_permutation (Form.keys (Form.URLSearchParams body1))
               (Form.keys (Form.URLSearchParams body2)))
      by (unfold Form.keys; rewrite Hperm; reflexivity).
    generalize (Form.sort (Form.keys (Form.URLSearchParams body2))) url.
    intros l. induction l as [|k l IH]; intros acc; [reflexivity|].
    cbn [fold_left].
    rewrite (SortFacts.get_of_permutation _ _ k Hperm Hdistinct). apply IH. }
  assert (Hexp : Twilio.expected_signature token url body1
                 = Twilio.expected_signature token url body2).
  { unfold Twilio.expected_signature. rewrite Hsigned. reflexivity. }
  split; [exact Hexp|].
  intros sig. unfold Twilio.verifyTwilio. rewrite Hexp. reflexivity.
Qed.

Lemma signature_ignores_parameter_order_witness :
  Twilio.expected_signature (js "12345") webhook_url stop_body
  = Twilio.expected_signature (js "12345") webhook_url (js "Body=stop&From=%2B4917612345")
  /\ forall sig,
       Twilio.verifyTwilio (js "12345") sig webhook_url stop_body
       = Twilio.verifyTwilio (js "12345") sig webhook_url
           (js "Body=stop&From=%2B4917612345").
Proof.
  apply (signature_ignores_parameter_order (js "12345") webhook_url stop_body
           (js "Body=stop&From=%2B4917612345")).
  - vm_compute. apply perm_swap.
  - vm_compute. reflexivity.
Defined.

(** ** The bearer check of admin-data and broadcast-sms *)

Module Auth.

Fixpoint starts_with (p s : jsstring) : bool :=
  match p, s with
  | [], _ => true
  | x :: p', y :: s' => (x =? y) && starts_with p' s'
  | _ :: _, [] => false
  end.

(** [s.replace(p, '')] for a non-empty text [p]: its first occurrence is
    removed. *)
Fixpoint remove_first (p s : jsstring) : jsstring :=
  match s with
  | [] => []
  | u :: r => if starts_with p s then skipn (length p) s else u :: remove_first p r
  end.

(** [req.headers.get('Authorization')?.replace('Bearer ', '').trim()];
    [None] is [undefined]. *)
Definition bearer_token (authorization : option jsstring) : option jsstring :=
  match authorization with
  | Some h => Some (trim (remove_first (js "Bearer ") h))
  | None => None
  end.

(** [token === SUPABASE_SERVICE_KEY], the key being [undefined] ([None])
    when the variable is not set. *)
Definition isAuthorised (SERVICE_KEY authorization : option jsstring) : bool :=
  match bearer_token authorization, SERVICE_KEY with
  | Some t, Some k => str_eqb t k
  | None, None => true
  | _, _ => false
  end.

End Auth.

(** X18 (the bearer check). With the service key set, a request is
    authorised exactly when its Authorization header, with the first
    ["Bearer "] removed and the ends trimmed, is the key: the header
    ["Bearer " + key] passes for a key without outer white space, and a
    request with no header does not.  With the key not set, it is the
    request with no header that passes. *)
Theorem bearer_check (key : jsstring) (authorization : option jsstring) :
  (Auth.isAuthorised (Some key) authorization = true <->
   exists h, authorization = Some h /\ trim (Auth.remove_first (js "Bearer ") h) = key)
  /\ (trim key = key ->
      Auth.isAuthorised (Some key) (Some (js "Bearer " ++ key)) = true)
  /\ Auth.isAuthorised (Some key) None = false
  /\ Auth.isAuthorised None None = true.
Proof.
  repeat split.
  - unfold Auth.isAuthorised, Auth.bearer_token.
    destruct authorization as [h|]; [|discriminate].
    intros H. apply JSFacts.str_eqb_eq in H. eauto.
  - intros (h & -> & H). unfold Auth.isAuthorised, Auth.bearer_token.
    apply JSFacts.str_eqb_eq. exact H.
  - intros Hk. unfold Auth.isAuthorised, Auth.bearer_token.
    change (js "Bearer " ++ key) with (66 :: 101 :: 97 :: 114 :: 101 :: 114 :: 32 :: key).
    change (js "Bearer ") with [66; 101; 97; 114; 101; 114; 32].
    cbn [Auth.remove_first Auth.starts_with Z.eqb Pos.eqb andb length skipn].
    change (skipn 0 key) with key.
    rewrite Hk. apply JSFacts.str_eqb_refl.
Qed.

Lemma bearer_check_witness :
  Auth.isAuthorised (Some (js "service-key")) (Some (js "Bearer service-key")) = true.
Proof.
  apply (proj1 (proj2 (bearer_check (js "service-key") None))). reflexivity.
Defined.

(** ** broadcast-sms *)

(** *** [template.replace(/\{pin\}/gi, replacement)] *)

Module Template.

(** The placeholder at the head of [s]: brace, p, i, n in either case,
    brace.  Answers the matched text and what follows it. *)
Definition placeholder (s : jsstring) : option (jsstring * jsstring) :=
  match s with
  | a :: b :: c :: d :: e :: after =>
      if (a =? 123) && ((b =? 112) || (b =? 80)) && ((c =? 105) || (c =? 73))
         && ((d =? 110) || (d =? 78)) && (e =? 125)
      then Some ([a; b; c; d; e], after)
      else None
  | _ => None
  end.

(** GetSubstitution for a pattern without groups: [$$] is a dollar sign,
    [$&] the matched text, [$`] the text before it and [$'] the text after
    it; any other dollar sign stands for itself. *)
Fixpoint substitute (matched before after replacement : jsstring) : jsstring :=
  match replacement with
  | [] => []
  | u :: tl =>
      match tl with
      | c :: r =>
          if u =? 36 then
            if c =? 36 then 36 :: substitute matched before after r
            else if c =? 38 then matched ++ substitute matched before after r
            else if c =? 96 then before ++ substitute matched before after r
            else if c =? 39 then after ++ substitute matched before after r
            else u :: substitute matched before after tl
          else u :: substitute matched before after tl
      | [] => [u]
      end
  end.

(** The scan of the global replace: [before] is the text already passed,
    [skip] the units of the current match still to pass. *)
Fixpoint scan (skip : nat) (before s replacement : jsstring) : jsstring :=
  match s with
  | [] => []
  | u :: r =>
      match skip with
      | S k => scan k (before ++ [u]) r replacement
      | O =>
          match placeholder s with
          | Some (matched, after) =>
              substitute matched before after replacement
              ++ scan 4 (before ++ [u]) r replacement
          | None => u :: scan 0 (before ++ [u]) r replacement
          end
      end
  end.

Definition replace_pin (template replacement : jsstring) : jsstring :=
  scan 0 [] template replacement.

End Template.

Module Broadcast.

(** The request as the handler reads it; [req_json] is the outcome of
    [await req.json()], [None] when it throws. *)
Record request := {
  req_method : jsstring;
  authorization : option jsstring;
  req_json : option VerifyPin.json
}.

(** The value a response carries: the text ['ok'], or the value given to
    [JSON.stringify]. *)
Inductive payload :=
| Text (t : jsstring)
| Error (message : jsstring)
| Tally (sent skipped : Z) (errors : list jsstring).

Record response := { status : Z; data : payload }.

(** What the handler does to the world, in order. *)
Inductive event :=
| SelectActive
| SendSMS (to body : jsstring).

Inductive outcome := Returned (r : response) | Thrown.

(** [v.k] of a parsed value: [None] is the TypeError of reading [null],
    [Some None] is [undefined]. *)
Definition property (v : VerifyPin.json) (k : jsstring)
    : option (option VerifyPin.json) :=
  match v with
  | VerifyPin.JNull => None
  | VerifyPin.JObj fields => Some (VerifyPin.get_field k fields)
  | _ => Some None
  end.

(** [v?.trim()]: [None] is the TypeError of calling what is no function. *)
Definition optional_trim (v : option VerifyPin.json) : option (option jsstring) :=
  match v with
  | None | Some VerifyPin.JNull => Some None
  | Some (VerifyPin.JStr s) => Some (Some (trim s))
  | Some _ => None
  end.

(** [body.k?.trim()] *)
Definition trimmed (body : VerifyPin.json) (k : jsstring) : option (option jsstring) :=
  match property body k with
  | Some v => optional_trim v
  | None => None
  end.

(** [body.mode ?? 'broadcast'], given [body.mode]. *)
Definition mode_of (m : option VerifyPin.json) : VerifyPin.json :=
  match m with
  | None | Some VerifyPin.JNull => VerifyPin.JStr (js "broadcast")
  | Some v => v
  end.

Record tally := { sent : Z; skipped : Z; errors : list jsstring }.

Definition json (data : payload) (status : Z) : response :=
  {| status := status; data := data |}.

Section Handler.

(** SUPABASE_SERVICE_ROLE_KEY ([None] when not set) and ENCRYPTION_KEY. *)
Variable SERVICE_KEY : option jsstring.
Variable ENCRYPTION_KEY : jsstring.
(** What [sendSMS(to, body)] answers on its n-th call, n from 0: [None] when
    Twilio accepted the message, its error message otherwise. *)
Variable sendSMS : nat -> jsstring -> jsstring -> option jsstring.
(** [dbErr.message], when the store refuses the query. *)
Variable dbErr : option jsstring.

(** The loop of lines 120-127 and 137-150; [compose] is the message for a
    subscriber, [calls] the messages given to Twilio so far. *)
Fixpoint deliver (compose : InboundSms.subscriber -> jsstring)
    (rows : list InboundSms.subscriber)
    (t : tally) (calls : nat) : tally * list event :=
  match rows with
  | [] => (t, [])
  | s :: r =>
      let plainPhone := Envelope.decryptField ENCRYPTION_KEY (InboundSms.sub_phone s) in
      match InboundSms.normalisePhone plainPhone with
      | Some ((_ :: _) as e164) =>
          let message := compose s in
          let t' :=
            match sendSMS calls e164 message with
            | Some ((_ :: _) as err) =>
                {| sent := sent t; skipped := skipped t;
                   errors := errors t ++ [e164 ++ js ": " ++ err] |}
            | _ => {| sent := sent t + 1; skipped := skipped t; errors := errors t |}
            end in
          let '(t'', trace) := deliver compose r t' (S calls) in
          (t'', SendSMS e164 message :: trace)
      | _ =>
          deliver compose r
            {| sent := sent t; skipped := skipped t + 1; errors := errors t |} calls
      end
  end.

(** Lines 142-145. *)
Definition personalised (template : jsstring) (s : InboundSms.subscriber) : jsstring :=
  match option_map trim (InboundSms.sub_pin_code s) with
  | Some ((_ :: _) as pin) => Template.replace_pin template pin
  | _ => Template.replace_pin template (js "(check your email or DM for PIN)")
  end.

Definition zero : tally := {| sent := 0; skipped := 0; errors := [] |}.

(** Line 157, after the query and the loop. *)
Definition report (r : tally * list event) : outcome * list event :=
  (Returned (json (Tally (sent (fst r)) (skipped (fst r)) (errors (fst r))) 200),
   SelectActive :: snd r).

Definition handler (st : InboundSms.store) (req : request) : outcome * list event :=
  if str_eqb (req_method req) (js "OPTIONS")
  then (Returned {| status := 200; data := Text (js "ok") |}, [])
  else if negb (Auth.isAuthorised SERVICE_KEY (authorization req))
  then (Returned (json (Error (js "Unauthorized")) 401), [])
  else
    match req_json req with
    | None => (Returned (json (Error (js "Invalid JSON")) 400), [])
    | Some body =>
        match property body (js "mode") with
        | None => (Thrown, [])
        | Some m =>
            let mode := mode_of m in
            match dbErr with
            | Some message => (Returned (json (Error message) 500), [SelectActive])
            | None =>
                let subscribers :=
                  List.filter InboundSms.sub_active (InboundSms.subscribers st) in
                match mode with
                | VerifyPin.JStr m =>
                    if str_eqb m (js "broadcast") then
                      match trimmed body (js "message") with
                      | None => (Thrown, [SelectActive])
                      | Some (Some ((_ :: _) as message)) =>
                          report (deliver (fun _ => message) subscribers zero 0)
                      | Some _ =>
                          (Returned (json (Error (js "No message provided")) 400),
                           [SelectActive])
                      end
                    else if str_eqb m (js "decision") then
                      match trimmed body (js "template") with
                      | None => (Thrown, [SelectActive])
                      | Some (Some ((_ :: _) as template)) =>
                          report (deliver (personalised template) subscribers zero 0)
                      | Some _ =>
                          (Returned (json (Error (js "No template provided")) 400),
                           [SelectActive])
                      end
                    else (Returned (json (Error (js "Unknown mode: " ++ m)) 400),
                          [SelectActive])
                | other =>
                    match VerifyPin.toString other with
                    | Some text =>
                        (Returned (json (Error (js "Unknown mode: " ++ text)) 400),
                         [SelectActive])
                    | None => (Thrown, [SelectActive])
                    end
                end
            end
        end
    end.

End Handler.

End Broadcast.

Module TemplateFacts.
Import Template.

Definition no_dollar (u : Z) : bool := negb (u =? 36).
Definition no_brace (u : Z) : bool := negb (u =? 123).

(** [ph] is one of the spellings of the placeholder. *)
Definition is_placeholder (ph : jsstring) : bool :=
  match placeholder ph with
  | Some (_, []) => true
  | _ => false
  end.

Lemma placeholder_app ph rest :
  is_placeholder ph = true ->
  placeholder (ph ++ rest) = Some (ph, rest) /\ length ph = 5%nat.
Proof.
  unfold is_placeholder.
  destruct ph as [|a [|b [|c [|d [|e after]]]]]; try discriminate.
  cbn [placeholder app].
  destruct ((a =? 123) && ((b =? 112) || (b =? 80)) && ((c =? 105) || (c =? 73))
            && ((d =? 110) || (d =? 78)) && (e =? 125)); [|discriminate].
  destruct after; [|discriminate]. intros _. split; reflexivity.
Qed.

Lemma substitute_plain matched before after repl :
  forallb no_dollar repl = true -> substitute matched before after repl = repl.
Proof.
  induction repl as [|u tl IH]; [reflexivity|].
  intros H. cbn [forallb] in H. apply andb_prop in H as [Hu Htl].
  cbn [substitute]. destruct tl as [|c r]; [reflexivity|].
  unfold no_dollar in Hu. apply negb_true_iff in Hu. rewrite Hu.
  rewrite (IH Htl). reflexivity.
Qed.

Lemma scan_skip p : forall before rest repl,
  scan (length p) before (p ++ rest) repl = scan 0 (before ++ p) rest repl.
Proof.
  induction p as [|u p IH]; intros before rest repl.
  - cbn [length app]. rewrite app_nil_r. reflexivity.
  - cbn [length app scan]. rewrite IH, <- app_assoc. reflexivity.
Qed.

Lemma scan_before s : forall k before repl,
  forallb no_dollar repl = true ->
  scan k before s repl = scan k [] s repl.
Proof.
  induction s as [|u r IH]; intros k before repl Hr; [reflexivity|].
  cbn [scan]. destruct k as [|k].
  - destruct (placeholder (u :: r)) as [[matched after]|].
    + rewrite !(substitute_plain _ _ _ _ Hr).
      rewrite (IH 4%nat (before ++ [u]) repl Hr), (IH 4%nat ([] ++ [u]) repl Hr).
      reflexivity.
    + rewrite (IH 0%nat (before ++ [u]) repl Hr), (IH 0%nat ([] ++ [u]) repl Hr).
      reflexivity.
  - rewrite (IH k (before ++ [u]) repl Hr), (IH k ([] ++ [u]) repl Hr). reflexivity.
Qed.

Lemma placeholder_no_brace u l : no_brace u = true -> placeholder (u :: l) = None.
Proof.
  unfold no_brace. intros Hu. apply negb_true_iff in Hu.
  destruct l as [|b [|c [|d [|e after]]]]; try reflexivity.
  cbn [placeholder]. rewrite Hu. reflexivity.
Qed.

Lemma scan_no_brace a : forall before s repl,
  forallb no_brace a = true ->
  scan 0 before (a ++ s) repl = a ++ scan 0 (before ++ a) s repl.
Proof.
  induction a as [|u a IH]; intros before s repl Ha.
  - cbn [app]. rewrite app_nil_r. reflexivity.
  - cbn [forallb] in Ha. apply andb_prop in Ha as [Hu Ha].
    cbn [app scan]. rewrite (placeholder_no_brace _ _ Hu).
    rewrite (IH _ _ _ Ha), <- app_assoc. reflexivity.
Qed.

(** The text before a placeholder stays, the placeholder becomes the
    replacement, and the scan goes on behind it. *)
Lemma replace_pin_step a ph rest repl :
  forallb no_brace a = true -> is_placeholder ph = true ->
  forallb no_dollar repl = true ->
  replace_pin (a ++ ph ++ rest) repl = a ++ repl ++ replace_pin rest repl.
Proof.
  intros Ha Hph Hr. unfold replace_pin.
  rewrite (scan_no_brace a [] _ _ Ha). f_equal.
  destruct (placeholder_app ph rest Hph) as [Hp Hlen].
  destruct ph as [|x ph]; [discriminate|].
  cbn [app scan]. cbn [app] in Hp. rewrite Hp.
  rewrite (substitute_plain _ _ _ _ Hr). f_equal.
  cbn [length] in Hlen. injection Hlen as Hlen. rewrite <- Hlen.
  rewrite scan_skip. apply scan_before. exact Hr.
Qed.

Lemma replace_pin_plain a repl :
  forallb no_brace a = true -> replace_pin a repl = a.
Proof.
  intros Ha. unfold replace_pin.
  rewrite <- (app_nil_r a) at 1. rewrite (scan_no_brace a [] [] repl Ha).
  cbn [scan]. apply app_nil_r.
Qed.

End TemplateFacts.

(** X19 (the personal message, lines 142-145). For a template text [a]
    without an opening brace followed by a placeholder in any case and a
    rest, the message keeps [a], puts the subscriber's trimmed PIN, when it
    has no dollar sign, in the place of the placeholder, and goes on with
    the rest; a subscriber whose PIN is missing or blank gets the fallback
    text there; and a template without a brace is sent as it is. *)
Theorem pin_replaces_placeholder (a ph rest : jsstring) (s : InboundSms.subscriber) :
  forallb TemplateFacts.no_brace a = true ->
  TemplateFacts.is_placeholder ph = true ->
  (forall pin,
      option_map trim (InboundSms.sub_pin_code s) = Some pin ->
      InboundSms.truthy (Some pin) = true ->
      forallb TemplateFacts.no_dollar pin = true ->
      Broadcast.personalised (a ++ ph ++ rest) s
      = a ++ pin ++ Broadcast.personalised rest s)
  /\ (InboundSms.truthy (option_map trim (InboundSms.sub_pin_code s)) = false ->
      Broadcast.personalised (a ++ ph ++ rest) s
      = a ++ js "(check your email or DM for PIN)" ++ Broadcast.personalised rest s)
  /\ Broadcast.personalised a s = a.
Proof.
  intros Ha Hph. unfold Broadcast.personalised. repeat split.
  - intros pin Hpin Ht Hd. rewrite Hpin.
    destruct pin as [|u pin]; [discriminate|].
    apply TemplateFacts.replace_pin_step; assumption.
  - intros Ht.
    destruct (option_map trim (InboundSms.sub_pin_code s)) as [[|u pin]|];
      try discriminate;
      apply TemplateFacts.replace_pin_step; auto.
  - destruct (option_map trim (InboundSms.sub_pin_code s)) as [[|u pin]|];
      apply TemplateFacts.replace_pin_plain; exact Ha.
Qed.

Definition ada : InboundSms.subscriber :=
  {| InboundSms.sub_id := js "id-9";
     InboundSms.sub_name := js "Ada";
     InboundSms.sub_phone := js "+16475551234";
     InboundSms.sub_pin_code := Some (js " Z141Z3 ");
     InboundSms.sub_how_met := None;
     InboundSms.sub_active := true |}.

Lemma pin_replaces_placeholder_witness :
  Broadcast.personalised (js "Vote with " ++ js "{PIN}" ++ js " today") ada
  = js "Vote with " ++ js "Z141Z3" ++ Broadcast.personalised (js " today") ada.
Proof.
  apply (pin_replaces_placeholder (js "Vote with ") (js "{PIN}") (js " today") ada);
    reflexivity.
Defined.

Module BroadcastFacts.
Import Broadcast.

Section Deliver.
Variable ENCRYPTION_KEY : jsstring.
Variable sendSMS : nat -> jsstring -> jsstring -> option jsstring.

(** The counters of the loop: every row adds one to exactly one of them, and
    each row that is not skipped is one message given to Twilio. *)
Lemma deliver_counts compose rows : forall t calls t' trace,
  deliver ENCRYPTION_KEY sendSMS compose rows t calls = (t', trace) ->
  sent t' + skipped t' + Z.of_nat (length (errors t'))
  = sent t + skipped t + Z.of_nat (length (errors t)) + Z.of_nat (length rows)
  /\ sent t <= sent t' /\ skipped t <= skipped t'
  /\ Z.of_nat (length trace)
     = sent t' - sent t + Z.of_nat (length (errors t')) - Z.of_nat (length (errors t)).
Proof.
  induction rows as [|s r IH]; intros t calls t' trace H.
  - cbn in H. injection H as <- <-. cbn [length]. lia.
  - cbn [deliver] in H. cbv zeta in H.
    destruct (InboundSms.normalisePhone _) as [[|u e164]|].
    + apply IH in H. cbn [sent skipped errors] in H. cbn [length]. lia.
    + match type of H with
      | (let '(_, _) := deliver _ _ _ _ ?t1 _ in _) = _ =>
          destruct (deliver ENCRYPTION_KEY sendSMS compose r t1 (S calls))
            as [t'' tr] eqn:Hd
      end.
      injection H as <- <-. apply IH in Hd.
      destruct (sendSMS calls (u :: e164) (compose s)) as [[|x err]|];
        cbn [sent skipped errors] in Hd; try rewrite length_app in Hd;
        cbn [length] in *; lia.
    + apply IH in H. cbn [sent skipped errors] in H. cbn [length]. lia.
Qed.

(** Every message of the loop goes to the normalised number of one of the
    rows, with the text composed for that row. *)
Lemma deliver_recipients compose rows : forall t calls t' trace to body,
  deliver ENCRYPTION_KEY sendSMS compose rows t calls = (t', trace) ->
  In (SendSMS to body) trace ->
  exists s, In s rows
    /\ InboundSms.normalisePhone
         (Envelope.decryptField ENCRYPTION_KEY (InboundSms.sub_phone s)) = Some to
    /\ body = compose s.
Proof.
  induction rows as [|s r IH]; intros t calls t' trace to body H Hin.
  - cbn in H. injection H as <- <-. destruct Hin.
  - cbn [deliver] in H. cbv zeta in H.
    destruct (InboundSms.normalisePhone _) as [[|u e164]|] eqn:Hn.
    + destruct (IH _ _ _ _ _ _ H Hin) as (s' & Hs' & Hrest).
      exists s'. split; [right; exact Hs'|exact Hrest].
    + match type of H with
      | (let '(_, _) := deliver _ _ _ _ ?t1 _ in _) = _ =>
          destruct (deliver ENCRYPTION_KEY sendSMS compose r t1 (S calls))
            as [t'' tr] eqn:Hd
      end.
      injection H as <- <-. destruct Hin as [Hhead|Hin].
      * injection Hhead as <- <-. exists s. split; [left; reflexivity|].
        split; [exact Hn|reflexivity].
      * destruct (IH _ _ _ _ _ _ Hd Hin) as (s' & Hs' & Hrest).
        exists s'. split; [right; exact Hs'|exact Hrest].
    + destruct (IH _ _ _ _ _ _ H Hin) as (s' & Hs' & Hrest).
      exists s'. split; [right; exact Hs'|exact Hrest].
Qed.

End Deliver.

Section Handler.
Variable SERVICE_KEY : option jsstring.
Variable ENCRYPTION_KEY : jsstring.
Variable sendSMS : nat -> jsstring -> jsstring -> option jsstring.
Variable dbErr : option jsstring.

Ltac stops := eexists; split; [reflexivity|discriminate].

(** The ways the handler ends: without a loop the trace holds the query at
    most, and with a loop it is the report of that loop over the active
    rows. *)
Lemma handler_cases st req :
  (exists out, handler SERVICE_KEY ENCRYPTION_KEY sendSMS dbErr st req = (out, [])
     /\ forall s k e, out <> Returned (json (Tally s k e) 200))
  \/ (Auth.isAuthorised SERVICE_KEY (authorization req) = true
      /\ ((exists out,
              handler SERVICE_KEY ENCRYPTION_KEY sendSMS dbErr st req
              = (out, [SelectActive])
              /\ forall s k e, out <> Returned (json (Tally s k e) 200))
          \/ exists compose,
               handler SERVICE_KEY ENCRYPTION_KEY sendSMS dbErr st req
               = report (deliver ENCRYPTION_KEY sendSMS compose
                           (List.filter InboundSms.sub_active (InboundSms.subscribers st))
                           zero 0))).
Proof.
  unfold handler.
  destruct (str_eqb (req_method req) (js "OPTIONS")); [left; stops|].
  destruct (Auth.isAuthorised SERVICE_KEY (authorization req)); cbn [negb];
    [|left; stops].
  destruct (req_json req) as [body|]; [|left; stops].
  destruct (property body (js "mode")) as [m|]; [|left; stops].
  right. split; [reflexivity|]. cbv zeta.
  destruct dbErr as [message|]; [left; stops|].
  generalize (mode_of m). intros mode.
  destruct mode as [|b|r|m0|l|fields];
    try (left; destruct (VerifyPin.toString _); stops).
  destruct (str_eqb m0 (js "broadcast")).
  - destruct (trimmed body (js "message")) as [[[|u l]|]|]; try (left; stops).
    right. eexists. reflexivity.
  - destruct (str_eqb m0 (js "decision")); [|left; stops].
    destruct (trimmed body (js "template")) as [[[|u l]|]|]; try (left; stops).
    right. eexists. reflexivity.
Qed.

End Handler.

End BroadcastFacts.

(** X20 (every active subscriber is accounted for). When broadcast-sms
    answers with its tally, the messages sent, the subscribers skipped and
    the errors add up to the number of active subscribers, and the messages
    given to Twilio are the sent ones and the failed ones. *)
Theorem broadcast_accounts_for_everyone
    (SERVICE_KEY : option jsstring) (ENCRYPTION_KEY : jsstring)
    (sendSMS : nat -> jsstring -> jsstring -> option jsstring)
    (dbErr : option jsstring) (st : InboundSms.store) (req : Broadcast.request)
    (sent skipped : Z) (errors : list jsstring) (trace : list Broadcast.event) :
  Broadcast.handler SERVICE_KEY ENCRYPTION_KEY sendSMS dbErr st req
  = (Broadcast.Returned (Broadcast.json (Broadcast.Tally sent skipped errors) 200), trace) ->
  sent + skipped + Z.of_nat (length errors)
  = Z.of_nat (length (List.filter InboundSms.sub_active (InboundSms.subscribers st)))
  /\ 0 <= sent /\ 0 <= skipped
  /\ Z.of_nat (length trace) = 1 + sent + Z.of_nat (length errors).
Proof.
  intros H.
  destruct (BroadcastFacts.handler_cases SERVICE_KEY ENCRYPTION_KEY sendSMS dbErr st req)
    as [(out & Hout & Hno)|(_ & [(out & Hout & Hno)|(compose & Hrun)])].
  - rewrite Hout in H. injection H as -> _. exfalso. eapply Hno. reflexivity.
  - rewrite Hout in H. injection H as -> _. exfalso. eapply Hno. reflexivity.
  - rewrite Hrun in H. unfold Broadcast.report in H.
    destruct (Broadcast.deliver ENCRYPTION_KEY sendSMS compose
                (List.filter InboundSms.sub_active (InboundSms.subscribers st))
                Broadcast.zero 0) as [t tr] eqn:Hd.
    cbn [fst snd] in H. injection H as <- <- <- <-.
    apply BroadcastFacts.deliver_counts in Hd.
    cbn [Broadcast.sent Broadcast.skipped Broadcast.errors Broadcast.zero length] in Hd.
    cbn [length]. lia.
Qed.

(** A POST with the bearer key and a message for everyone. *)
Definition broadcast_request : Broadcast.request :=
  {| Broadcast.req_method := js "POST";
     Broadcast.authorization := Some (js "Bearer service-key");
     Broadcast.req_json :=
       Some (VerifyPin.JObj [(js "message", VerifyPin.JStr (js " Vote today "))]) |}.

(** Twilio refuses the second message and accepts the others. *)
Definition second_fails (n : nat) (to body : jsstring) : option jsstring :=
  match n with
  | 1%nat => Some (js "unreachable")
  | _ => None
  end.

Definition broadcast_trace : list Broadcast.event :=
  [Broadcast.SelectActive;
   Broadcast.SendSMS (js "+16475551234") (js "Vote today");
   Broadcast.SendSMS (js "+4917612345") (js "Vote today");
   Broadcast.SendSMS (js "+13065559999") (js "Vote today")].

Lemma broadcast_accounts_for_everyone_witness :
  2 + 0 + Z.of_nat (length [js "+4917612345: unreachable"])
  = Z.of_nat (length (List.filter InboundSms.sub_active
                        (InboundSms.subscribers sample_store)))
  /\ 0 <= 2 /\ 0 <= 0
  /\ Z.of_nat (length broadcast_trace)
     = 1 + 2 + Z.of_nat (length [js "+4917612345: unreachable"]).
Proof.
  apply (broadcast_accounts_for_everyone (Some (js "service-key")) zero_key second_fails
           None sample_store broadcast_request).
  vm_compute. reflexivity.
Defined.

(** X21 (who gets a message). Every message broadcast-sms gives to Twilio
    goes to a number of the E.164 shape that is the normalised, decrypted
    phone of an active subscriber. *)
Theorem sms_goes_to_active_subscribers
    (SERVICE_KEY : option jsstring) (ENCRYPTION_KEY : jsstring)
    (sendSMS : nat -> jsstring -> jsstring -> option jsstring)
    (dbErr : option jsstring) (st : InboundSms.store) (req : Broadcast.request)
    (to body : jsstring) :
  In (Broadcast.SendSMS to body)
     (snd (Broadcast.handler SERVICE_KEY ENCRYPTION_KEY sendSMS dbErr st req)) ->
  PhoneFacts.e164_shape to = true
  /\ exists s, In s (InboundSms.subscribers st)
       /\ InboundSms.sub_active s = true
       /\ InboundSms.normalisePhone
            (Envelope.decryptField ENCRYPTION_KEY (InboundSms.sub_phone s)) = Some to.
Proof.
  intros Hin.
  destruct (BroadcastFacts.handler_cases SERVICE_KEY ENCRYPTION_KEY sendSMS dbErr st req)
    as [(out & Hout & _)|(_ & [(out & Hout & _)|(compose & Hrun)])].
  - rewrite Hout in Hin. destruct Hin.
  - rewrite Hout in Hin. destruct Hin as [Hin|[]]. discriminate Hin.
  - rewrite Hrun in Hin. unfold Broadcast.report in Hin. cbn [snd] in Hin.
    destruct Hin as [Hin|Hin]; [discriminate Hin|].
    destruct (Broadcast.deliver ENCRYPTION_KEY sendSMS compose
                (List.filter InboundSms.sub_active (InboundSms.subscribers st))
                Broadcast.zero 0) as [t tr] eqn:Hd.
    cbn [snd] in Hin.
    destruct (BroadcastFacts.deliver_recipients _ _ _ _ _ _ _ _ _ _ Hd Hin)
      as (s & Hs & Hn & _).
    apply List.filter_In in Hs as [Hs Hactive].
    split; [exact (PhoneFacts.normalisePhone_shape _ _ Hn)|].
    exists s. auto.
Qed.

Lemma sms_goes_to_active_subscribers_witness :
  PhoneFacts.e164_shape (js "+4917612345") = true
  /\ exists s, In s (InboundSms.subscribers sample_store)
       /\ InboundSms.sub_active s = true
       /\ InboundSms.normalisePhone
            (Envelope.decryptField zero_key (InboundSms.sub_phone s))
          = Some (js "+4917612345").
Proof.
  apply (sms_goes_to_active_subscribers (Some (js "service-key")) zero_key second_fails
           None sample_store broadcast_request (js "+4917612345") (js "Vote today")).
  vm_compute. auto.
Defined.

(** X22 (nothing happens without the bearer key). Whatever broadcast-sms
    does to the world, a query or a message, it does for a request that
    passed the bearer check, and the first thing it does is the read of the
    active subscribers. *)
Theorem broadcast_needs_bearer
    (SERVICE_KEY : option jsstring) (ENCRYPTION_KEY : jsstring)
    (sendSMS : nat -> jsstring -> jsstring -> option jsstring)
    (dbErr : option jsstring) (st : InboundSms.store) (req : Broadcast.request)
    (e : Broadcast.event) (trace : list Broadcast.event) :
  snd (Broadcast.handler SERVICE_KEY ENCRYPTION_KEY sendSMS dbErr st req) = e :: trace ->
  Auth.isAuthorised SERVICE_KEY (Broadcast.authorization req) = true
  /\ e = Broadcast.SelectActive.
Proof.
  intros H.
  destruct (BroadcastFacts.handler_cases SERVICE_KEY ENCRYPTION_KEY sendSMS dbErr st req)
    as [(out & Hout & _)|(Hauth & [(out & Hout & _)|(compose & Hrun)])].
  - rewrite Hout in H. discriminate H.
  - rewrite Hout in H. injection H as <- _. auto.
  - rewrite Hrun in H. unfold Broadcast.report in H. injection H as <- _. auto.
Qed.

Lemma broadcast_needs_bearer_witness :
  Auth.isAuthorised (Some (js "service-key")) (Broadcast.authorization broadcast_request)
  = true
  /\ Broadcast.SelectActive = Broadcast.SelectActive.
Proof.
  apply (broadcast_needs_bearer (Some (js "service-key")) zero_key second_fails
           None sample_store broadcast_request Broadcast.SelectActive
           (tl broadcast_trace)).
  vm_compute. reflexivity.
Defined.

(** ** admin-data *)

Module AdminData.

(** A row of inbound_sms. *)
Record inbound_row := { in_id : jsstring; in_from : jsstring; in_body : jsstring }.

(** The tables the handler touches, each with its rows in the order of
    their creation: [created_at] and [received_at] are set by the store when
    a row is inserted. *)
Record store := {
  subscribers : list InboundSms.subscriber;
  inbound_sms : list inbound_row;
  pins : list (jsstring * option jsstring)
}.

(** The body of a POST at the shape the file documents (lines 13 and 120):
    texts, [None] where a field is missing. *)
Record subscriber_data := {
  d_name : option jsstring;
  d_phone : option jsstring;
  d_how_met : option jsstring;
  d_pin_code : option jsstring
}.

Record post_body := {
  p_resource : option jsstring;
  p_action : option jsstring;
  p_data : option subscriber_data;
  p_id : option jsstring
}.

(** The request as the handler reads it: [resource] is
    [url.searchParams.get('resource')], and [req_json] the outcome of
    [await req.json()], [None] when it throws. *)
Record request := {
  req_method : jsstring;
  authorization : option jsstring;
  resource : option jsstring;
  req_json : option post_body
}.

(** The value a response carries: the text ['ok'], or the value given to
    [JSON.stringify]. *)
Inductive payload :=
| Text (t : jsstring)
| Error (message : jsstring)
| Subscribers (rows : list InboundSms.subscriber)
| Replies (rows : list inbound_row)
| Ok
| OkPin (pin : jsstring).

Record response := { status : Z; data : payload }.

Definition json (data : payload) (status : Z) : response :=
  {| status := status; data := data |}.

(** The queries sent to the store, in order. *)
Inductive event :=
| SelectSubscribers
| SelectReplies
| UpsertPin (code : jsstring) (label : option jsstring)
| InsertSubscriber (row : InboundSms.subscriber)
| SelectActive (id : option jsstring)
| UpdateActive (id : option jsstring) (active : bool)
| DeleteSubscriber (id : option jsstring)
| DeleteReply (id : option jsstring).

Inductive outcome := Returned (r : response) | Thrown.

(** [.eq('id', id)] *)
Definition has_id (id : option jsstring) (row_id : jsstring) : bool :=
  match id with
  | Some i => str_eqb row_id i
  | None => false
  end.

(** What the request draws: the bytes of [crypto.getRandomValues] for the
    PIN and the three nonces, and the id the store gives a new row. *)
Record draws := {
  pin_bytes : byte * byte * byte * byte;
  iv_name : bytes;
  iv_phone : bytes;
  iv_how_met : bytes;
  new_id : jsstring
}.

Definition is_text (v : option jsstring) (t : string) : bool :=
  match v with
  | Some s => str_eqb s (js t)
  | None => false
  end.

Section Handler.

(** SUPABASE_SERVICE_ROLE_KEY ([None] when not set) and ENCRYPTION_KEY. *)
Variable SERVICE_KEY : option jsstring.
Variable ENCRYPTION_KEY : jsstring.
(** [error.message] of the query whose error the handler checks, when the
    store refuses it; nothing is written then. *)
Variable dbErr : option jsstring.
Variable rnd : draws.

(** Lines 94-99. *)
Definition decrypted (s : InboundSms.subscriber) : InboundSms.subscriber :=
  {| InboundSms.sub_id := InboundSms.sub_id s;
     InboundSms.sub_name :=
       match InboundSms.sub_name s with
       | _ :: _ => Envelope.decrypt ENCRYPTION_KEY (InboundSms.sub_name s)
       | [] => []
       end;
     InboundSms.sub_phone :=
       match InboundSms.sub_phone s with
       | _ :: _ => Envelope.decrypt ENCRYPTION_KEY (InboundSms.sub_phone s)
       | [] => []
       end;
     InboundSms.sub_pin_code := InboundSms.sub_pin_code s;
     InboundSms.sub_how_met :=
       match InboundSms.sub_how_met s with
       | Some ((_ :: _) as h) => Some (Envelope.decrypt ENCRYPTION_KEY h)
       | _ => None
       end;
     InboundSms.sub_active := InboundSms.sub_active s |}.

(** Lines 85-111. *)
Definition get (st : store) (req : request) : outcome * store * list event :=
  if is_text (resource req) "subscribers" then
    match dbErr with
    | Some message => (Returned (json (Error message) 500), st, [SelectSubscribers])
    | None =>
        (Returned (json (Subscribers (map decrypted (rev (subscribers st)))) 200),
         st, [SelectSubscribers])
    end
  else if is_text (resource req) "replies" then
    match dbErr with
    | Some message => (Returned (json (Error message) 500), st, [SelectReplies])
    | None =>
        (Returned (json (Replies (firstn 50 (rev (inbound_sms st)))) 200),
         st, [SelectReplies])
    end
  else (Returned (json (Error (js "Unknown resource")) 400), st, []).

(** Lines 119-142; [None] where [data] is missing and reading its fields
    throws, or [encrypt] throws. *)
Definition upsert (st : store) (data : option subscriber_data)
    : outcome * store * list event :=
  match data with
  | None => (Thrown, st, [])
  | Some data =>
      let e164 := d_phone data in
      let pin :=
        match d_pin_code data with
        | Some p => p
        | None =>
            let '(b0, b1, b2, b3) := pin_bytes rnd in Pin.generatePin b0 b1 b2 b3
        end in
      match Envelope.encrypt ENCRYPTION_KEY (iv_name rnd)
              (match d_name data with Some n => n | None => [] end),
            Envelope.encrypt ENCRYPTION_KEY (iv_phone rnd)
              (match e164 with Some p => p | None => [] end),
            match d_how_met data with
            | Some ((_ :: _) as h) =>
                option_map Some (Envelope.encrypt ENCRYPTION_KEY (iv_how_met rnd) h)
            | _ => Some None
            end with
      | Some encName, Some encPhone, Some encHowMet =>
          let row :=
            {| InboundSms.sub_id := new_id rnd;
               InboundSms.sub_name := encName;
               InboundSms.sub_phone := encPhone;
               InboundSms.sub_pin_code := Some pin;
               InboundSms.sub_how_met := encHowMet;
               InboundSms.sub_active := true |} in
          let pins' := InboundSms.upsert_assoc pin (d_name data) (pins st) in
          match dbErr with
          | Some message =>
              (Returned (json (Error message) 500),
               {| subscribers := subscribers st; inbound_sms := inbound_sms st;
                  pins := pins' |},
               [UpsertPin pin (d_name data); InsertSubscriber row])
          | None =>
              (Returned (json (OkPin pin) 200),
               {| subscribers := subscribers st ++ [row];
                  inbound_sms := inbound_sms st; pins := pins' |},
               [UpsertPin pin (d_name data); InsertSubscriber row])
          end
      | _, _, _ => (Thrown, st, [])
      end
  end.

(** [.select('active').eq('id', id).single()]: the row when exactly one has
    the id. *)
Definition single (id : option jsstring) (st : store) : option InboundSms.subscriber :=
  match List.filter (fun s => has_id id (InboundSms.sub_id s)) (subscribers st) with
  | [s] => Some s
  | _ => None
  end.

Definition set_active (id : option jsstring) (active : bool) (st : store) : store :=
  {| subscribers :=
       map (fun s =>
              if has_id id (InboundSms.sub_id s) then
                {| InboundSms.sub_id := InboundSms.sub_id s;
                   InboundSms.sub_name := InboundSms.sub_name s;
                   InboundSms.sub_phone := InboundSms.sub_phone s;
                   InboundSms.sub_pin_code := InboundSms.sub_pin_code s;
                   InboundSms.sub_how_met := InboundSms.sub_how_met s;
                   InboundSms.sub_active := active |}
              else s)
           (subscribers st);
     inbound_sms := inbound_sms st; pins := pins st |}.

(** Lines 144-149. *)
Definition toggle (st : store) (id : option jsstring) : outcome * store * list event :=
  let active :=
    negb (match single id st with
          | Some current => InboundSms.sub_active current
          | None => false
          end) in
  match dbErr with
  | Some message =>
      (Returned (json (Error message) 500), st, [SelectActive id; UpdateActive id active])
  | None =>
      (Returned (json Ok 200), set_active id active st,
       [SelectActive id; UpdateActive id active])
  end.

(** Lines 151-155. *)
Definition delete_subscriber (st : store) (id : option jsstring)
    : outcome * store * list event :=
  match dbErr with
  | Some message => (Returned (json (Error message) 500), st, [DeleteSubscriber id])
  | None =>
      (Returned (json Ok 200),
       {| subscribers :=
            List.filter (fun s => negb (has_id id (InboundSms.sub_id s))) (subscribers st);
          inbound_sms := inbound_sms st; pins := pins st |},
       [DeleteSubscriber id])
  end.

(** Lines 158-162. *)
Definition delete_reply (st : store) (id : option jsstring)
    : outcome * store * list event :=
  match dbErr with
  | Some message => (Returned (json (Error message) 500), st, [DeleteReply id])
  | None =>
      (Returned (json Ok 200),
       {| subscribers := subscribers st;
          inbound_sms := List.filter (fun r => negb (has_id id (in_id r))) (inbound_sms st);
          pins := pins st |},
       [DeleteReply id])
  end.

(** Lines 114-165. *)
Definition post (st : store) (req : request) : outcome * store * list event :=
  match req_json req with
  | None => (Thrown, st, [])
  | Some body =>
      if is_text (p_resource body) "subscribers" && is_text (p_action body) "upsert"
      then upsert st (p_data body)
      else if is_text (p_resource body) "subscribers" && is_text (p_action body) "toggle"
      then toggle st (p_id body)
      else if is_text (p_resource body) "subscribers" && is_text (p_action body) "delete"
      then delete_subscriber st (p_id body)
      else if is_text (p_resource body) "replies" && is_text (p_action body) "delete"
      then delete_reply st (p_id body)
      else (Returned (json (Error (js "Unknown action")) 400), st, [])
  end.

(** The handler passed to [serve]. *)
Definition handler (st : store) (req : request) : outcome * store * list event :=
  if str_eqb (req_method req) (js "OPTIONS")
  then (Returned {| status := 200; data := Text (js "ok") |}, st, [])
  else if negb (Auth.isAuthorised SERVICE_KEY (authorization req))
  then (Returned (json (Error (js "Unauthorised")) 401), st, [])
  else if str_eqb (req_method req) (js "GET") then get st req
  else if str_eqb (req_method req) (js "POST") then post st req
  else (Returned (json (Error (js "Method not allowed")) 405), st, []).

End Handler.

End AdminData.

Module AdminFacts.
Import AdminData.

Definition text_of (v : option jsstring) : jsstring :=
  match v with Some s => s | None => [] end.

(** A text that UTF-8 carries unchanged. *)
Definition plain (s : jsstring) : Prop := Utf8.well_formed s /\ hd 0 s <> 65279.

Definition with_active (a : bool) (s : InboundSms.subscriber) : InboundSms.subscriber :=
  {| InboundSms.sub_id := InboundSms.sub_id s;
     InboundSms.sub_name := InboundSms.sub_name s;
     InboundSms.sub_phone := InboundSms.sub_phone s;
     InboundSms.sub_pin_code := InboundSms.sub_pin_code s;
     InboundSms.sub_how_met := InboundSms.sub_how_met s;
     InboundSms.sub_active := a |}.

Definition hit (id : option jsstring) (s : InboundSms.subscriber) : bool :=
  has_id id (InboundSms.sub_id s).

Definition set_list (id : option jsstring) (a : bool) (l : list InboundSms.subscriber) :=
  map (fun s => if has_id id (InboundSms.sub_id s) then with_active a s else s) l.

Lemma no_hit k (l : list InboundSms.subscriber) :
  existsb (str_eqb k) (map InboundSms.sub_id l) = false ->
  List.filter (hit (Some k)) l = [].
Proof.
  induction l as [|s r IH]; [reflexivity|].
  cbn [map existsb]. intros H. apply orb_false_elim in H as [Hs Hr].
  cbn [List.filter]. unfold hit at 1. cbn [has_id].
  rewrite JSFacts.str_eqb_sym, Hs. apply IH, Hr.
Qed.

(** With distinct ids, at most one row has a given id. *)
Lemma at_most_one id (l : list InboundSms.subscriber) :
  TwilioFacts.all_distinct (map InboundSms.sub_id l) = true ->
  List.filter (hit id) l = [] \/ exists s, List.filter (hit id) l = [s].
Proof.
  induction l as [|s r IH]; [left; reflexivity|].
  cbn [map TwilioFacts.all_distinct]. intros H. apply andb_prop in H as [Hs Hr].
  apply negb_true_iff in Hs. cbn [List.filter].
  destruct (hit id s) eqn:Hhit; [|apply IH, Hr].
  right. exists s. f_equal.
  unfold hit in Hhit. destruct id as [i|]; [|discriminate]. cbn [has_id] in Hhit.
  apply JSFacts.str_eqb_eq in Hhit. rewrite <- Hhit. apply no_hit, Hs.
Qed.

Lemma filter_set_list id a l :
  List.filter (hit id) (set_list id a l) = map (with_active a) (List.filter (hit id) l).
Proof.
  induction l as [|s r IH]; [reflexivity|].
  cbn [set_list map List.filter]. fold (set_list id a r).
  change (has_id id (InboundSms.sub_id s)) with (hit id s).
  destruct (hit id s) eqn:Hs.
  - change (hit id (with_active a s)) with (hit id s). rewrite Hs.
    cbn [map]. f_equal. exact IH.
  - rewrite Hs. exact IH.
Qed.

Lemma set_list_same id a l :
  (forall s, In s (List.filter (hit id) l) -> InboundSms.sub_active s = a) ->
  set_list id a l = l.
Proof.
  induction l as [|s r IH]; [reflexivity|].
  cbn [set_list map List.filter]. fold (set_list id a r). unfold hit at 1.
  destruct (has_id id (InboundSms.sub_id s)) eqn:Hs; intros H.
  - rewrite IH by (intros s' Hs'; apply H; right; exact Hs').
    f_equal. rewrite <- (H s (or_introl eq_refl)). destruct s. reflexivity.
  - rewrite IH by exact H. reflexivity.
Qed.

Lemma set_list_twice id a b l : set_list id b (set_list id a l) = set_list id b l.
Proof.
  unfold set_list. rewrite map_map. apply map_ext. intros s.
  destruct (has_id id (InboundSms.sub_id s)) eqn:Hs.
  - cbn [with_active InboundSms.sub_id]. rewrite Hs. reflexivity.
  - rewrite Hs. reflexivity.
Qed.

Section Handler.
Variable SERVICE_KEY : option jsstring.
Variable ENCRYPTION_KEY : jsstring.
Variable rnd : draws.

Lemma single_eq id st :
  single id st
  = match List.filter (hit id) (subscribers st) with
    | [s] => Some s
    | _ => None
    end.
Proof. reflexivity. Qed.

Lemma set_active_eq id a st :
  set_active id a st
  = {| subscribers := set_list id a (subscribers st);
       inbound_sms := inbound_sms st; pins := pins st |}.
Proof. reflexivity. Qed.

(** Two toggles of one id leave the subscribers as they were. *)
Lemma toggle_twice id st :
  TwilioFacts.all_distinct (map InboundSms.sub_id (subscribers st)) = true ->
  snd (fst (toggle None (snd (fst (toggle None st id))) id)) = st.
Proof.
  intros Hd. unfold toggle. cbn [fst snd].
  rewrite !single_eq, !set_active_eq. cbn [subscribers inbound_sms pins].
  rewrite filter_set_list, set_list_twice.
  destruct (at_most_one id (subscribers st) Hd) as [Hnone|[s Hone]].
  - rewrite Hnone. cbn [map negb]. rewrite set_list_same.
    + destruct st. reflexivity.
    + rewrite Hnone. intros s' [].
  - rewrite Hone. cbn [map with_active InboundSms.sub_active].
    rewrite negb_involutive, set_list_same.
    + destruct st. reflexivity.
    + rewrite Hone. intros s' [<-|[]]. reflexivity.
Qed.

(** What is listed for a row with sealed fields. *)
Lemma decrypted_sealed key id name phone how_met pin encName encPhone encHowMet :
  Envelope.getAesKey ENCRYPTION_KEY = Some key ->
  Envelope.decrypt ENCRYPTION_KEY encName = name ->
  Envelope.decrypt ENCRYPTION_KEY encPhone = phone ->
  match how_met with
  | Some (u :: h) =>
      exists e, encHowMet = Some e /\ Envelope.decrypt ENCRYPTION_KEY e = u :: h
  | _ => encHowMet = None
  end ->
  decrypted ENCRYPTION_KEY
    {| InboundSms.sub_id := id; InboundSms.sub_name := encName;
       InboundSms.sub_phone := encPhone; InboundSms.sub_pin_code := Some pin;
       InboundSms.sub_how_met := encHowMet; InboundSms.sub_active := true |}
  = {| InboundSms.sub_id := id; InboundSms.sub_name := name;
       InboundSms.sub_phone := phone; InboundSms.sub_pin_code := Some pin;
       InboundSms.sub_how_met :=
         match how_met with Some ((_ :: _) as h) => Some h | _ => None end;
       InboundSms.sub_active := true |}.
Proof.
  intros _ Hname Hphone Hhow. unfold decrypted.
  cbn [InboundSms.sub_id InboundSms.sub_name InboundSms.sub_phone
       InboundSms.sub_pin_code InboundSms.sub_how_met InboundSms.sub_active].
  f_equal.
  - destruct encName; [rewrite <- Hname; reflexivity|exact Hname].
  - destruct encPhone; [rewrite <- Hphone; reflexivity|exact Hphone].
  - destruct how_met as [[|u h]|]; try (rewrite Hhow; reflexivity).
    destruct Hhow as (e & -> & He). destruct e as [|x e]; [discriminate He|].
    rewrite He. reflexivity.
Qed.

End Handler.

End AdminFacts.

(** The three requests of the admin page that the theorems below follow. *)
Definition add_request (auth : option jsstring) (data : AdminData.subscriber_data)
    : AdminData.request :=
  {| AdminData.req_method := js "POST";
     AdminData.authorization := auth;
     AdminData.resource := None;
     AdminData.req_json :=
       Some {| AdminData.p_resource := Some (js "subscribers");
               AdminData.p_action := Some (js "upsert");
               AdminData.p_data := Some data;
               AdminData.p_id := None |} |}.

Definition list_request (auth : option jsstring) : AdminData.request :=
  {| AdminData.req_method := js "GET";
     AdminData.authorization := auth;
     AdminData.resource := Some (js "subscribers");
     AdminData.req_json := None |}.

Definition toggle_request (auth : option jsstring) (id : option jsstring)
    : AdminData.request :=
  {| AdminData.req_method := js "POST";
     AdminData.authorization := auth;
     AdminData.resource := None;
     AdminData.req_json :=
       Some {| AdminData.p_resource := Some (js "subscribers");
               AdminData.p_action := Some (js "toggle");
               AdminData.p_data := None;
               AdminData.p_id := id |} |}.

(** X23 (the admin proxy does nothing without the bearer key). Whenever a
    run of admin-data sends a query to the store or leaves the store
    changed, the request passed the bearer check. *)
Theorem admin_needs_bearer
    (SERVICE_KEY : option jsstring) (ENCRYPTION_KEY : jsstring)
    (dbErr : option jsstring) (rnd : AdminData.draws)
    (st : AdminData.store) (req : AdminData.request) :
  let out := AdminData.handler SERVICE_KEY ENCRYPTION_KEY dbErr rnd st req in
  snd out <> [] \/ snd (fst out) <> st ->
  Auth.isAuthorised SERVICE_KEY (AdminData.authorization req) = true.
Proof.
  cbv zeta. unfold AdminData.handler.
  destruct (str_eqb (AdminData.req_method req) (js "OPTIONS"));
    [cbn [fst snd]; intros [H|H]; congruence|].
  destruct (Auth.isAuthorised SERVICE_KEY (AdminData.authorization req));
    [reflexivity|].
  cbn [negb fst snd]. intros [H|H]; congruence.
Qed.

(** X24 (what is added is listed as it was given). With a usable key,
    nonces of 12 bytes as the code draws them, and a store that accepts the
    insert, an authorised upsert of a name, a phone
    and a context that UTF-8 carries unchanged answers with the PIN, the one
    given or else a generated one, and an authorised listing of the
    resulting store then shows first the new subscriber with exactly that
    name, phone, context and PIN, active, followed by what was listed
    before. *)
Theorem admin_round_trip
    (SERVICE_KEY auth : option jsstring) (ENCRYPTION_KEY : jsstring) (key : bytes)
    (rnd : AdminData.draws) (st : AdminData.store) (data : AdminData.subscriber_data) :
  Auth.isAuthorised SERVICE_KEY auth = true ->
  Envelope.getAesKey ENCRYPTION_KEY = Some key ->
  Forall is_byte (AdminData.iv_name rnd) /\ length (AdminData.iv_name rnd) = 12%nat ->
  Forall is_byte (AdminData.iv_phone rnd) /\ length (AdminData.iv_phone rnd) = 12%nat ->
  Forall is_byte (AdminData.iv_how_met rnd)
  /\ length (AdminData.iv_how_met rnd) = 12%nat ->
  AdminFacts.plain (AdminFacts.text_of (AdminData.d_name data)) ->
  AdminFacts.plain (AdminFacts.text_of (AdminData.d_phone data)) ->
  AdminFacts.plain (AdminFacts.text_of (AdminData.d_how_met data)) ->
  exists pin st' trace,
    AdminData.handler SERVICE_KEY ENCRYPTION_KEY None rnd st (add_request auth data)
    = (AdminData.Returned (AdminData.json (AdminData.OkPin pin) 200), st', trace)
    /\ (forall p, AdminData.d_pin_code data = Some p -> pin = p)
    /\ AdminData.handler SERVICE_KEY ENCRYPTION_KEY None rnd st' (list_request auth)
       = (AdminData.Returned
            (AdminData.json
               (AdminData.Subscribers
                  ({| InboundSms.sub_id := AdminData.new_id rnd;
                      InboundSms.sub_name := AdminFacts.text_of (AdminData.d_name data);
                      InboundSms.sub_phone := AdminFacts.text_of (AdminData.d_phone data);
                      InboundSms.sub_pin_code := Some pin;
                      InboundSms.sub_how_met :=
                        match AdminData.d_how_met data with
                        | Some ((_ :: _) as h) => Some h
                        | _ => None
                        end;
                      InboundSms.sub_active := true |}
                   :: map (AdminData.decrypted ENCRYPTION_KEY)
                        (rev (AdminData.subscribers st))))
               200),
          st', [AdminData.SelectSubscribers]).
Proof.
  intros Hauth Hkey [Hn1 Hn2] [Hp1 Hp2] [Hh1 Hh2] [Hname Hnb] [Hphone Hpb] [Hhow Hhb].
  destruct (EnvelopeFacts.envelope_decrypt_encrypt ENCRYPTION_KEY key _ _
              Hkey Hn1 Hn2 Hname Hnb) as (encName & HencName & HdecName).
  destruct (EnvelopeFacts.envelope_decrypt_encrypt ENCRYPTION_KEY key _ _
              Hkey Hp1 Hp2 Hphone Hpb) as (encPhone & HencPhone & HdecPhone).
  destruct (EnvelopeFacts.envelope_decrypt_encrypt ENCRYPTION_KEY key _ _
              Hkey Hh1 Hh2 Hhow Hhb) as (encHow & HencHow & HdecHow).
  unfold AdminData.handler, add_request, list_request.
  cbn [AdminData.req_method AdminData.authorization AdminData.resource
       AdminData.req_json].
  rewrite Hauth. cbn [negb].
  change (str_eqb (js "POST") (js "OPTIONS")) with false.
  change (str_eqb (js "POST") (js "GET")) with false.
  change (str_eqb (js "POST") (js "POST")) with true.
  change (str_eqb (js "GET") (js "OPTIONS")) with false.
  change (str_eqb (js "GET") (js "GET")) with true.
  cbv iota. unfold AdminData.post. cbn [AdminData.req_json AdminData.p_resource
    AdminData.p_action AdminData.p_data AdminData.p_id].
  change (AdminData.is_text (Some (js "subscribers")) "subscribers") with true.
  change (AdminData.is_text (Some (js "upsert")) "upsert") with true.
  cbn [andb]. unfold AdminData.upsert.
  fold (AdminFacts.text_of (AdminData.d_name data)).
  fold (AdminFacts.text_of (AdminData.d_phone data)).
  rewrite HencName, HencPhone.
  set (pin := match AdminData.d_pin_code data with
              | Some p => p
              | None =>
                  let '(b0, b1, b2, b3) := AdminData.pin_bytes rnd in
                  Pin.generatePin b0 b1 b2 b3
              end).
  assert (Hpin : forall p, AdminData.d_pin_code data = Some p -> pin = p).
  { intros p Hp. unfold pin. rewrite Hp. reflexivity. }
  destruct (AdminData.d_how_met data) as [[|u h]|] eqn:Ehow.
  - do 3 eexists. split; [reflexivity|]. split; [exact Hpin|].
    unfold AdminData.get. cbn [AdminData.resource AdminData.subscribers].
    change (AdminData.is_text (Some (js "subscribers")) "subscribers") with true.
    cbv iota. rewrite rev_app_distr. cbn [rev app map].
    rewrite (AdminFacts.decrypted_sealed ENCRYPTION_KEY key (AdminData.new_id rnd)
               _ _ (Some []) pin encName encPhone None
               Hkey HdecName HdecPhone eq_refl).
    reflexivity.
  - cbn [AdminFacts.text_of] in HencHow, HdecHow. rewrite HencHow. cbn [option_map].
    do 3 eexists. split; [reflexivity|]. split; [exact Hpin|].
    unfold AdminData.get. cbn [AdminData.resource AdminData.subscribers].
    change (AdminData.is_text (Some (js "subscribers")) "subscribers") with true.
    cbv iota. rewrite rev_app_distr. cbn [rev app map].
    rewrite (AdminFacts.decrypted_sealed ENCRYPTION_KEY key (AdminData.new_id rnd)
               _ _ (Some (u :: h)) pin encName encPhone (Some encHow)
               Hkey HdecName HdecPhone
               (ex_intro _ encHow (conj eq_refl HdecHow))).
    reflexivity.
  - do 3 eexists. split; [reflexivity|]. split; [exact Hpin|].
    unfold AdminData.get. cbn [AdminData.resource AdminData.subscribers].
    change (AdminData.is_text (Some (js "subscribers")) "subscribers") with true.
    cbv iota. rewrite rev_app_distr. cbn [rev app map].
    rewrite (AdminFacts.decrypted_sealed ENCRYPTION_KEY key (AdminData.new_id rnd)
               _ _ None pin encName encPhone None
               Hkey HdecName HdecPhone eq_refl).
    reflexivity.
Qed.

(** The store of the admin page: the three subscribers, no reply, no PIN. *)
Definition admin_store : AdminData.store :=
  {| AdminData.subscribers := three_subscribers;
     AdminData.inbound_sms := [];
     AdminData.pins := [] |}.

Definition admin_draws : AdminData.draws :=
  {| AdminData.pin_bytes := ("255"%byte, "255"%byte, "255"%byte, "255"%byte);
     AdminData.iv_name := repeat 4 12;
     AdminData.iv_phone := repeat 5 12;
     AdminData.iv_how_met := repeat 6 12;
     AdminData.new_id := js "id-4" |}.

Definition ada_data : AdminData.subscriber_data :=
  {| AdminData.d_name := Some (js "Ada");
     AdminData.d_phone := Some (js "+16475551234");
     AdminData.d_how_met := Some (js "conference");
     AdminData.d_pin_code := Some (js "Z141Z3") |}.

Definition bearer : option jsstring := Some (js "Bearer service-key").

Lemma admin_needs_bearer_witness :
  Auth.isAuthorised (Some (js "service-key"))
    (AdminData.authorization (toggle_request bearer (Some (js "id-2")))) = true.
Proof.
  apply (admin_needs_bearer (Some (js "service-key")) zero_key None admin_draws
           admin_store (toggle_request bearer (Some (js "id-2")))).
  left. vm_compute. discriminate.
Defined.

Lemma admin_round_trip_witness :
  exists pin st' trace,
    AdminData.handler (Some (js "service-key")) zero_key None admin_draws admin_store
      (add_request bearer ada_data)
    = (AdminData.Returned (AdminData.json (AdminData.OkPin pin) 200), st', trace)
    /\ (forall p, AdminData.d_pin_code ada_data = Some p -> pin = p)
    /\ AdminData.handler (Some (js "service-key")) zero_key None admin_draws st'
         (list_request bearer)
       = (AdminData.Returned
            (AdminData.json
               (AdminData.Subscribers
                  ({| InboundSms.sub_id := AdminData.new_id admin_draws;
                      InboundSms.sub_name :=
                        AdminFacts.text_of (AdminData.d_name ada_data);
                      InboundSms.sub_phone :=
                        AdminFacts.text_of (AdminData.d_phone ada_data);
                      InboundSms.sub_pin_code := Some pin;
                      InboundSms.sub_how_met :=
                        match AdminData.d_how_met ada_data with
                        | Some ((_ :: _) as h) => Some h
                        | _ => None
                        end;
                      InboundSms.sub_active := true |}
                   :: map (AdminData.decrypted zero_key)
                        (rev (AdminData.subscribers admin_store))))
               200),
          st', [AdminData.SelectSubscribers]).
Proof.
  apply (admin_round_trip (Some (js "service-key")) bearer zero_key (repeat 0 32)
           admin_draws admin_store ada_data).
  - reflexivity.
  - vm_compute. reflexivity.
  - split; [repeat constructor; vm_compute; discriminate|reflexivity].
  - split; [repeat constructor; vm_compute; discriminate|reflexivity].
  - split; [repeat constructor; vm_compute; discriminate|reflexivity].
  - split; [vm_compute; repeat split; discriminate|vm_compute; discriminate].
  - split; [vm_compute; repeat split; discriminate|vm_compute; discriminate].
  - split; [vm_compute; repeat split; discriminate|vm_compute; discriminate].
Defined.

(** X25 (a second toggle undoes the first). With distinct subscriber ids,
    as the primary key gives, and a store that accepts the updates, two
    authorised toggles of one id leave the store exactly as it was, whether
    or not a subscriber has that id. *)
Theorem toggle_is_an_involution
    (SERVICE_KEY auth : option jsstring) (ENCRYPTION_KEY : jsstring)
    (rnd : AdminData.draws) (st : AdminData.store) (id : option jsstring) :
  Auth.isAuthorised SERVICE_KEY auth = true ->
  TwilioFacts.all_distinct (map InboundSms.sub_id (AdminData.subscribers st)) = true ->
  let once :=
    snd (fst (AdminData.handler SERVICE_KEY ENCRYPTION_KEY None rnd st
                (toggle_request auth id))) in
  snd (fst (AdminData.handler SERVICE_KEY ENCRYPTION_KEY None rnd once
              (toggle_request auth id))) = st.
Proof.
  intros Hauth Hd. cbv zeta.
  assert (Hrun : forall s,
             AdminData.handler SERVICE_KEY ENCRYPTION_KEY None rnd s
               (toggle_request auth id)
             = AdminData.toggle None s id).
  { intros s. unfold AdminData.handler, toggle_request.
    cbn [AdminData.req_method AdminData.authorization]. rewrite Hauth. reflexivity. }
  rewrite !Hrun. apply AdminFacts.toggle_twice, Hd.
Qed.

Lemma toggle_is_an_involution_witness :
  let once :=
    snd (fst (AdminData.handler (Some (js "service-key")) zero_key None admin_draws
                admin_store (toggle_request bearer (Some (js "id-2"))))) in
  snd (fst (AdminData.handler (Some (js "service-key")) zero_key None admin_draws once
              (toggle_request bearer (Some (js "id-2"))))) = admin_store.
Proof.
  apply (toggle_is_an_involution (Some (js "service-key")) bearer zero_key admin_draws
           admin_store (Some (js "id-2"))).
  - reflexivity.
  - vm_compute. reflexivity.
Defined.
